(** * Iris client core: message store, stream transport, replay, normalizer

    A shallow embedding of the TypeScript sources of the Iris front end
    and the properties of its event pipeline.

    Sources embedded here:
    - [frontend/src/hooks/useAgentRun.ts]: the message store
      ([updateMessage], [clear]) and, in the same file, the message
      normalizer ([normalizeMessage] and its helpers);
    - [frontend/src/app/share/[threadId]/page.tsx]: the replay page
      ([skipToMessage], [pausePlayback], [parseAttachments], the reveal
      timer and the displayed text);
    - the API module ([streamAgent], [stopAgent], the module-level
      [activeStreams] map and [nonRunningAgentRuns] set);
    - the tool model ([getToolModel], [parseMaybeJSON]).

    Conventions.  A JavaScript string is a [string]: a sequence of code
    units below 256.  A JavaScript number is modelled on the integers
    ([Z]); none of the embedded functions does arithmetic on payload
    numbers, only on indices.  Logging ([console.log] and friends) is
    not an effect of the model. *)

From Stdlib Require Import ZArith String Ascii List Bool Lia.
From stdpp Require Import base option list gmap sets strings pretty.

Local Set Warnings "-register-all,-clear-no-such-hyp".
Local Open Scope string_scope.
Local Open Scope Z_scope.

(** ** JavaScript values (the JSON fragment plus [undefined]) *)

Inductive JSValue : Type :=
| JUndefined
| JNull
| JBool (b : bool)
| JNum (z : Z)
| JStr (s : string)
| JArr (items : list JSValue)
| JObj (props : list (string * JSValue)).

(** Truthiness, as used by [!x], [x || y], [x && y] and [if (x)]. *)
Definition truthy (v : JSValue) : bool :=
  match v with
  | JUndefined | JNull => false
  | JBool b => b
  | JNum z => negb (z =? 0)
  | JStr s => negb (String.eqb s "")
  | JArr _ | JObj _ => true
  end.

(** [a || b] on values. *)
Definition js_or (a b : JSValue) : JSValue := if truthy a then a else b.

(** ** Strings

    The methods of [String.prototype] the sources call. *)

Module JSString.

(** The double quote, which a string literal here cannot hold. *)
Definition dq : string := String (ascii_of_nat 34) "".
Definition quoted (s : string) : string := dq +:+ s +:+ dq.

Definition LF : ascii := ascii_of_nat 10.
Definition CR : ascii := ascii_of_nat 13.

(** [s.startsWith(p)]. *)
Definition startsWith (s p : string) : bool := String.prefix p s.

(** [s.includes(sub)]. *)
Fixpoint includes (s sub : string) : bool :=
  if String.prefix sub s then true
  else match s with
       | EmptyString => false
       | String _ s' => includes s' sub
       end.

(** White space and line terminators below code unit 256, the
    characters [trim] strips. *)
Definition isWhiteSpace (c : ascii) : bool :=
  let n := nat_of_ascii c in
  ((9 <=? n)%nat && (n <=? 13)%nat) || (n =? 32)%nat || (n =? 160)%nat.

(** The characters the regular-expression dot does not match. *)
Definition isLineTerminator (c : ascii) : bool :=
  Ascii.eqb c LF || Ascii.eqb c CR.

Fixpoint trimStart (s : string) : string :=
  match s with
  | EmptyString => EmptyString
  | String c s' => if isWhiteSpace c then trimStart s' else s
  end.

Fixpoint trimEnd (s : string) : string :=
  match s with
  | EmptyString => EmptyString
  | String c s' =>
      let r := trimEnd s' in
      if isWhiteSpace c && String.eqb r "" then EmptyString else String c r
  end.

Definition trim (s : string) : string := trimEnd (trimStart s).

(** [s.substring(0, n)] for [0 <= n]. *)
Definition substring0 (n : nat) (s : string) : string := String.substring 0 n s.

(** Drop the first [n] characters. *)
Fixpoint drop (n : nat) (s : string) : string :=
  match n, s with
  | O, _ => s
  | S n', String _ s' => drop n' s'
  | S _, EmptyString => EmptyString
  end.

End JSString.

(** ** Message store ([useAgentRun]) *)

Module Store.

(** An [AgentMessage] at run time: its [message_id] and the rest of its
    own properties, keyed by property name. *)
Record AgentMessage := mkMessage {
  message_id : string;
  fields : gmap string JSValue
}.

Record AgentRunState := mkState {
  byId : gmap string AgentMessage;
  order : list string;
  isStreaming : bool;
  error : option string
}.

(** The initial value handed to [useState], also what [clear] sets. *)
Definition initialState : AgentRunState :=
  {| byId := ∅; order := []; isStreaming := false; error := None |}.

(** [Array.prototype.indexOf]: first index of [x], or [-1]. *)
Fixpoint indexOf (l : list string) (x : string) : Z :=
  match l with
  | [] => -1
  | y :: l' =>
      if String.eqb y x then 0
      else let i := indexOf l' x in if i <? 0 then -1 else i + 1
  end.

(** [{ ...old, ...message }]: the properties of [message] win; spreading
    [undefined] contributes nothing. *)
Definition spread (old : option AgentMessage) (message : AgentMessage) : AgentMessage :=
  match old with
  | None => message
  | Some o =>
      {| message_id := message_id message;
         fields := fields message ∪ fields o |}
  end.

Definition updateMessage (message : AgentMessage) (prevState : AgentRunState) : AgentRunState :=
  let existingIndex := indexOf (order prevState) (message_id message) in
  if 0 <=? existingIndex then
    {| byId := <[message_id message :=
                   spread (byId prevState !! message_id message) message]> (byId prevState);
       order := order prevState;
       isStreaming := isStreaming prevState;
       error := error prevState |}
  else
    {| byId := <[message_id message := message]> (byId prevState);
       order := order prevState ++ [message_id message];
       isStreaming := isStreaming prevState;
       error := error prevState |}.

Definition stopStreaming (st : AgentRunState) : AgentRunState :=
  {| byId := byId st; order := order st; isStreaming := false; error := error st |}.

Definition clear (st : AgentRunState) : AgentRunState :=
  let _ := stopStreaming st in initialState.

(** The operations a caller can apply to the store. *)
Inductive StoreOp :=
| OpUpdate (message : AgentMessage)
| OpClear.

Definition applyOp (st : AgentRunState) (op : StoreOp) : AgentRunState :=
  match op with
  | OpUpdate m => updateMessage m st
  | OpClear => clear st
  end.

Definition runOps (ops : list StoreOp) : AgentRunState :=
  fold_left applyOp ops initialState.

(** [messages]: [state.order.map(id => state.byId[id]).filter(Boolean)]. *)
Definition messages (st : AgentRunState) : list AgentMessage :=
  omap (fun id => byId st !! id) (order st).

(** The representation invariant of the store: the order lists each
    stored id once. *)
Definition consistent (st : AgentRunState) : Prop :=
  NoDup (order st) /\ dom (byId st) = list_to_set (order st).

End Store.

(** ** Replay page ([SharePage]) *)

Module Replay.

Record SharedMessage := mkShared {
  id : string;
  type : string;
  content : string;
  timestamp : string
}.

Record SharedThread := mkThread {
  messages : list SharedMessage
}.

(** The playback cells of the component, and the timers it owns:
    [streamingIntervalRef] holds the id of the last reveal interval,
    [liveIntervals] the ids not yet cleared. *)
Record ReplayState := mkReplay {
  isPlaying : bool;
  currentMessageIndex : Z;
  streamingText : string;
  isStreamingComplete : bool;
  streamingIntervalRef : option nat;
  liveIntervals : gset nat
}.

Definition clearInterval (ref : option nat) (live : gset nat) : gset nat :=
  match ref with
  | Some t => live ∖ {[t]}
  | None => live
  end.

Definition pausePlayback (st : ReplayState) : ReplayState :=
  {| isPlaying := false;
     currentMessageIndex := currentMessageIndex st;
     streamingText := streamingText st;
     isStreamingComplete := isStreamingComplete st;
     streamingIntervalRef := streamingIntervalRef st;
     liveIntervals := clearInterval (streamingIntervalRef st) (liveIntervals st) |}.

Definition resetPlayback (st : ReplayState) : ReplayState :=
  {| isPlaying := false;
     currentMessageIndex := 0;
     streamingText := "";
     isStreamingComplete := false;
     streamingIntervalRef := streamingIntervalRef st;
     liveIntervals := clearInterval (streamingIntervalRef st) (liveIntervals st) |}.

Definition skipToMessage (thread : option SharedThread) (index : Z) (st : ReplayState)
  : ReplayState :=
  match thread with
  | None => st
  | Some t =>
      let st1 := pausePlayback st in
      {| isPlaying := isPlaying st1;
         currentMessageIndex :=
           Z.max 0 (Z.min index (Z.of_nat (length (messages t)) - 1));
         streamingText := "";
         isStreamingComplete := false;
         streamingIntervalRef := streamingIntervalRef st1;
         liveIntervals := liveIntervals st1 |}
  end.

(** *** Attachment markers

    The regular expression [/\[Uploaded File: (.*?)\]/]: the literal
    opener, the shortest run of characters other than line terminators,
    and a closing bracket. *)

Definition opener : string := "[Uploaded File: ".

(** [(.*?)\]] at the start of [s]: the captured run, if the first
    closing bracket comes before any line terminator. *)
Fixpoint lazyToBracket (s : string) : option string :=
  match s with
  | EmptyString => None
  | String c s' =>
      if Ascii.eqb c "]" then Some EmptyString
      else if JSString.isLineTerminator c then None
      else match lazyToBracket s' with
           | Some cap => Some (String c cap)
           | None => None
           end
  end.

(** A match of the whole expression at the start of [s]: its capture. *)
Definition matchAt (s : string) : option string :=
  if JSString.startsWith s opener
  then lazyToBracket (JSString.drop (String.length opener) s)
  else None.

(** The matched text of a match with capture [cap]. *)
Definition matchedText (cap : string) : string := opener +:+ cap +:+ "]".

(** [text.match(/.../g)]: the matched texts, left to right, without
    overlap; [skip] counts the characters of the last match still to
    pass. *)
Fixpoint matchAllFrom (skip : nat) (s : string) : list string :=
  match s with
  | EmptyString => []
  | String c s' =>
      match skip with
      | S k => matchAllFrom k s'
      | O =>
          match matchAt s with
          | Some cap =>
              matchedText cap :: matchAllFrom (String.length opener + String.length cap) s'
          | None => matchAllFrom O s'
          end
      end
  end.

Definition matchAll (text : string) : list string := matchAllFrom O text.

(** [m.match(/.../)] without the [g] flag: the capture of the leftmost
    match. *)
Fixpoint execFirst (s : string) : option string :=
  match s with
  | EmptyString => None
  | String _ s' =>
      match matchAt s with
      | Some cap => Some cap
      | None => execFirst s'
      end
  end.

(** [text.replace(/.../g, '')]. *)
Fixpoint removeAllFrom (skip : nat) (s : string) : string :=
  match s with
  | EmptyString => EmptyString
  | String c s' =>
      match skip with
      | S k => removeAllFrom k s'
      | O =>
          match matchAt s with
          | Some cap => removeAllFrom (String.length opener + String.length cap) s'
          | None => String c (removeAllFrom O s')
          end
      end
  end.

Record Attachments := mkAttachments {
  clean : string;
  paths : list string
}.

Definition parseAttachments (text : string) : Attachments :=
  let matches := matchAll text in
  let paths :=
    omap (fun m => match execFirst m with
                   | Some cap => if String.eqb cap "" then None else Some cap
                   | None => None
                   end) matches in
  let clean := JSString.trim (removeAllFrom O text) in
  {| clean := clean; paths := paths |}.

(** *** Playback *)

(** [thread.messages[i]] for the current index. *)
Definition messageAt (t : SharedThread) (i : Z) : option SharedMessage :=
  if i <? 0 then None else messages t !! Z.to_nat i.

(** [startPlayback]: returns the new state and, when a reveal starts,
    the message being revealed (the reveal interval [timer] is then
    live, its closure variable [charIndex] at [0]). *)
Definition startPlayback (thread : option SharedThread) (timer : nat) (st : ReplayState)
  : ReplayState * option SharedMessage :=
  match thread with
  | None => (st, None)
  | Some t =>
      if isPlaying st then (st, None)
      else if currentMessageIndex st <? Z.of_nat (List.length (messages t)) then
        ({| isPlaying := true;
            currentMessageIndex := currentMessageIndex st;
            streamingText := "";
            isStreamingComplete := false;
            streamingIntervalRef := Some timer;
            liveIntervals := liveIntervals st ∪ {[timer]} |},
         messageAt t (currentMessageIndex st))
      else
        ({| isPlaying := false;
            currentMessageIndex := currentMessageIndex st;
            streamingText := streamingText st;
            isStreamingComplete := true;
            streamingIntervalRef := streamingIntervalRef st;
            liveIntervals := liveIntervals st |}, None)
  end.

(** One firing of the reveal interval, [streamMessage], on the message
    under reveal with the closure variable [charIndex]. *)
Definition streamMessage (message : SharedMessage) (charIndex : nat) (st : ReplayState)
  : nat * ReplayState :=
  if (charIndex <? String.length (content message))%nat then
    (S charIndex,
     {| isPlaying := isPlaying st;
        currentMessageIndex := currentMessageIndex st;
        streamingText := JSString.substring0 (charIndex + 1) (content message);
        isStreamingComplete := isStreamingComplete st;
        streamingIntervalRef := streamingIntervalRef st;
        liveIntervals := liveIntervals st |})
  else
    (charIndex,
     {| isPlaying := isPlaying st;
        currentMessageIndex := currentMessageIndex st;
        streamingText := streamingText st;
        isStreamingComplete := true;
        streamingIntervalRef := streamingIntervalRef st;
        liveIntervals := clearInterval (streamingIntervalRef st) (liveIntervals st) |}).

(** [n] firings in a row. *)
Fixpoint reveal (message : SharedMessage) (n : nat) (charIndex : nat) (st : ReplayState)
  : nat * ReplayState :=
  match n with
  | O => (charIndex, st)
  | S n' =>
      let '(charIndex', st') := streamMessage message charIndex st in
      reveal message n' charIndex' st'
  end.

(** The settle timeout that follows a finished reveal. *)
Definition advance (st : ReplayState) : ReplayState :=
  {| isPlaying := isPlaying st;
     currentMessageIndex := currentMessageIndex st + 1;
     streamingText := "";
     isStreamingComplete := false;
     streamingIntervalRef := streamingIntervalRef st;
     liveIntervals := liveIntervals st |}.

(** *** What the page shows for the message at position [index] *)

Definition shouldShowStreaming (index : nat) (st : ReplayState) : bool :=
  (Z.of_nat index =? currentMessageIndex st) && isPlaying st
  && negb (isStreamingComplete st).

Definition displayContent (message : SharedMessage) (index : nat) (st : ReplayState) : string :=
  let a := parseAttachments (content message) in
  if shouldShowStreaming index st then streamingText st else clean a.

(** The attachment chips shown under the message. *)
Definition displayPaths (message : SharedMessage) : list string :=
  paths (parseAttachments (content message)).


End Replay.

(** ** Stream transport (the API module) *)

Module Transport.

Import JSString.

(** What the module does to the outside: the caller's callbacks (each
    call of [streamAgent] brings its own bundle, named [cb] here), the
    [EventSource] objects it constructs and closes, and the stop request
    it sends. *)
Inductive Effect :=
| OnMessage (cb : nat) (content : string)
| OnError (cb : nat) (error : string)
| OnClose (cb : nat)
| NewEventSource (handle : nat) (agentRunId : string) (token : string) (cacheBuster : Z)
| EventSourceClose (handle : nat)
| PostStop (agentRunId : string) (token : string).

(** The module-level state: [activeStreams], [nonRunningAgentRuns],
    the [EventSource] objects made so far (a handle is the number of the
    object) and those closed, the live watchdog intervals (one per call
    of [streamAgent]), [window.lastStreamMessage], and the effects so
    far, oldest first. *)
Record World := mkWorld {
  activeStreams : gmap string nat;
  nonRunningAgentRuns : gset string;
  created : nat;
  closed : gset nat;
  watchdogs : gset nat;
  lastStreamMessage : option Z;
  trace : list Effect
}.

Definition emptyWorld : World :=
  {| activeStreams := ∅; nonRunningAgentRuns := ∅; created := 0; closed := ∅;
     watchdogs := ∅; lastStreamMessage := None; trace := [] |}.

Definition emit (e : Effect) (w : World) : World :=
  {| activeStreams := activeStreams w; nonRunningAgentRuns := nonRunningAgentRuns w;
     created := created w; closed := closed w; watchdogs := watchdogs w;
     lastStreamMessage := lastStreamMessage w; trace := trace w ++ [e] |}.

(** [nonRunningAgentRuns.add(agentRunId)]. *)
Definition addNonRunning (agentRunId : string) (w : World) : World :=
  {| activeStreams := activeStreams w;
     nonRunningAgentRuns := nonRunningAgentRuns w ∪ {[agentRunId]};
     created := created w; closed := closed w; watchdogs := watchdogs w;
     lastStreamMessage := lastStreamMessage w; trace := trace w |}.

(** [eventSource.close()]. *)
Definition closeSource (h : nat) (w : World) : World :=
  {| activeStreams := activeStreams w; nonRunningAgentRuns := nonRunningAgentRuns w;
     created := created w; closed := closed w ∪ {[h]}; watchdogs := watchdogs w;
     lastStreamMessage := lastStreamMessage w;
     trace := trace w ++ [EventSourceClose h] |}.

(** [activeStreams.delete(agentRunId)]. *)
Definition deleteActive (agentRunId : string) (w : World) : World :=
  {| activeStreams := delete agentRunId (activeStreams w);
     nonRunningAgentRuns := nonRunningAgentRuns w;
     created := created w; closed := closed w; watchdogs := watchdogs w;
     lastStreamMessage := lastStreamMessage w; trace := trace w |}.

(** [window.lastStreamMessage = Date.now()]. *)
Definition touch (now : Z) (w : World) : World :=
  {| activeStreams := activeStreams w; nonRunningAgentRuns := nonRunningAgentRuns w;
     created := created w; closed := closed w; watchdogs := watchdogs w;
     lastStreamMessage := Some now; trace := trace w |}.

Definition setWatchdogs (ws : gset nat) (w : World) : World :=
  {| activeStreams := activeStreams w; nonRunningAgentRuns := nonRunningAgentRuns w;
     created := created w; closed := closed w; watchdogs := ws;
     lastStreamMessage := lastStreamMessage w; trace := trace w |}.

(** [new EventSource(url)] followed by [activeStreams.set(agentRunId, eventSource)]. *)
Definition openSource (agentRunId token : string) (now : Z) (w : World) : World :=
  {| activeStreams := <[agentRunId := created w]> (activeStreams w);
     nonRunningAgentRuns := nonRunningAgentRuns w;
     created := S (created w); closed := closed w; watchdogs := watchdogs w;
     lastStreamMessage := lastStreamMessage w;
     trace := trace w ++ [NewEventSource (created w) agentRunId token now] |}.

(** The session [supabase.auth.getSession()] resolves to. *)
Record Session := mkSession { access_token : string }.

(** [session?.access_token], when truthy. *)
Definition accessToken (session : option Session) : option string :=
  match session with
  | Some s => if String.eqb (access_token s) "" then None else Some (access_token s)
  | None => None
  end.

(** The block both [streamAgent] and [stopAgent] open with, and the
    cleanup handle repeats: close the stream registered for the run, if
    any, and unregister it. *)
Definition closeExisting (agentRunId : string) (w : World) : World :=
  match activeStreams w !! agentRunId with
  | Some h => deleteActive agentRunId (closeSource h w)
  | None => w
  end.

(** *** [streamAgent]

    The call itself runs up to the [await] of the session inside
    [setupStream]; [setupStream] is the rest, run once the session is
    there.  [API_URL] is taken to be an absolute base, for which
    [new URL] succeeds, and the two callbacks of the branch without a
    token are taken to return. *)
Definition streamAgent (agentRunId : string) (w : World) : World :=
  closeExisting agentRunId w.

Definition setupStream (cb : nat) (agentRunId : string) (session : option Session)
    (now : Z) (w : World) : World :=
  match accessToken session with
  | None => emit (OnClose cb) (emit (OnError cb "Authentication required") w)
  | Some token =>
      let w := openSource agentRunId token now w in
      setWatchdogs (watchdogs w ∪ {[cb]}) w
  end.

(** A whole start: the call and the continuation of [setupStream]. *)
Definition start (cb : nat) (agentRunId : string) (session : option Session)
    (now : Z) (w : World) : World :=
  setupStream cb agentRunId session now (streamAgent agentRunId w).

(** The cleanup function [streamAgent] returns. *)
Definition cleanup (cb : nat) (agentRunId : string) (w : World) : World :=
  let w := closeExisting agentRunId w in
  setWatchdogs (watchdogs w ∖ {[cb]}) w.

(** [eventSource.onopen]. *)
Definition onopen (now : Z) (w : World) : World := touch now w.

(** The markers [eventSource.onmessage] looks for. *)
Definition pingMarker : string := quoted "type" +:+ ":" +:+ quoted "ping".
Definition statusMarker : string := quoted "type" +:+ ":" +:+ quoted "status".
Definition completedMarker : string := quoted "status" +:+ ":" +:+ quoted "completed".
Definition threadRunEndMarker : string :=
  quoted "status_type" +:+ ":" +:+ quoted "thread_run_end".

Definition isNotFound (rawData : string) : bool :=
  includes rawData "Agent run" && includes rawData "not found in active runs".

Definition isCompletion (rawData : string) : bool :=
  includes rawData statusMarker && includes rawData completedMarker.

Definition isFinalCompletion (rawData : string) : bool :=
  includes rawData "Run data not available for streaming"
  || includes rawData "Stream ended with status: completed".

Definition isThreadRunEnd (rawData : string) : bool :=
  includes rawData statusMarker && includes rawData threadRunEndMarker.

(** How a call of one of the caller's callbacks ends: it returns, or it
    throws.  [error] stands for the value thrown the way [OnError]
    carries an error: the message of an [Error], the string form of
    anything else. *)
Inductive CallOutcome :=
| Returns
| Throws (error : string).

(** The caller of [streamAgent], as far as the module can tell: how a
    call of one of its callbacks ends, given the effects before the
    call.  The callbacks do not call back into the module. *)
Definition Caller : Type := list Effect -> Effect -> CallOutcome.

(** A caller whose callbacks always return. *)
Definition returning : Caller := fun _ _ => Returns.

(** A call of a callback: the call is made, and it returns or throws. *)
Definition call (caller : Caller) (e : Effect) (w : World) : World * CallOutcome :=
  (emit e w, caller (trace w) e).

(** The statements that follow a call in a block: skipped when the call
    threw. *)
Definition andThen (r : World * CallOutcome) (k : World -> World * CallOutcome)
  : World * CallOutcome :=
  match r with
  | (w, Returns) => k w
  | (w, Throws error) => (w, Throws error)
  end.

(** [catch (error) { callbacks.onError(...) }] around a block; what
    [onError] throws here leaves the handler. *)
Definition catching (caller : Caller) (cb : nat) (r : World * CallOutcome) : World :=
  match r with
  | (w, Returns) => w
  | (w, Throws error) => fst (call caller (OnError cb error) w)
  end.

(** The shared ending of the terminal branches: close this handler's
    [EventSource], unregister the run, call [onClose]. *)
Definition closing (caller : Caller) (cb h : nat) (agentRunId : string) (w : World)
  : World * CallOutcome :=
  call caller (OnClose cb) (deleteActive agentRunId (closeSource h w)).

(** The same ending where [onClose] returns, as the continuations of
    the status checks run it. *)
Definition finish (cb h : nat) (agentRunId : string) (w : World) : World :=
  emit (OnClose cb) (deleteActive agentRunId (closeSource h w)).

(** The [try] block of [eventSource.onmessage]; [event.data] of an
    [EventSource] message is a string. *)
Definition onmessageTry (caller : Caller) (cb h : nat) (agentRunId : string) (now : Z)
    (rawData : string) (w : World) : World * CallOutcome :=
  let w := touch now w in
  if includes rawData pingMarker then (touch now w, Returns)
  else if String.eqb rawData "" || String.eqb (trim rawData) "" then (w, Returns)
  else if isNotFound rawData then
    let w := addNonRunning agentRunId w in
    andThen (call caller (OnError cb "Agent run not found in active runs") w)
      (closing caller cb h agentRunId)
  else if isCompletion rawData then
    let w := if isFinalCompletion rawData then addNonRunning agentRunId w else w in
    andThen (call caller (OnMessage cb rawData) w) (closing caller cb h agentRunId)
  else if isThreadRunEnd rawData then
    let w := addNonRunning agentRunId w in
    andThen (call caller (OnMessage cb rawData) w) (closing caller cb h agentRunId)
  else call caller (OnMessage cb rawData) w.

(** [eventSource.onmessage] of the [EventSource] [h] that the call with
    callbacks [cb] made for [agentRunId], on an event with data
    [rawData] at time [now]: the [try] block, and the [catch] that
    reports what a callback threw through [onError]. *)
Definition onmessage (caller : Caller) (cb h : nat) (agentRunId : string) (now : Z)
    (rawData : string) (w : World) : World :=
  catching caller cb (onmessageTry caller cb h agentRunId now rawData w).

(** *** [stopAgent] *)

(** What [fetch] settles to. *)
Inductive FetchResult :=
| NetworkError (message : string)
| Response (ok : bool) (statusText : string).

(** How an [async] function ends. *)
Inductive Outcome :=
| Resolved
| Rejected (message : string).

(** Up to the [await] of the session. *)
Definition stopAgent_begin (agentRunId : string) (w : World) : World :=
  closeExisting agentRunId (addNonRunning agentRunId w).

(** From the session to the [await] of [fetch]: the request goes out,
    or the call rejects. *)
Definition stopAgent_request (agentRunId : string) (session : option Session) (w : World)
  : World * option Outcome :=
  match accessToken session with
  | None => (w, Some (Rejected "No access token available"))
  | Some token => (emit (PostStop agentRunId token) w, None)
  end.

(** From the response to the end. *)
Definition stopAgent_response (response : FetchResult) : Outcome :=
  match response with
  | NetworkError m => Rejected m
  | Response true _ => Resolved
  | Response false statusText => Rejected ("Error stopping agent: " +:+ statusText)
  end.

(** A whole call, with the session and the response it meets. *)
Definition stopAgent (agentRunId : string) (session : option Session)
    (response : FetchResult) (w : World) : World * Outcome :=
  let w := stopAgent_begin agentRunId w in
  match stopAgent_request agentRunId session w with
  | (w, Some o) => (w, o)
  | (w, None) => (w, stopAgent_response response)
  end.

(** The stop requests among some effects. *)
Definition stopRequests (agentRunId : string) (t : list Effect) : list Effect :=
  List.filter (fun e => match e with
                        | PostStop r _ => String.eqb r agentRunId
                        | _ => false
                        end) t.

End Transport.

(** ** Values at run time: properties, exceptions, conversions *)

Module JS.

(** The exceptions the embedded code can meet. *)
Inductive Exn :=
| SyntaxError (message : string)
| TypeError (message : string).

(** [String(error)], as a template literal interpolates it. *)
Definition exnToString (e : Exn) : string :=
  match e with
  | SyntaxError m => "SyntaxError: " +:+ m
  | TypeError m => "TypeError: " +:+ m
  end.

(** A computation that returns or throws. *)
Inductive Result (A : Type) :=
| Ok (a : A)
| Throw (e : Exn).
Arguments Ok {A} a.
Arguments Throw {A} e.

(** Own properties, in insertion order. *)
Fixpoint lookupProp (k : string) (props : list (string * JSValue)) : option JSValue :=
  match props with
  | [] => None
  | (k', v) :: rest => if String.eqb k' k then Some v else lookupProp k rest
  end.

(** [o[k] = v]: in place when [k] is there, else at the end. *)
Fixpoint setProp (k : string) (v : JSValue) (props : list (string * JSValue))
  : list (string * JSValue) :=
  match props with
  | [] => [(k, v)]
  | (k', v') :: rest =>
      if String.eqb k' k then (k, v) :: rest else (k', v') :: setProp k v rest
  end.

(** [{ ...target, ...source }] on property lists. *)
Definition spreadProps (target source : list (string * JSValue)) : list (string * JSValue) :=
  fold_left (fun acc kv => setProp (fst kv) (snd kv) acc) source target.

(** [v.k] where [v] is known not to be [null] or [undefined]; [k] is
    one of the names the sources read, none of which a prototype
    defines. *)
Definition get (v : JSValue) (k : string) : JSValue :=
  match v with
  | JObj props => default JUndefined (lookupProp k props)
  | _ => JUndefined
  end.

(** [v.k] in general: reading a property of [null] or [undefined] throws
    (the text is V8's). *)
Definition getProp (v : JSValue) (k : string) : Result JSValue :=
  match v with
  | JUndefined =>
      Throw (TypeError ("Cannot read properties of undefined (reading '" +:+ k +:+ "')"))
  | JNull =>
      Throw (TypeError ("Cannot read properties of null (reading '" +:+ k +:+ "')"))
  | _ => Ok (get v k)
  end.

(** [v?.k]. *)
Definition getOptional (v : JSValue) (k : string) : JSValue :=
  match v with
  | JUndefined | JNull => JUndefined
  | _ => get v k
  end.

(** [typeof v === 'string'] and [typeof v === 'object']. *)
Definition isString (v : JSValue) : bool :=
  match v with JStr _ => true | _ => false end.

Definition isObjectType (v : JSValue) : bool :=
  match v with JNull | JArr _ | JObj _ => true | _ => false end.

(** [v === 's'] for a string literal. *)
Definition isStr (v : JSValue) (s : string) : bool :=
  match v with JStr t => String.eqb t s | _ => false end.

(** [v !== false]. *)
Definition notFalse (v : JSValue) : bool :=
  match v with JBool false => false | _ => true end.

(** [list.includes(v)] for a list of string literals. *)
Definition inStrings (l : list string) (v : JSValue) : bool :=
  existsb (isStr v) l.

(** [v.hasOwnProperty(k)] for [v] not [null] or [undefined].  An own
    property of that name hides the method, and no value of the model
    is callable. *)
Definition hasOwnProperty (v : JSValue) (k : string) : Result bool :=
  match v with
  | JObj props =>
      match lookupProp "hasOwnProperty" props with
      | Some _ => Throw (TypeError "parsed.hasOwnProperty is not a function")
      | None => Ok (bool_decide (is_Some (lookupProp k props)))
      end
  | _ => Ok false
  end.

(** [String(v)], the conversion [JSON.parse] applies to its argument. *)
Fixpoint toString (v : JSValue) : string :=
  match v with
  | JUndefined => "undefined"
  | JNull => "null"
  | JBool true => "true"
  | JBool false => "false"
  | JNum z => pretty z
  | JStr s => s
  | JArr items =>
      (fix join (l : list JSValue) : string :=
         match l with
         | [] => ""
         | [x] => match x with JUndefined | JNull => "" | _ => toString x end
         | x :: rest =>
             (match x with JUndefined | JNull => "" | _ => toString x end)
             +:+ "," +:+ join rest
         end) items
  | JObj _ => "[object Object]"
  end.

(** What [contentStr.includes(...)] throws when [contentStr] is not a
    string. *)
Definition includesError (v : JSValue) : Exn :=
  match v with
  | JUndefined => TypeError "Cannot read properties of undefined (reading 'includes')"
  | JNull => TypeError "Cannot read properties of null (reading 'includes')"
  | _ => TypeError "contentStr.includes is not a function"
  end.

(** What the code takes from the platform: [JSON.parse] on a text,
    [JSON.stringify], and the identifiers that
    [`msg_${Date.now()}_${Math.random()...}`] yields, one per call. *)
Record Platform := mkPlatform {
  parseText : string -> Result JSValue;
  JSON_stringify : JSValue -> JSValue;
  freshId : nat -> string
}.

(** [JSON.parse(v)]. *)
Definition JSON_parse (pf : Platform) (v : JSValue) : Result JSValue :=
  parseText pf (toString v).

(** *** Computations that draw identifiers and may throw

    The state is the number of identifiers drawn so far. *)
Definition Comp (A : Type) : Type := nat -> Result A * nat.

Definition ret {A} (a : A) : Comp A := fun n => (Ok a, n).

Definition throw {A} (e : Exn) : Comp A := fun n => (Throw e, n).

Definition bind {A B} (m : Comp A) (f : A -> Comp B) : Comp B :=
  fun n => match m n with
           | (Ok a, n') => f a n'
           | (Throw e, n') => (Throw e, n')
           end.

Definition lift {A} (r : Result A) : Comp A := fun n => (r, n).

(** [try { body } catch (e) { handler }]. *)
Definition tryCatch {A} (body : Comp A) (handler : Exn -> Comp A) : Comp A :=
  fun n => match body n with
           | (Ok a, n') => (Ok a, n')
           | (Throw e, n') => handler e n'
           end.

Definition generateId (pf : Platform) : Comp string :=
  fun n => (Ok ("msg_" +:+ freshId pf n), S n).

End JS.

(** ** Message normalizer ([normalizeMessage] and its helpers) *)

Module Normalizer.

Import JS JSString.

Notation "'let*' x ':=' m 'in' k" := (bind m (fun x => k))
  (at level 10, x name, m at level 100, k at level 200, only parsing).

(** *** The regular expressions of the helpers *)

(** Index of the first occurrence of [sub] in [s]. *)
Fixpoint indexOfStr (s sub : string) : option nat :=
  if String.prefix sub s then Some O
  else match s with
       | EmptyString => None
       | String _ s' => option_map S (indexOfStr s' sub)
       end.

Fixpoint takeWhile (p : ascii -> bool) (s : string) : string :=
  match s with
  | EmptyString => EmptyString
  | String c s' => if p c then String c (takeWhile p s') else EmptyString
  end.

Definition openTag : string := "<tool_result".
Definition closeTag : string := "</tool_result>".

(** [/<tool_result[^>]*>(.*?)<\/tool_result>/s] at the start of [s]: the
    length of the match.  The opening tag runs to the first [>], the
    body to the first closing tag. *)
Definition toolResultAt (s : string) : option nat :=
  if startsWith s openTag then
    let r := drop (String.length openTag) s in
    match indexOfStr r ">" with
    | Some i =>
        match indexOfStr (drop (i + 1) r) closeTag with
        | Some j => Some (String.length openTag + i + 1 + j + String.length closeTag)%nat
        | None => None
        end
    | None => None
    end
  else None.

(** [content.match(/.../gs)]: with the [g] flag the array holds the
    matched texts, not the capture. *)
Fixpoint toolResultMatchesFrom (skip : nat) (s : string) : list string :=
  match s with
  | EmptyString => []
  | String _ s' =>
      match skip with
      | S k => toolResultMatchesFrom k s'
      | O =>
          match toolResultAt s with
          | Some len => substring0 len s :: toolResultMatchesFrom (len - 1) s'
          | None => toolResultMatchesFrom O s'
          end
      end
  end.

Definition toolResultMatches (content : string) : list string :=
  toolResultMatchesFrom O content.

Definition isTagChar (c : ascii) : bool :=
  let n := nat_of_ascii c in
  ((65 <=? n)%nat && (n <=? 90)%nat) || ((97 <=? n)%nat && (n <=? 122)%nat)
  || (n =? 45)%nat.

(** [content.match(/<([a-zA-Z-]+)/)]: the capture. *)
Fixpoint xmlMatch (s : string) : option string :=
  match s with
  | EmptyString => None
  | String c s' =>
      if Ascii.eqb c "<" then
        match takeWhile isTagChar s' with
        | EmptyString => xmlMatch s'
        | run => Some run
        end
      else xmlMatch s'
  end.

(** [s.replace('-', '_')]: the first occurrence only. *)
Fixpoint replaceFirstDash (s : string) : string :=
  match s with
  | EmptyString => EmptyString
  | String c s' =>
      if Ascii.eqb c "-" then String "_" s' else String c (replaceFirstDash s')
  end.

Definition functionNameKey : string := quoted "function_name" +:+ ":".

Definition notQuote (c : ascii) : bool := negb (Ascii.eqb c (ascii_of_nat 34)).

(** The expression for a quoted [function_name] key, a colon, optional
    white space and a quoted non-empty value, at the start of [s]: the
    value. *)
Definition funcAt (s : string) : option string :=
  if startsWith s functionNameKey then
    match trimStart (drop (String.length functionNameKey) s) with
    | String q r =>
        if notQuote q then None
        else
          match takeWhile notQuote r with
          | EmptyString => None
          | run => if startsWith (drop (String.length run) r) dq then Some run else None
          end
    | EmptyString => None
    end
  else None.

Fixpoint funcMatch (s : string) : option string :=
  match s with
  | EmptyString => None
  | String _ s' =>
      match funcAt s with
      | Some cap => Some cap
      | None => funcMatch s'
      end
  end.

Section WithPlatform.

Variable pf : Platform.

Definition canonicalTypes : list string :=
  ["user"; "assistant"; "tool_call"; "tool_result"; "tool_start"; "tool_error"; "status"].

(** [v || generateId()]. *)
Definition orGenerateId (v : JSValue) : Comp JSValue :=
  if truthy v then ret v
  else let* i := generateId pf in ret (JStr i).

(** The own properties an object spread copies. *)
Definition ownProps (v : JSValue) : list (string * JSValue) :=
  match v with
  | JObj props => props
  | _ => []
  end.

(** [extractToolName(message, content)]; [message] is not [null]. *)
Definition extractToolName (message content : JSValue) : Comp JSValue :=
  let* fromMetadata :=
    if truthy (get message "metadata") then
      let* metadata :=
        if isString (get message "metadata")
        then lift (JSON_parse pf (get message "metadata"))
        else ret (get message "metadata") in
      let* tool_name := lift (getProp metadata "tool_name") in
      let name := js_or tool_name (get metadata "function_name") in
      if truthy name then ret (Some name) else ret None
    else ret None in
  match fromMetadata with
  | Some name => ret name
  | None =>
      match content with
      | JStr s =>
          match xmlMatch s with
          | Some cap => ret (JStr (replaceFirstDash cap))
          | None =>
              match funcMatch s with
              | Some cap => ret (JStr cap)
              | None => ret (JStr "unknown")
              end
          end
      | _ => ret (JStr "unknown")
      end
  end.

(** [parseToolMessage(message, content)]: a message, or [null]. *)
Definition parseToolMessage (message content : JSValue) : Comp JSValue :=
  tryCatch
    (let* wrapped :=
       match content with
       | JStr s =>
           if includes s "<tool_result>" then
             match toolResultMatches s with
             | [] => ret None
             | matches =>
                 let m1 := match matches !! 1%nat with
                           | Some x => JStr x
                           | None => JUndefined
                           end in
                 let* r :=
                   tryCatch
                     (let* resultData := lift (JSON_parse pf m1) in
                      let* id := orGenerateId (get message "id") in
                      let* rtool := lift (getProp resultData "tool") in
                      let* tool := if truthy rtool then ret rtool
                                   else extractToolName message content in
                      ret (JObj [("id", id);
                                 ("type", JStr "tool_result");
                                 ("tool", tool);
                                 ("output", js_or (get resultData "output") resultData);
                                 ("success", JBool (notFalse (get resultData "success")));
                                 ("error", get resultData "error");
                                 ("timestamp", get message "timestamp")]))
                     (fun _ =>
                        let* id := orGenerateId (get message "id") in
                        let* tool := extractToolName message content in
                        ret (JObj [("id", id);
                                   ("type", JStr "tool_result");
                                   ("tool", tool);
                                   ("output", m1);
                                   ("success", JBool true);
                                   ("timestamp", get message "timestamp")])) in
                 ret (Some r)
             end
           else ret None
       | _ => ret None
       end in
     match wrapped with
     | Some r => ret r
     | None =>
         match content with
         | JStr s =>
             if startsWith s "{" || includes s "role:" then
               tryCatch
                 (let* parsed := lift (JSON_parse pf content) in
                  let* ty := lift (getProp parsed "type") in
                  if isStr ty "tool_call" then
                    let* id := orGenerateId (get message "id") in
                    ret (JObj [("id", id);
                               ("type", JStr "tool_call");
                               ("tool", get parsed "tool");
                               ("arguments", get parsed "arguments");
                               ("timestamp", get message "timestamp")])
                  else if isStr ty "tool_result" then
                    let* id := orGenerateId (get message "id") in
                    ret (JObj [("id", id);
                               ("type", JStr "tool_result");
                               ("tool", get parsed "tool");
                               ("output", get parsed "output");
                               ("success", get parsed "success");
                               ("error", get parsed "error");
                               ("timestamp", get message "timestamp")])
                  else ret JNull)
                 (fun _ => ret JNull)
             else ret JNull
         | _ => ret JNull
         end
     end)
    (fun _ => ret JNull).

(** [detectMessageType(content)]: a message, or [null]. *)
Definition detectMessageType (content : JSValue) : Comp JSValue :=
  if negb (truthy content) then ret JNull
  else
    let contentStr := if isString content then content else JSON_stringify pf content in
    let parse := if isString content then lift (JSON_parse pf content) else ret content in
    match contentStr with
    | JStr str =>
        let* call :=
          if includes str "tool_call" || includes str "function_name" then
            tryCatch
              (let* parsed := parse in
               let* ty := lift (getProp parsed "type") in
               if isStr ty "tool_call" || truthy (get parsed "function_name") then
                 let* id := generateId pf in
                 ret (Some (JObj [("id", JStr id);
                                  ("type", JStr "tool_call");
                                  ("tool", js_or (get parsed "tool")
                                                 (get parsed "function_name"));
                                  ("arguments", js_or (get parsed "arguments") (JObj []));
                                  ("timestamp", get parsed "timestamp")]))
               else ret None)
              (fun _ => ret None)
          else ret None in
        match call with
        | Some r => ret r
        | None =>
            if includes str "tool_result" || includes str "success"
               || includes str "output" then
              tryCatch
                (let* parsed := parse in
                 let* ty := lift (getProp parsed "type") in
                 let* isResult :=
                   if isStr ty "tool_result" then ret true
                   else
                     let* hasSuccess := lift (hasOwnProperty parsed "success") in
                     if hasSuccess then lift (hasOwnProperty parsed "output")
                     else ret false in
                 if isResult then
                   let* id := generateId pf in
                   ret (JObj [("id", JStr id);
                              ("type", JStr "tool_result");
                              ("tool", js_or (get parsed "tool") (JStr "unknown"));
                              ("output", get parsed "output");
                              ("success", get parsed "success");
                              ("error", get parsed "error");
                              ("timestamp", get parsed "timestamp")])
                 else ret JNull)
                (fun _ => ret JNull)
            else ret JNull
        end
    | other => throw (includesError other)
    end.

(** How a branch of [normalizeMessage] ends: with a [return], or by
    falling through to the metadata lines with [normalized] as it
    stands. *)
Inductive Branch :=
| Return (v : JSValue)
| Continue (normalized : list (string * JSValue)).

(** The value [JSON.stringify(content)] stands in for when [content] is
    not a string: [content?.content || JSON.stringify(content)]. *)
Definition textOf (content : JSValue) : JSValue :=
  if isString content then content
  else js_or (getOptional content "content") (JSON_stringify pf content).

(** The chain of [if]/[else if] on [message.type] and [message.role]. *)
Definition dispatch (message content : JSValue) (normalized : list (string * JSValue))
  : Comp Branch :=
  let type := get message "type" in
  let role := get message "role" in
  if isStr type "status" then
    let normalized := setProp "type" (JStr "status") normalized in
    let normalized :=
      setProp "status_type"
        (js_or (get message "status_type") (get message "status")) normalized in
    let normalized :=
      setProp "message" (js_or (get message "message") (get message "content")) normalized in
    if isStr (get message "status_type") "tool_started" then
      ret (Continue (setProp "message" (JStr "Computer is starting...")
                       (setProp "type" (JStr "status") normalized)))
    else if isStr (get message "status_type") "tool_completed" then
      ret (Continue (setProp "message" (JStr "Done")
                       (setProp "type" (JStr "status") normalized)))
    else ret (Continue normalized)
  else if isStr type "tool" || isStr role "tool" then
    let* toolMessage := parseToolMessage message content in
    if truthy toolMessage then ret (Return toolMessage)
    else
      let normalized := setProp "type" (JStr "tool_result") normalized in
      let* tool := extractToolName message content in
      let normalized := setProp "tool" tool normalized in
      let normalized := setProp "output" (js_or content (get message "output")) normalized in
      ret (Continue (setProp "success" (JBool (notFalse (get message "success"))) normalized))
  else if isStr type "user" || isStr role "user" then
    ret (Continue (setProp "content" (textOf content)
                     (setProp "type" (JStr "user") normalized)))
  else if isStr type "assistant" || isStr role "assistant" then
    ret (Continue (setProp "content" (textOf content)
                     (setProp "type" (JStr "assistant") normalized)))
  else if isStr type "tool_start" then
    let normalized := setProp "type" (JStr "tool_start") normalized in
    let normalized :=
      if truthy content && isObjectType content then
        setProp "arguments" (get content "attrs")
          (setProp "tool" (get content "tag") normalized)
      else normalized in
    ret (Continue (setProp "content"
                     (js_or (get message "content") (JSON_stringify pf content)) normalized))
  else if isStr type "tool_result" then
    let normalized := setProp "type" (JStr "tool_result") normalized in
    let normalized :=
      if truthy content && isObjectType content then
        setProp "error" (getOptional (get content "result") "error")
          (setProp "success" (JBool (notFalse (getOptional (get content "result") "ok")))
             (setProp "output" (get content "result")
                (setProp "tool" (get content "tag") normalized)))
      else normalized in
    ret (Continue (setProp "content"
                     (js_or (get message "content") (JSON_stringify pf content)) normalized))
  else if isStr type "tool_error" then
    let normalized := setProp "type" (JStr "tool_error") normalized in
    let normalized :=
      if truthy content && isObjectType content then
        setProp "success" (JBool false)
          (setProp "error" (get content "error")
             (setProp "tool" (get content "tag") normalized))
      else normalized in
    ret (Continue (setProp "content"
                     (js_or (get message "content") (JSON_stringify pf content)) normalized))
  else
    let* detectedType := detectMessageType (js_or content message) in
    if truthy detectedType then ret (Return detectedType)
    else
      ret (Continue (setProp "content" (JSON_stringify pf message)
                       (setProp "type" (JStr "unknown") normalized))).

(** The body of the outer [try]. *)
Definition normalizeBody (message : JSValue) : Comp JSValue :=
  if negb (truthy message) then
    let* id := generateId pf in
    ret (JObj [("id", JStr id); ("type", JStr "unknown"); ("raw", message)])
  else if truthy (get message "type") && inStrings canonicalTypes (get message "type") then
    let* id := orGenerateId (js_or (get message "id") (get message "message_id")) in
    ret (JObj (spreadProps [("id", id)] (ownProps message)))
  else
    let* id := orGenerateId (js_or (get message "id") (get message "message_id")) in
    let normalized := [("id", id); ("type", JStr "unknown"); ("raw", message)] in
    let* parsedContent :=
      if isString (get message "content") then
        tryCatch
          (let* parsed := lift (JSON_parse pf (get message "content")) in
           if isObjectType parsed then ret (Some parsed) else ret None)
          (fun _ => ret None)
      else ret None in
    let content := default (get message "content") parsedContent in
    let normalized := setProp "_content" (default JUndefined parsedContent) normalized in
    let* branch := dispatch message content normalized in
    match branch with
    | Return v => ret v
    | Continue normalized =>
        let normalized :=
          setProp "timestamp"
            (js_or (get message "timestamp") (get message "created_at")) normalized in
        let* metadata :=
          if truthy (get message "metadata") then
            if isString (get message "metadata")
            then lift (JSON_parse pf (get message "metadata"))
            else ret (get message "metadata")
          else ret (JObj []) in
        ret (JObj (setProp "metadata" metadata normalized))
    end.

Definition normalizeMessage (message : JSValue) : Comp JSValue :=
  tryCatch (normalizeBody message)
    (fun error =>
       let* id := generateId pf in
       ret (JObj [("id", JStr id);
                  ("type", JStr "unknown");
                  ("content", JStr ("Error normalizing message: " +:+ exnToString error));
                  ("raw", message)])).

End WithPlatform.

End Normalizer.

(** ** Tool model ([getToolModel]) *)

Module ToolModel.

Import JS.

Record ToolModel := mkToolModel {
  id : JSValue;
  type : JSValue;
  tag : JSValue;
  attrs : JSValue;
  result : JSValue;
  error : JSValue;
  logs : JSValue;
  path : JSValue;
  workspace : JSValue;
  mode : JSValue;
  created_at : JSValue
}.

Section WithPlatform.

Variable pf : Platform.

(** [new Date().toISOString()] at the time of the call. *)
Variable nowISO : string.

Definition parseMaybeJSON (raw : JSValue) : JSValue :=
  if negb (truthy raw) then JUndefined
  else match JSON_parse pf raw with
       | Ok v => v
       | Throw _ => JUndefined
       end.

(** The object [c] the fields are read from. *)
Definition contentOf (msg : JSValue) : JSValue :=
  let contentObj := parseMaybeJSON (get msg "content") in
  if isString (get msg "_content") then JObj [("text", get msg "_content")]
  else js_or (js_or (get msg "_content") contentObj) (JObj []).

Definition getToolModel (msg : JSValue) : Result ToolModel :=
  match getProp msg "content" with
  | Throw e => Throw e
  | Ok _ =>
      let c := contentOf msg in
      Ok {| id := get msg "id";
            type := get msg "type";
            tag := js_or (get c "tag") (get msg "tool");
            attrs := js_or (get c "attrs") (get msg "arguments");
            result := js_or (get c "result") (get msg "output");
            error := js_or (get c "error") (get msg "error");
            logs := js_or (get c "logs") (getOptional (get c "result") "logs");
            path := js_or (get c "path") (getOptional (get c "result") "path");
            workspace := js_or (get c "workspace") (getOptional (get c "result") "workspace");
            mode := js_or (get c "mode") (getOptional (get c "result") "mode");
            created_at := js_or (get msg "timestamp") (JStr nowISO) |}
  end.

End WithPlatform.

(** The fields of the model [tm] are those of the content object [c],
    each completed the way [getToolModel] writes it: from the message
    for [tag], [attrs], [result] and [error], from the [result] of [c]
    for [logs], [path], [workspace] and [mode]. *)
Definition readsFrom (c msg : JSValue) (tm : ToolModel) : Prop :=
  tag tm = js_or (get c "tag") (get msg "tool")
  /\ attrs tm = js_or (get c "attrs") (get msg "arguments")
  /\ result tm = js_or (get c "result") (get msg "output")
  /\ error tm = js_or (get c "error") (get msg "error")
  /\ logs tm = js_or (get c "logs") (getOptional (get c "result") "logs")
  /\ path tm = js_or (get c "path") (getOptional (get c "result") "path")
  /\ workspace tm = js_or (get c "workspace") (getOptional (get c "result") "workspace")
  /\ mode tm = js_or (get c "mode") (getOptional (get c "result") "mode").

(** No content object was found: the fields completed from the message
    are the message's own, the others are [undefined]. *)
Definition readsMessageOnly (msg : JSValue) (tm : ToolModel) : Prop :=
  tag tm = get msg "tool"
  /\ attrs tm = get msg "arguments"
  /\ result tm = get msg "output"
  /\ error tm = get msg "error"
  /\ logs tm = JUndefined
  /\ path tm = JUndefined
  /\ workspace tm = JUndefined
  /\ mode tm = JUndefined.

End ToolModel.

(** ** A reference platform

    A [JSON.parse] and [JSON.stringify] for the value model, to run the
    embedded functions on concrete events.  Two limits of the value
    model show here: a number literal with a fraction or an exponent,
    and a [\u] escape of a code unit above 255, have no value in it, and
    [parse] does not accept them. *)

Module RefJSON.

Import JS JSString.

Definition isJsonWs (c : ascii) : bool :=
  let n := nat_of_ascii c in
  (n =? 9)%nat || (n =? 10)%nat || (n =? 13)%nat || (n =? 32)%nat.

Fixpoint skipWs (s : string) : string :=
  match s with
  | EmptyString => EmptyString
  | String c s' => if isJsonWs c then skipWs s' else s
  end.

Definition isDigit (c : ascii) : bool :=
  let n := nat_of_ascii c in (48 <=? n)%nat && (n <=? 57)%nat.

Definition digitVal (c : ascii) : Z := Z.of_nat (nat_of_ascii c) - 48.

Definition hexVal (c : ascii) : option nat :=
  let n := nat_of_ascii c in
  if (48 <=? n)%nat && (n <=? 57)%nat then Some (n - 48)%nat
  else if (97 <=? n)%nat && (n <=? 102)%nat then Some (n - 87)%nat
  else if (65 <=? n)%nat && (n <=? 70)%nat then Some (n - 55)%nat
  else None.

(** The character a one-letter escape stands for. *)
Definition unescape (e : ascii) : option ascii :=
  let n := nat_of_ascii e in
  if (n =? 34)%nat || (n =? 92)%nat || (n =? 47)%nat then Some e
  else if Ascii.eqb e "b" then Some (ascii_of_nat 8)
  else if Ascii.eqb e "f" then Some (ascii_of_nat 12)
  else if Ascii.eqb e "n" then Some (ascii_of_nat 10)
  else if Ascii.eqb e "r" then Some (ascii_of_nat 13)
  else if Ascii.eqb e "t" then Some (ascii_of_nat 9)
  else None.

Definition consTo (c : ascii) (r : option (string * string)) : option (string * string) :=
  match r with
  | Some (s, rest) => Some (String c s, rest)
  | None => None
  end.

(** The characters of a string literal after its opening quote, and
    what follows the closing quote. *)
Fixpoint parseChars (s : string) : option (string * string) :=
  match s with
  | EmptyString => None
  | String c s' =>
      if (nat_of_ascii c =? 34)%nat then Some (EmptyString, s')
      else if (nat_of_ascii c =? 92)%nat then
        match s' with
        | EmptyString => None
        | String e s'' =>
            if Ascii.eqb e "u" then
              match s'' with
              | String h1 (String h2 (String h3 (String h4 rest))) =>
                  match hexVal h1, hexVal h2, hexVal h3, hexVal h4 with
                  | Some a, Some b, Some c, Some d =>
                      let n := (((a * 16 + b) * 16 + c) * 16 + d)%nat in
                      if (n <? 256)%nat then consTo (ascii_of_nat n) (parseChars rest)
                      else None
                  | _, _, _, _ => None
                  end
              | _ => None
              end
            else
              match unescape e with
              | Some ch => consTo ch (parseChars s'')
              | None => None
              end
        end
      else if (nat_of_ascii c <? 32)%nat then None
      else consTo c (parseChars s')
  end.

Fixpoint takeDigits (s : string) (acc : Z) : Z * string :=
  match s with
  | String c s' => if isDigit c then takeDigits s' (acc * 10 + digitVal c) else (acc, s)
  | EmptyString => (acc, s)
  end.

(** An integer literal; a fraction or exponent after it is refused. *)
Definition parseNumber (s : string) : option (JSValue * string) :=
  let '(sign, s1) := match s with
                     | String c r => if Ascii.eqb c "-" then (-1, r) else (1, s)
                     | EmptyString => (1, s)
                     end in
  let finish (r : Z * string) :=
    match snd r with
    | String c _ =>
        if Ascii.eqb c "." || Ascii.eqb c "e" || Ascii.eqb c "E" then None
        else Some (JNum (sign * fst r), snd r)
    | EmptyString => Some (JNum (sign * fst r), snd r)
    end in
  match s1 with
  | String c r =>
      if Ascii.eqb c "0" then finish (0, r)
      else if isDigit c then finish (takeDigits r (digitVal c))
      else None
  | EmptyString => None
  end.

Definition expectWord (word : string) (v : JSValue) (s : string) : option (JSValue * string) :=
  if startsWith s word then Some (v, drop (String.length word) s) else None.

Fixpoint parseValue (fuel : nat) (s : string) {struct fuel} : option (JSValue * string) :=
  match fuel with
  | O => None
  | S fuel' =>
      match skipWs s with
      | EmptyString => None
      | String c r as s0 =>
          if Ascii.eqb c "n" then expectWord "null" JNull s0
          else if Ascii.eqb c "t" then expectWord "true" (JBool true) s0
          else if Ascii.eqb c "f" then expectWord "false" (JBool false) s0
          else if (nat_of_ascii c =? 34)%nat then
            match parseChars r with
            | Some (str, rest) => Some (JStr str, rest)
            | None => None
            end
          else if Ascii.eqb c "[" then
            match skipWs r with
            | String c' r' as r0 =>
                if Ascii.eqb c' "]" then Some (JArr [], r')
                else parseElements fuel' [] r0
            | EmptyString => None
            end
          else if Ascii.eqb c "{" then
            match skipWs r with
            | String c' r' as r0 =>
                if Ascii.eqb c' "}" then Some (JObj [], r')
                else parseMembers fuel' [] r0
            | EmptyString => None
            end
          else parseNumber s0
      end
  end
with parseElements (fuel : nat) (acc : list JSValue) (s : string) {struct fuel}
  : option (JSValue * string) :=
  match fuel with
  | O => None
  | S fuel' =>
      match parseValue fuel' s with
      | Some (v, rest) =>
          match skipWs rest with
          | String c r =>
              if Ascii.eqb c "," then parseElements fuel' (acc ++ [v]) r
              else if Ascii.eqb c "]" then Some (JArr (acc ++ [v]), r)
              else None
          | EmptyString => None
          end
      | None => None
      end
  end
with parseMembers (fuel : nat) (acc : list (string * JSValue)) (s : string) {struct fuel}
  : option (JSValue * string) :=
  match fuel with
  | O => None
  | S fuel' =>
      match skipWs s with
      | String q r =>
          if (nat_of_ascii q =? 34)%nat then
            match parseChars r with
            | Some (key, rest) =>
                match skipWs rest with
                | String colon rest' =>
                    if Ascii.eqb colon ":" then
                      match parseValue fuel' rest' with
                      | Some (v, rest'') =>
                          match skipWs rest'' with
                          | String c r' =>
                              if Ascii.eqb c "," then parseMembers fuel' (setProp key v acc) r'
                              else if Ascii.eqb c "}" then Some (JObj (setProp key v acc), r')
                              else None
                          | EmptyString => None
                          end
                      | None => None
                      end
                    else None
                | EmptyString => None
                end
            | None => None
            end
          else None
      | EmptyString => None
      end
  end.

Definition parse (text : string) : Result JSValue :=
  match parseValue (2 * String.length text + 2) text with
  | Some (v, rest) =>
      match skipWs rest with
      | EmptyString => Ok v
      | _ => Throw (SyntaxError "Unexpected non-whitespace character after JSON")
      end
  | None => Throw (SyntaxError "Unexpected token in JSON")
  end.

Definition hexDigit (n : nat) : ascii :=
  if (n <? 10)%nat then ascii_of_nat (48 + n) else ascii_of_nat (87 + n).

Fixpoint escapeChars (s : string) : string :=
  match s with
  | EmptyString => EmptyString
  | String c s' =>
      let n := nat_of_ascii c in
      (if (n =? 34)%nat then String (ascii_of_nat 92) dq
       else if (n =? 92)%nat then String (ascii_of_nat 92) (String (ascii_of_nat 92) "")
       else if (n =? 8)%nat then String (ascii_of_nat 92) "b"
       else if (n =? 9)%nat then String (ascii_of_nat 92) "t"
       else if (n =? 10)%nat then String (ascii_of_nat 92) "n"
       else if (n =? 12)%nat then String (ascii_of_nat 92) "f"
       else if (n =? 13)%nat then String (ascii_of_nat 92) "r"
       else if (n <? 32)%nat then
         String (ascii_of_nat 92)
           ("u00" +:+ String (hexDigit (n / 16)) (String (hexDigit (n mod 16)) ""))
       else String c "")
      +:+ escapeChars s'
  end.

Definition quote (s : string) : string := dq +:+ escapeChars s +:+ dq.

Fixpoint joinComma (l : list string) : string :=
  match l with
  | [] => ""
  | [x] => x
  | x :: rest => x +:+ "," +:+ joinComma rest
  end.

(** The text of a value, or [None] where [JSON.stringify] gives
    [undefined]. *)
Fixpoint stringifyText (v : JSValue) : option string :=
  match v with
  | JUndefined => None
  | JNull => Some "null"
  | JBool true => Some "true"
  | JBool false => Some "false"
  | JNum z => Some (pretty z)
  | JStr s => Some (quote s)
  | JArr items =>
      Some ("[" +:+ joinComma
              ((fix each (l : list JSValue) : list string :=
                  match l with
                  | [] => []
                  | x :: rest => default "null" (stringifyText x) :: each rest
                  end) items) +:+ "]")
  | JObj props =>
      Some ("{" +:+ joinComma
              ((fix each (l : list (string * JSValue)) : list string :=
                  match l with
                  | [] => []
                  | (k, x) :: rest =>
                      match stringifyText x with
                      | Some t => (quote k +:+ ":" +:+ t) :: each rest
                      | None => each rest
                      end
                  end) props) +:+ "}")
  end.

Definition stringify (v : JSValue) : JSValue :=
  match stringifyText v with
  | Some t => JStr t
  | None => JUndefined
  end.

(** The reference platform; its [n]-th identifier is a fixed time stamp
    and the number [n]. *)
Definition platform : Platform :=
  {| parseText := parse;
     JSON_stringify := stringify;
     freshId := fun n => "1700000000000_" +:+ pretty n |}.

End RefJSON.

(** ** Liveness checks of the stream transport

    [getAgentStatus], and the two places of [streamAgent] that call it:
    [eventSource.onerror] and the watchdog interval.  The continuations
    of the status check are followed for callbacks that return. *)

Module Liveness.

Import JSString Transport.

(** The answer to the status request: the HTTP status and its text, and
    what [response.json()] settles to. *)
Record StatusResponse := mkStatusResponse {
  status : nat;
  statusText : string;
  body : JS.Result JSValue
}.

(** [response.ok]. *)
Definition ok (r : StatusResponse) : bool :=
  (200 <=? status r)%nat && (status r <=? 299)%nat.

(** What [fetch] settles to. *)
Inductive StatusFetch :=
| StatusNetworkError (message : string)
| StatusAnswer (r : StatusResponse).

(** How [getAgentStatus] ends: with the run data, or rejected with an
    error of the given message. *)
Inductive StatusOutcome :=
| StatusData (data : JSValue)
| StatusError (message : string).

(** A status request sent. *)
Inductive Request :=
| GetStatus (agentRunId : string) (token : string).

Definition exnMessage (e : JS.Exn) : string :=
  match e with
  | JS.SyntaxError m => m
  | JS.TypeError m => m
  end.

Definition notRunningMessage (agentRunId : string) : string :=
  "Agent run " +:+ agentRunId +:+ " is not running".

Definition httpErrorMessage (r : StatusResponse) : string :=
  "Error getting agent status: " +:+ statusText r +:+ " (" +:+ pretty (status r) +:+ ")".

(** [getAgentStatus(agentRunId)] with the session and the answer it
    meets: the world after it, the requests it sent, and how it ends. *)
Definition getAgentStatus (agentRunId : string) (session : option Session)
    (answer : StatusFetch) (w : World) : World * list Request * StatusOutcome :=
  if bool_decide (agentRunId ∈ nonRunningAgentRuns w) then
    (w, [], StatusError (notRunningMessage agentRunId))
  else
    match accessToken session with
    | None => (w, [], StatusError "No access token available")
    | Some token =>
        match answer with
        | StatusNetworkError m => (w, [GetStatus agentRunId token], StatusError m)
        | StatusAnswer r =>
            if ok r then
              match body r with
              | JS.Throw e => (w, [GetStatus agentRunId token], StatusError (exnMessage e))
              | JS.Ok data =>
                  match JS.getProp data "status" with
                  | JS.Throw e =>
                      (w, [GetStatus agentRunId token], StatusError (exnMessage e))
                  | JS.Ok s =>
                      (if JS.isStr s "running" then w else addNonRunning agentRunId w,
                       [GetStatus agentRunId token], StatusData data)
                  end
              end
            else
              (if (status r =? 404)%nat then addNonRunning agentRunId w else w,
               [GetStatus agentRunId token], StatusError (httpErrorMessage r))
        end
    end.

(** The block the liveness paths share: mark the run terminal, close
    this call's [EventSource], unregister the run, call [onClose]. *)
Definition terminate (cb h : nat) (agentRunId : string) (w : World) : World :=
  finish cb h agentRunId (addNonRunning agentRunId w).

Definition isNotFoundErr (errMsg : string) : bool :=
  includes errMsg "not found" || includes errMsg "404"
  || includes errMsg "does not exist".

(** The [then] and [catch] handlers of [eventSource.onerror]. *)
Definition settleError (cb h : nat) (agentRunId : string) (o : StatusOutcome)
    (w : World) : World :=
  match o with
  | StatusData data =>
      if JS.isStr (JS.get data "status") "running" then w
      else terminate cb h agentRunId w
  | StatusError errMsg =>
      let w := if isNotFoundErr errMsg then terminate cb h agentRunId w else w in
      emit (OnError cb errMsg) w
  end.

(** An [error] event on the [EventSource] [h]: the listener added after
    the watchdog clears the watchdog interval of the call, and
    [onerror] asks for the status and settles on the answer. *)
Definition onerror (cb h : nat) (agentRunId : string) (session : option Session)
    (answer : StatusFetch) (w : World) : World * list Request :=
  let w := setWatchdogs (watchdogs w ∖ {[cb]}) w in
  let '(w, requests, o) := getAgentStatus agentRunId session answer w in
  (settleError cb h agentRunId o w, requests).

(** One firing of the watchdog interval at time [now]. *)
Definition watchdogTick (cb h : nat) (agentRunId : string) (now : Z)
    (session : option Session) (answer : StatusFetch) (w : World)
  : World * list Request :=
  let last := default 0 (lastStreamMessage w) in
  if 15000 <? now - last then
    let '(w, requests, o) := getAgentStatus agentRunId session answer w in
    let w :=
      match o with
      | StatusData data =>
          if JS.isStr (JS.get data "status") "running" then w
          else terminate cb h agentRunId w
      | StatusError _ => w
      end in
    (touch now w, requests)
  else (w, []).

(** The [EventSource] [h] was made for the run [agentRunId]. *)
Definition sourceOf (h : nat) (agentRunId : string) (w : World) : Prop :=
  exists token now, In (NewEventSource h agentRunId token now) (trace w).

(** One step of the module: a call from outside, a continuation, or an
    event of an [EventSource] made for the run and not yet closed. *)
Inductive Step : World -> World -> Prop :=
| step_streamAgent agentRunId w :
    Step w (streamAgent agentRunId w)
| step_setupStream cb agentRunId session now w :
    Step w (setupStream cb agentRunId session now w)
| step_cleanup cb agentRunId w :
    Step w (cleanup cb agentRunId w)
| step_stopAgent agentRunId session response w :
    Step w (fst (stopAgent agentRunId session response w))
| step_getAgentStatus agentRunId session answer w :
    Step w (fst (fst (getAgentStatus agentRunId session answer w)))
| step_onopen now w :
    Step w (onopen now w)
| step_onmessage caller cb h agentRunId now rawData w :
    sourceOf h agentRunId w -> h ∉ closed w ->
    Step w (onmessage caller cb h agentRunId now rawData w)
| step_onerror cb h agentRunId session answer w :
    sourceOf h agentRunId w -> h ∉ closed w ->
    Step w (fst (onerror cb h agentRunId session answer w))
| step_watchdogTick cb h agentRunId now session answer w :
    sourceOf h agentRunId w ->
    Step w (fst (watchdogTick cb h agentRunId now session answer w)).

(** The worlds the module can be in. *)
Definition reachable (w : World) : Prop := rtc Step emptyWorld w.

(** Every registered stream is an open [EventSource] made for the run
    it is registered under; handles are given out once. *)
Definition registryOk (w : World) : Prop :=
  (forall r h, activeStreams w !! r = Some h -> sourceOf h r w /\ h ∉ closed w)
  /\ (forall h r token now,
        In (NewEventSource h r token now) (trace w) -> (h < created w)%nat)
  /\ (forall h r r', sourceOf h r w -> sourceOf h r' w -> r = r')
  /\ (forall h, h ∈ closed w -> (h < created w)%nat).

(** Two worlds with the same registry, the same [EventSource] objects
    made and the same ones closed. *)
Definition sameRegistry (w w' : World) : Prop :=
  activeStreams w' = activeStreams w
  /\ created w' = created w
  /\ closed w' = closed w
  /\ (forall h r token now,
        In (NewEventSource h r token now) (trace w')
        <-> In (NewEventSource h r token now) (trace w)).

(** The [onClose] calls of one caller among some effects. *)
Definition closeCalls (cb : nat) (t : list Effect) : list Effect :=
  List.filter (fun e => match e with
                        | OnClose c => (c =? cb)%nat
                        | _ => false
                        end) t.

End Liveness.

(** ** Rendering helpers over normalized messages

    [isToolMessage], [isStatusMessage] and [normalizeMessages] of the
    normalizer, and [groupRelatedMessages] and [shouldRenderMessage] of
    the message renderer. *)

Module Rendering.

Import JS Normalizer.

(** [message.type === s]. *)
Definition typeIs (message : JSValue) (s : string) : bool :=
  isStr (get message "type") s.

Definition isToolMessage (message : JSValue) : bool :=
  typeIs message "tool_call" || typeIs message "tool_result"
  || typeIs message "tool_start" || typeIs message "tool_error".

Definition isStatusMessage (message : JSValue) : bool :=
  typeIs message "status".

(** [items.map(f)] for a callback that draws identifiers and may
    throw. *)
Fixpoint mapComp {A B : Type} (f : A -> Comp B) (items : list A) : Comp (list B) :=
  match items with
  | [] => ret []
  | x :: rest =>
      bind (f x) (fun y => bind (mapComp f rest) (fun ys => ret (y :: ys)))
  end.

(** [normalizeMessages(messages)]; [Array.isArray] holds of arrays
    only. *)
Definition normalizeMessages (pf : Platform) (messages : JSValue) : Comp (list JSValue) :=
  match messages with
  | JArr items => mapComp (normalizeMessage pf) items
  | _ => ret []
  end.

(** The body of the loop of [groupRelatedMessages], on the pair of
    [groups] and [currentGroup]. *)
Definition groupStep (acc : list (list JSValue) * list JSValue) (message : JSValue)
  : list (list JSValue) * list JSValue :=
  let '(groups, currentGroup) := acc in
  if typeIs message "user" || typeIs message "assistant" then
    if (0 <? length currentGroup)%nat then ((groups ++ [currentGroup])%list, [message])
    else (groups, (currentGroup ++ [message])%list)
  else if typeIs message "tool_call" || typeIs message "tool_result"
          || typeIs message "status" then
    (groups, (currentGroup ++ [message])%list)
  else (groups, (currentGroup ++ [message])%list).

Definition groupRelatedMessages (messages : list JSValue) : list (list JSValue) :=
  let '(groups, currentGroup) := fold_left groupStep messages ([], []) in
  if (0 <? length currentGroup)%nat then (groups ++ [currentGroup])%list else groups.

(** The messages that open a group: [message.type === 'user' ||
    message.type === 'assistant']. *)
Definition turn (message : JSValue) : bool :=
  typeIs message "user" || typeIs message "assistant".

(** A group in which no message after the first opens a turn. *)
Definition headed (group : list JSValue) : Prop :=
  Forall (fun m => turn m = false) (tail group).

Definition internalStatuses : list string :=
  ["thread_run_start"; "thread_run_end"; "routing_decision"].

(** The verdict of [shouldRenderMessage] on a normalized message;
    [development] is [process.env.NODE_ENV === 'development']. *)
Definition shouldRender (development : bool) (normalized : JSValue) : bool :=
  if typeIs normalized "user" || typeIs normalized "assistant" then true
  else if isToolMessage normalized then true
  else if isStatusMessage normalized then
    negb (inStrings internalStatuses (js_or (get normalized "status_type") (JStr "")))
  else development.

Definition shouldRenderMessage (pf : Platform) (development : bool) (message : JSValue)
  : Comp bool :=
  bind (normalizeMessage pf message) (fun normalized => ret (shouldRender development normalized)).

End Rendering.

(** ** What a computation can return *)

Module CompLogic.

Import JS.

(** Every value the computation returns, from any count of identifiers
    drawn so far, satisfies [P]. *)
Definition returns {A : Type} (P : A -> Prop) (c : Comp A) : Prop :=
  forall n a n', c n = (Ok a, n') -> P a.

(** The eight kinds of a normalized message. *)
Definition kinds : list string :=
  ["user"; "assistant"; "tool_call"; "tool_result"; "tool_start"; "tool_error";
   "status"; "unknown"].

Definition hasKind (v : JSValue) : Prop := inStrings kinds (get v "type") = true.

(** What the helpers that return a message or [null] return. *)
Definition toolOrNull (v : JSValue) : Prop :=
  v = JNull
  \/ (truthy v = true
      /\ (get v "type" = JStr "tool_call" \/ get v "type" = JStr "tool_result")).

(** The event comes from a tool: [message.type === 'tool' ||
    message.role === 'tool']. *)
Definition toolOrigin (message : JSValue) : bool :=
  isStr (get message "type") "tool" || isStr (get message "role") "tool".

(** The text holds the result wrapper and the expression of
    [parseToolMessage] finds a match in it. *)
Definition wrapped (s : string) : bool :=
  JSString.includes s "<tool_result>"
  && match Normalizer.toolResultMatches s with
     | [] => false
     | _ => true
     end.

(** The metadata of the event does not make the last lines of
    [normalizeMessage] throw: it is falsy, or not a string, or a string
    that [JSON.parse] accepts. *)
Definition metadataParses (pf : Platform) (message : JSValue) : Prop :=
  truthy (get message "metadata") = false
  \/ isString (get message "metadata") = false
  \/ exists md, JSON_parse pf (get message "metadata") = Ok md.

(** Nor does it make [extractToolName] throw: what [JSON.parse] makes
    of it is not [null]. *)
Definition metadataReads (pf : Platform) (message : JSValue) : Prop :=
  truthy (get message "metadata") = false
  \/ isString (get message "metadata") = false
  \/ exists md, JSON_parse pf (get message "metadata") = Ok md
                /\ md <> JNull /\ md <> JUndefined.

End CompLogic.

(** * Properties *)

(** ** The embedding on concrete inputs *)

Example indexOf_present : Store.indexOf ["a"; "b"; "c"] "c" = 2.
Proof. reflexivity. Qed.

Example indexOf_missing : Store.indexOf ["a"; "b"; "c"] "d" = -1.
Proof. reflexivity. Qed.

Example trim_both_ends : JSString.trim "  a b  " = "a b".
Proof. reflexivity. Qed.

(** The text of the specification's attachment example: a summary, a
    blank line and one marker. *)
Example parseAttachments_summary :
  Replay.parseAttachments
    ("Summary text" +:+ String JSString.LF (String JSString.LF "")
     +:+ "[Uploaded File: reports/out.pdf]")
  = Replay.mkAttachments "Summary text" ["reports/out.pdf"].
Proof. reflexivity. Qed.

(** A marker with an empty path is removed from the text and gives no
    attachment; a marker broken by a line end is not a marker. *)
Example parseAttachments_edges :
  Replay.parseAttachments
    ("a[Uploaded File: ]b[Uploaded File: x" +:+ String JSString.LF "" +:+ "y]")
  = Replay.mkAttachments ("ab[Uploaded File: x" +:+ String JSString.LF "" +:+ "y]") [].
Proof. reflexivity. Qed.

(** With the [g] flag the match array holds whole matches. *)
Example toolResultMatches_whole :
  Normalizer.toolResultMatches "a<tool_result>x</tool_result>b<tool_result id=1>y</tool_result>"
  = ["<tool_result>x</tool_result>"; "<tool_result id=1>y</tool_result>"].
Proof. reflexivity. Qed.

Example xmlMatch_first_tag : Normalizer.xmlMatch "a < <file-write path>" = Some "file-write".
Proof. reflexivity. Qed.

Example parse_object :
  RefJSON.parse ("{" +:+ JSString.quoted "tag" +:+ ": " +:+ JSString.quoted "file-write"
                 +:+ ", " +:+ JSString.quoted "n" +:+ ":[1,-2,null,true]}")
  = JS.Ok (JObj [("tag", JStr "file-write");
                 ("n", JArr [JNum 1; JNum (-2); JNull; JBool true])]).
Proof. reflexivity. Qed.

Example parse_plain_text_fails :
  RefJSON.parse "hello" = JS.Throw (JS.SyntaxError "Unexpected token in JSON").
Proof. reflexivity. Qed.

(** [null] normalizes to an unknown message with a fresh id. *)
Example normalize_null :
  Normalizer.normalizeMessage RefJSON.platform JNull 0%nat
  = (JS.Ok (JObj [("id", JStr "msg_1700000000000_0"); ("type", JStr "unknown");
                  ("raw", JNull)]), 1%nat).
Proof. reflexivity. Qed.

(** A tool-origin event whose content is wrapped in a result tag: the
    second entry of the match array is [undefined], parsing it fails,
    and the output is [undefined]. *)
Example normalize_wrapped_tool_result :
  Normalizer.normalizeMessage RefJSON.platform
    (JObj [("role", JStr "tool"); ("content", JStr "<tool_result>x</tool_result>")]) 0%nat
  = (JS.Ok (JObj [("id", JStr "msg_1700000000000_1"); ("type", JStr "tool_result");
                  ("tool", JStr "tool"); ("output", JUndefined);
                  ("success", JBool true); ("timestamp", JUndefined)]), 2%nat).
Proof. vm_compute. reflexivity. Qed.

(** A tool start with structured content projects to its tag and
    attributes. *)
Example getToolModel_file_write :
  ToolModel.getToolModel RefJSON.platform "2025-01-01T00:00:00.000Z"
    (JObj [("id", JStr "m1"); ("type", JStr "tool_start");
           ("content", JStr ("{" +:+ JSString.quoted "tag" +:+ ":"
                             +:+ JSString.quoted "file-write" +:+ ","
                             +:+ JSString.quoted "attrs" +:+ ":{"
                             +:+ JSString.quoted "path" +:+ ":"
                             +:+ JSString.quoted "out.txt" +:+ "}}"))])
  = JS.Ok (ToolModel.mkToolModel (JStr "m1") (JStr "tool_start") (JStr "file-write")
             (JObj [("path", JStr "out.txt")]) JUndefined JUndefined JUndefined
             JUndefined JUndefined JUndefined (JStr "2025-01-01T00:00:00.000Z")).
Proof. vm_compute. reflexivity. Qed.

(** ** Message store *)

Section StoreFacts.

Import Store.

Lemma indexOf_found (l : list string) (x : string) : 0 <= indexOf l x <-> x ∈ l.
Proof.
  induction l as [|y l IH]; simpl.
  - split; [lia | intros H; inversion H].
  - destruct (String.eqb_spec y x) as [->|Hne].
    + split; [intros _; left | lia].
    + destruct (indexOf l x <? 0) eqn:E.
      * apply Z.ltb_lt in E. split; [lia|].
        intros H. apply elem_of_cons in H as [H|H]; [congruence|].
        apply IH in H. lia.
      * apply Z.ltb_ge in E. split; [|lia].
        intros _. right. by apply IH.
Qed.

Lemma updateMessage_known (m : AgentMessage) (st : AgentRunState) :
  message_id m ∈ order st ->
  updateMessage m st =
    {| byId := <[message_id m := spread (byId st !! message_id m) m]> (byId st);
       order := order st; isStreaming := isStreaming st; error := error st |}.
Proof.
  intros Hin. unfold updateMessage.
  apply indexOf_found in Hin. apply Z.leb_le in Hin. by rewrite Hin.
Qed.

Lemma updateMessage_new (m : AgentMessage) (st : AgentRunState) :
  message_id m ∉ order st ->
  updateMessage m st =
    {| byId := <[message_id m := m]> (byId st);
       order := order st ++ [message_id m];
       isStreaming := isStreaming st; error := error st |}.
Proof.
  intros Hnin. unfold updateMessage.
  destruct (0 <=? indexOf (order st) (message_id m)) eqn:E; [|done].
  apply Z.leb_le, indexOf_found in E. contradiction.
Qed.

Lemma updateMessage_registers (m : AgentMessage) (st : AgentRunState) :
  message_id m ∈ order (updateMessage m st).
Proof.
  destruct (decide (message_id m ∈ order st)) as [Hin|Hnin].
  - by rewrite updateMessage_known.
  - rewrite updateMessage_new by done. simpl. apply elem_of_app. right. left.
Qed.

Lemma spread_fields (old : option AgentMessage) (m : AgentMessage) :
  fields (spread old m) = fields m ∪ default ∅ (fields <$> old).
Proof.
  destruct old as [o|]; simpl; [done|]. by rewrite (right_id_L ∅ (∪)).
Qed.

Lemma updateMessage_stored (m : AgentMessage) (st : AgentRunState) :
  exists stored,
    byId (updateMessage m st) !! message_id m = Some stored
    /\ message_id stored = message_id m
    /\ fields m ⊆ fields stored
    /\ (message_id m ∉ order st -> stored = m).
Proof.
  destruct (decide (message_id m ∈ order st)) as [Hin|Hnin].
  - rewrite updateMessage_known by done. simpl.
    exists (spread (byId st !! message_id m) m). split; [apply lookup_insert_eq|].
    split; [by destruct (byId st !! message_id m)|].
    split; [|done].
    rewrite spread_fields. apply map_union_subseteq_l.
  - rewrite updateMessage_new by done. simpl.
    exists m. split; [apply lookup_insert_eq|]. done.
Qed.

Lemma consistent_initial : consistent initialState.
Proof. split; simpl; [constructor | by rewrite dom_empty_L]. Qed.

Lemma consistent_updateMessage (m : AgentMessage) (st : AgentRunState) :
  consistent st -> consistent (updateMessage m st).
Proof.
  intros [Hnd Hdom].
  destruct (decide (message_id m ∈ order st)) as [Hin|Hnin].
  - rewrite updateMessage_known by done. split; simpl; [done|].
    rewrite dom_insert_L, Hdom. set_solver.
  - rewrite updateMessage_new by done. split; simpl.
    + apply NoDup_app. split; [done|]. split; [|apply NoDup_singleton].
      intros x Hx Hx'. apply list_elem_of_singleton in Hx'. by subst.
    + rewrite dom_insert_L, Hdom, list_to_set_app_L. set_solver.
Qed.

Lemma consistent_applyOp (st : AgentRunState) (op : StoreOp) :
  consistent st -> consistent (applyOp st op).
Proof.
  destruct op; simpl; [apply consistent_updateMessage|].
  intros _. apply consistent_initial.
Qed.

Lemma consistent_fold (ops : list StoreOp) (st : AgentRunState) :
  consistent st -> consistent (fold_left applyOp ops st).
Proof.
  revert st. induction ops as [|op ops IH]; intros st Hst; simpl; [done|].
  apply IH. by apply consistent_applyOp.
Qed.

Lemma consistent_size (st : AgentRunState) :
  consistent st -> length (order st) = size (byId st).
Proof.
  intros [Hnd Hdom].
  rewrite <- size_dom, Hdom. symmetry. by apply size_list_to_set.
Qed.

End StoreFacts.

Section StoreClaims.

Import Store.

(** C5.  Two messages with the same id upserted in sequence into the
    message store ([updateMessage]): the position of the id in the
    arrival order does not change with the second upsert (nor with the
    first, if the id was known); a new id is appended at the end of the
    order; the stored message has the later message's value for every
    key the later message has and keeps every other key, so that with
    disjoint field sets it contains the union of both. *)
Theorem updateMessage_upsert_twice (st : AgentRunState) (m1 m2 : AgentMessage) :
  message_id m1 = message_id m2 ->
  let st1 := updateMessage m1 st in
  let st2 := updateMessage m2 st1 in
  order st2 = order st1
  /\ (message_id m1 ∈ order st -> order st1 = order st)
  /\ (message_id m1 ∉ order st -> order st1 = (order st ++ [message_id m1])%list)
  /\ exists stored1 stored2,
       byId st1 !! message_id m1 = Some stored1
       /\ byId st2 !! message_id m1 = Some stored2
       /\ fields stored2 = fields m2 ∪ fields stored1
       /\ fields m1 ⊆ fields stored1
       /\ (forall k v, fields m2 !! k = Some v -> fields stored2 !! k = Some v)
       /\ (forall k, fields m2 !! k = None -> fields stored2 !! k = fields stored1 !! k)
       /\ (fields m1 ##ₘ fields m2 -> fields m1 ∪ fields m2 ⊆ fields stored2)
       /\ (message_id m1 ∉ order st -> fields stored2 = fields m2 ∪ fields m1).
Proof.
  intros Hid st1 st2.
  assert (Hreg : message_id m2 ∈ order st1).
  { rewrite <- Hid. apply updateMessage_registers. }
  split.
  { subst st2. by rewrite updateMessage_known. }
  split.
  { intros Hin. subst st1. by rewrite updateMessage_known. }
  split.
  { intros Hnin. subst st1. by rewrite updateMessage_new. }
  destruct (updateMessage_stored m1 st) as (stored1 & Hs1 & _ & Hsub & Hnew).
  fold st1 in Hs1.
  exists stored1, (spread (Some stored1) m2).
  assert (Hs2 : byId st2 !! message_id m1 = Some (spread (Some stored1) m2)).
  { pose proof Hs1 as Hs1'. rewrite Hid in Hs1'.
    subst st2. rewrite updateMessage_known by done. simpl.
    rewrite Hid, Hs1'. apply lookup_insert_eq. }
  split; [done|]. split; [done|]. simpl.
  split; [done|]. split; [done|].
  split.
  { intros k v Hk. by apply lookup_union_Some_l. }
  split.
  { intros k Hk. by apply lookup_union_r. }
  split.
  { intros Hdisj. apply map_union_least.
    - apply map_subseteq_spec. intros k v Hk.
      rewrite lookup_union_r.
      + by eapply lookup_weaken.
      + by eapply map_disjoint_Some_l.
    - apply map_union_subseteq_l. }
  intros Hnin. by rewrite (Hnew Hnin).
Qed.

(** C9.  From the empty store, after any sequence of [updateMessage]
    and [clear] calls, the length of the insertion-order list equals
    the number of entries of the id-to-message map. *)
Theorem store_order_length_is_size (ops : list StoreOp) :
  length (order (runOps ops)) = size (byId (runOps ops)).
Proof.
  apply consistent_size. unfold runOps.
  apply consistent_fold, consistent_initial.
Qed.

End StoreClaims.

(** A concrete run of C5: a text arrives for message [m-1], then its
    metadata. *)
Lemma updateMessage_upsert_twice_witness :
  let m1 := Store.mkMessage "m-1" {[ "content" := JStr "partial" ]} in
  let m2 := Store.mkMessage "m-1" {[ "metadata" := JStr "{}" ]} in
  Store.message_id m1 = Store.message_id m2
  /\ Store.order (Store.updateMessage m2 (Store.updateMessage m1 Store.initialState))
     = Store.order (Store.updateMessage m1 Store.initialState).
Proof.
  intros m1 m2.
  exact (conj eq_refl
           (proj1 (updateMessage_upsert_twice Store.initialState m1 m2 eq_refl))).
Defined.

(** ** Replay: seek *)

Section ReplayClaims.

Import Replay.

(** C8.  On a non-empty history, [skipToMessage] sets the index to the
    argument clamped into [0, length - 1], stops playback (the playing
    flag is off and the reveal interval is cleared) and clears the
    partial reveal; on ten messages, seeking to [-5] gives index [0] and
    seeking to [999] gives index [9]. *)
Theorem skipToMessage_clamps (t : SharedThread) (index : Z) (st : ReplayState) :
  messages t <> [] ->
  let last := Z.of_nat (length (messages t)) - 1 in
  let st' := skipToMessage (Some t) index st in
  0 <= currentMessageIndex st' <= last
  /\ currentMessageIndex st' =
       (if index <? 0 then 0 else if last <? index then last else index)
  /\ isPlaying st' = false
  /\ streamingText st' = ""
  /\ isStreamingComplete st' = false
  /\ (forall timer, streamingIntervalRef st = Some timer -> timer ∉ liveIntervals st')
  /\ (length (messages t) = 10%nat ->
      currentMessageIndex (skipToMessage (Some t) (-5) st) = 0
      /\ currentMessageIndex (skipToMessage (Some t) 999 st) = 9).
Proof.
  intros Hne last st'.
  assert (Hlen : 0 <= last).
  { subst last. destruct (messages t); [done|]. simpl length. lia. }
  subst st'. simpl. fold last.
  split; [lia|].
  split.
  { destruct (index <? 0) eqn:E1; [apply Z.ltb_lt in E1; lia|].
    apply Z.ltb_ge in E1.
    destruct (last <? index) eqn:E2; [apply Z.ltb_lt in E2|apply Z.ltb_ge in E2]; lia. }
  split; [done|]. split; [done|]. split; [done|].
  split.
  { intros timer ->. simpl. set_solver. }
  intros H10. subst last. rewrite H10. simpl. lia.
Qed.

End ReplayClaims.

(** A concrete run of C8: seeking past the end of a three-message
    history. *)
Lemma skipToMessage_clamps_witness :
  let m := Replay.mkShared "1" "user" "hi" "t0" in
  let t := Replay.mkThread [m; m; m] in
  let st := Replay.mkReplay true 1 "h" false (Some 4%nat) {[ 4%nat ]} in
  Replay.messages t <> []
  /\ 0 <= Replay.currentMessageIndex (Replay.skipToMessage (Some t) 7 st) <= 2.
Proof.
  intros m t st.
  assert (Hne : Replay.messages t <> []) by (intros H; discriminate H).
  exact (conj Hne (proj1 (skipToMessage_clamps t 7 st Hne))).
Defined.

(** ** Stream transport *)

Section TransportFacts.

Import Transport.

Lemma trim_cons_nonblank (c : ascii) (s : string) :
  JSString.isWhiteSpace c = false -> JSString.trim (String c s) <> "".
Proof.
  intros Hc. unfold JSString.trim. simpl. rewrite Hc. simpl. rewrite Hc. simpl. discriminate.
Qed.

Lemma prefix_cons_head (c a : ascii) (sub s : string) :
  String.prefix (String c sub) (String a s) = true -> a = c.
Proof.
  simpl. destruct (ascii_dec c a) as [->|]; [done | discriminate].
Qed.

(** A text holding a marker that starts with a non-blank character is
    not blank. *)
Lemma includes_not_blank (c : ascii) (sub s : string) :
  JSString.isWhiteSpace c = false -> JSString.includes s (String c sub) = true -> JSString.trim s <> "".
Proof.
  intros Hc. induction s as [|a s IH]; [discriminate|].
  intros Hinc. cbn [JSString.includes] in Hinc.
  destruct (String.prefix (String c sub) (String a s)) eqn:Hp.
  - apply prefix_cons_head in Hp as ->. by apply trim_cons_nonblank.
  - destruct (JSString.isWhiteSpace a) eqn:Ha.
    + unfold JSString.trim. simpl. rewrite Ha. by apply IH.
    + by apply trim_cons_nonblank.
Qed.

Lemma completion_not_blank (rawData : string) :
  isCompletion rawData = true ->
  String.eqb rawData "" || String.eqb (JSString.trim rawData) "" = false.
Proof.
  unfold isCompletion. intros H. apply andb_true_iff in H as [H _].
  assert (Ht : JSString.trim rawData <> "").
  { eapply (includes_not_blank (ascii_of_nat 34)); [done | exact H]. }
  assert (Hr : rawData <> "") by (intros ->; by apply Ht).
  apply orb_false_iff. split; by apply String.eqb_neq.
Qed.

Lemma stopRequests_app (agentRunId : string) (t1 t2 : list Effect) :
  stopRequests agentRunId (t1 ++ t2)
  = (stopRequests agentRunId t1 ++ stopRequests agentRunId t2)%list.
Proof. apply List.filter_app. Qed.

Lemma trace_closeExisting (agentRunId : string) (w : World) :
  stopRequests agentRunId (trace (closeExisting agentRunId w))
  = stopRequests agentRunId (trace w).
Proof.
  unfold closeExisting. destruct (activeStreams w !! agentRunId); [|done].
  simpl. rewrite stopRequests_app. simpl. apply app_nil_r.
Qed.

Lemma nonRunning_closeExisting (agentRunId : string) (w : World) :
  nonRunningAgentRuns (closeExisting agentRunId w) = nonRunningAgentRuns w.
Proof. unfold closeExisting. by destruct (activeStreams w !! agentRunId). Qed.

Lemma created_closeExisting (agentRunId : string) (w : World) :
  created (closeExisting agentRunId w) = created w.
Proof. unfold closeExisting. by destruct (activeStreams w !! agentRunId). Qed.

Lemma closed_closeExisting (agentRunId : string) (w : World) (h : nat) :
  activeStreams w !! agentRunId = Some h -> h ∈ closed (closeExisting agentRunId w).
Proof. unfold closeExisting. intros ->. simpl. set_solver. Qed.

Lemma stopAgent_with_token (agentRunId : string) (session : option Session)
    (token : string) (r : FetchResult) (w : World) :
  accessToken session = Some token ->
  let c := stopAgent agentRunId session r w in
  snd c = stopAgent_response r
  /\ nonRunningAgentRuns (fst c) = nonRunningAgentRuns w ∪ {[agentRunId]}
  /\ stopRequests agentRunId (trace (fst c))
     = (stopRequests agentRunId (trace w) ++ [PostStop agentRunId token])%list.
Proof.
  intros Htok c. subst c.
  unfold stopAgent, stopAgent_request, stopAgent_begin. rewrite Htok. simpl.
  split; [done|].
  split; [by rewrite nonRunning_closeExisting|].
  rewrite stopRequests_app, trace_closeExisting. simpl.
  by rewrite String.eqb_refl.
Qed.

Lemma catching_forward (caller : Caller) (cb : nat) (e : Effect) (w : World) :
  catching caller cb (call caller e w)
  = match caller (trace w) e with
    | Returns => emit e w
    | Throws error => emit (OnError cb error) (emit e w)
    end.
Proof. unfold catching, call. by destruct (caller (trace w) e). Qed.

Lemma catching_forward_close (caller : Caller) (cb h : nat) (r : string) (e : Effect)
    (w : World) :
  catching caller cb (andThen (call caller e w) (closing caller cb h r))
  = match caller (trace w) e with
    | Returns =>
        match caller (trace w ++ [e; EventSourceClose h])%list (OnClose cb) with
        | Returns => finish cb h r (emit e w)
        | Throws error => emit (OnError cb error) (finish cb h r (emit e w))
        end
    | Throws error => emit (OnError cb error) (emit e w)
    end.
Proof.
  unfold catching, andThen, closing, call.
  destruct (caller (trace w) e); [|done].
  simpl. rewrite <- app_assoc. simpl.
  by destruct (caller (trace w ++ [e; EventSourceClose h])%list (OnClose cb)).
Qed.

Lemma onmessage_completion (caller : Caller) (cb h : nat) (agentRunId : string)
    (now : Z) (rawData : string) (w : World) :
  JSString.includes rawData pingMarker = false ->
  isNotFound rawData = false ->
  isCompletion rawData = true ->
  isFinalCompletion rawData = false ->
  onmessage caller cb h agentRunId now rawData w
  = catching caller cb
      (andThen (call caller (OnMessage cb rawData) (touch now w))
         (closing caller cb h agentRunId)).
Proof.
  intros Hping Hnf Hc Hfin. unfold onmessage, onmessageTry.
  by rewrite Hping, (completion_not_blank _ Hc), Hnf, Hc, Hfin.
Qed.

(** C10.  An event whose data holds the ping marker anywhere, be it a
    heartbeat or a message that merely embeds the marker, only renews
    the last-activity time stamp: no callback is called, and the
    subscriptions and the terminal set are as before. *)
Theorem ping_marker_only_touches (caller : Caller) (cb h : nat) (agentRunId : string)
    (now : Z) (rawData : string) (w : World) :
  JSString.includes rawData pingMarker = true ->
  let w' := onmessage caller cb h agentRunId now rawData w in
  w' = touch now w
  /\ trace w' = trace w
  /\ lastStreamMessage w' = Some now
  /\ activeStreams w' = activeStreams w
  /\ nonRunningAgentRuns w' = nonRunningAgentRuns w
  /\ closed w' = closed w.
Proof.
  intros Hping w'. subst w'. unfold onmessage, onmessageTry. rewrite Hping. done.
Qed.

(** C1, amended.  A status event with the completion marker and no
    finality marker (no ping marker and no run-not-found text either)
    is forwarded to [onMessage] and the run id is not added to the
    terminal set.  When [onMessage] returns, the connection does end:
    the handler closes its [EventSource], unregisters the run and calls
    [onClose], and what [onClose] throws is reported through [onError].
    When [onMessage] throws, the handler reports the error through
    [onError] and the connection stays open and registered. *)
Theorem bare_completion_forwards_and_closes (caller : Caller) (cb h : nat)
    (agentRunId : string) (now : Z) (rawData : string) (w : World) :
  JSString.includes rawData pingMarker = false ->
  isNotFound rawData = false ->
  isCompletion rawData = true ->
  isFinalCompletion rawData = false ->
  let w' := onmessage caller cb h agentRunId now rawData w in
  let forwarded := [OnMessage cb rawData; EventSourceClose h] in
  nonRunningAgentRuns w' = nonRunningAgentRuns w
  /\ (caller (trace w) (OnMessage cb rawData) = Returns ->
      activeStreams w' = delete agentRunId (activeStreams w)
      /\ closed w' = closed w ∪ {[h]}
      /\ (caller (trace w ++ forwarded)%list (OnClose cb) = Returns ->
          trace w'
          = (trace w ++ [OnMessage cb rawData; EventSourceClose h; OnClose cb])%list)
      /\ (forall error,
            caller (trace w ++ forwarded)%list (OnClose cb) = Throws error ->
            trace w'
            = (trace w ++ [OnMessage cb rawData; EventSourceClose h; OnClose cb;
                           OnError cb error])%list))
  /\ (forall error,
        caller (trace w) (OnMessage cb rawData) = Throws error ->
        trace w' = (trace w ++ [OnMessage cb rawData; OnError cb error])%list
        /\ activeStreams w' = activeStreams w
        /\ closed w' = closed w).
Proof.
  intros Hping Hnf Hc Hfin w' forwarded. subst w' forwarded.
  rewrite (onmessage_completion _ _ _ _ _ _ _ Hping Hnf Hc Hfin).
  rewrite catching_forward_close. cbn [trace touch].
  destruct (caller (trace w) (OnMessage cb rawData)) as [|e1] eqn:E1.
  - destruct (caller (trace w ++ [OnMessage cb rawData; EventSourceClose h])%list
                (OnClose cb)) as [|e2] eqn:E2; simpl.
    + split; [done|]. split; [|by intros error [=]].
      intros _. split; [done|]. split; [done|].
      split; [intros _; by rewrite <- !app_assoc|by intros error [=]].
    + split; [done|]. split; [|by intros error [=]].
      intros _. split; [done|]. split; [done|].
      split; [by intros [=]|]. intros error [= <-]. by rewrite <- !app_assoc.
  - simpl. split; [done|]. split; [by intros [=]|].
    intros error [= <-]. by rewrite <- !app_assoc.
Qed.

(** C2, amended.  [streamAgent] does not consult the terminal set: for
    a run id in it, and a session with an access token, a start closes
    the stream registered for the run, if any, then makes a new
    [EventSource] and registers it; the run id stays in the terminal
    set. *)
Theorem start_opens_for_terminal_run (cb : nat) (agentRunId : string)
    (session : option Session) (token : string) (now : Z) (w : World) :
  agentRunId ∈ nonRunningAgentRuns w ->
  accessToken session = Some token ->
  let w' := start cb agentRunId session now w in
  created w' = S (created w)
  /\ activeStreams w' !! agentRunId = Some (created w)
  /\ last (trace w') = Some (NewEventSource (created w) agentRunId token now)
  /\ (forall h, activeStreams w !! agentRunId = Some h -> h ∈ closed w')
  /\ agentRunId ∈ nonRunningAgentRuns w'.
Proof.
  intros Hin Htok w'. subst w'. unfold start, setupStream, streamAgent.
  rewrite Htok. simpl. rewrite created_closeExisting.
  split; [done|].
  split; [apply lookup_insert_eq|].
  split; [apply last_snoc|].
  split; [intros h Hh; by apply closed_closeExisting|].
  by rewrite nonRunning_closeExisting.
Qed.

(** C6, amended.  Two calls of [stopAgent] for one run id, with a
    session that has an access token: each call registers the run id as
    terminal before anything else and sends its own stop request, the
    second as well as the first; a call ends as its response decides,
    so neither throws when both responses are ok. *)
Theorem stopAgent_twice_sends_twice (agentRunId : string) (session : option Session)
    (token : string) (r1 r2 : FetchResult) (w : World) :
  accessToken session = Some token ->
  let c1 := stopAgent agentRunId session r1 w in
  let c2 := stopAgent agentRunId session r2 (fst c1) in
  agentRunId ∈ nonRunningAgentRuns (fst c1)
  /\ nonRunningAgentRuns (fst c2) = nonRunningAgentRuns (fst c1)
  /\ stopRequests agentRunId (trace (fst c2))
     = (stopRequests agentRunId (trace w)
        ++ [PostStop agentRunId token; PostStop agentRunId token])%list
  /\ snd c1 = stopAgent_response r1
  /\ snd c2 = stopAgent_response r2
  /\ (forall s1 s2, r1 = Response true s1 -> r2 = Response true s2 ->
      snd c1 = Resolved /\ snd c2 = Resolved).
Proof.
  intros Htok c1 c2.
  destruct (stopAgent_with_token agentRunId session token r1 w Htok)
    as (Ho1 & Hn1 & Ht1).
  destruct (stopAgent_with_token agentRunId session token r2 (fst c1) Htok)
    as (Ho2 & Hn2 & Ht2).
  fold c1 in Ho1, Hn1, Ht1. fold c2 in Ho2, Hn2, Ht2.
  split; [rewrite Hn1; set_solver|].
  split; [rewrite Hn2, Hn1; set_solver|].
  split; [by rewrite Ht2, Ht1, <- app_assoc|].
  split; [done|]. split; [done|].
  intros s1 s2 E1 E2. by rewrite Ho1, Ho2, E1, E2.
Qed.

End TransportFacts.

(** A concrete run of C10: an assistant message whose content embeds
    the ping marker is taken for a heartbeat. *)
Lemma ping_marker_only_touches_witness :
  let raw := "{" +:+ JSString.quoted "type" +:+ ":" +:+ JSString.quoted "assistant"
             +:+ "," +:+ JSString.quoted "content" +:+ ":{"
             +:+ JSString.quoted "example" +:+ ":{" +:+ JSString.quoted "type" +:+ ":"
             +:+ JSString.quoted "ping" +:+ "}}}" in
  JSString.includes raw Transport.pingMarker = true
  /\ Transport.trace
       (Transport.onmessage Transport.returning 0 0 "run-1" 5 raw Transport.emptyWorld)
     = [].
Proof.
  intros raw.
  exact (conj eq_refl
           (proj1 (proj2 (ping_marker_only_touches Transport.returning 0 0 "run-1" 5 raw
                            Transport.emptyWorld eq_refl)))).
Defined.

(** C1 as stated fails: on a subscription opened for [run-1], a status
    event with the completion marker and no finality marker is
    forwarded, and then the [EventSource] is closed, the run is
    unregistered and [onClose] is called. *)
Lemma bare_completion_counterexample :
  let raw := "{" +:+ JSString.quoted "type" +:+ ":" +:+ JSString.quoted "status"
             +:+ "," +:+ JSString.quoted "status" +:+ ":"
             +:+ JSString.quoted "completed" +:+ "}" in
  let w := Transport.start 0 "run-1" (Some (Transport.mkSession "tok")) 100
             Transport.emptyWorld in
  let w' := Transport.onmessage Transport.returning 0 0 "run-1" 200 raw w in
  Transport.isCompletion raw = true
  /\ Transport.isFinalCompletion raw = false
  /\ JSString.includes raw Transport.pingMarker = false
  /\ Transport.activeStreams w !! "run-1" = Some 0%nat
  /\ Transport.activeStreams w' !! "run-1" = None
  /\ 0%nat ∈ Transport.closed w'
  /\ Transport.trace w'
     = (Transport.trace w
        ++ [Transport.OnMessage 0 raw; Transport.EventSourceClose 0;
            Transport.OnClose 0])%list.
Proof.
  intros raw w w'.
  split; [reflexivity|]. split; [reflexivity|]. split; [reflexivity|].
  split; [apply lookup_insert_eq|].
  split; [apply lookup_delete_eq|].
  split; [|reflexivity].
  subst w' w. simpl. set_solver.
Qed.

(** Concrete runs of the amended C1, on the same event: with
    callbacks that return, and with an [onMessage] that throws. *)
Lemma bare_completion_forwards_and_closes_witness :
  let raw := "{" +:+ JSString.quoted "type" +:+ ":" +:+ JSString.quoted "status"
             +:+ "," +:+ JSString.quoted "status" +:+ ":"
             +:+ JSString.quoted "completed" +:+ "}" in
  let failing : Transport.Caller :=
    fun _ e => match e with
               | Transport.OnMessage _ _ => Transport.Throws "render failed"
               | _ => Transport.Returns
               end in
  (JSString.includes raw Transport.pingMarker = false
   /\ Transport.isNotFound raw = false
   /\ Transport.isCompletion raw = true
   /\ Transport.isFinalCompletion raw = false)
  /\ Transport.trace
       (Transport.onmessage Transport.returning 0 0 "run-1" 200 raw Transport.emptyWorld)
     = [Transport.OnMessage 0 raw; Transport.EventSourceClose 0; Transport.OnClose 0]
  /\ Transport.trace
       (Transport.onmessage failing 0 0 "run-1" 200 raw Transport.emptyWorld)
     = [Transport.OnMessage 0 raw; Transport.OnError 0 "render failed"].
Proof.
  intros raw failing.
  pose proof (bare_completion_forwards_and_closes Transport.returning 0 0 "run-1" 200 raw
                Transport.emptyWorld eq_refl eq_refl eq_refl eq_refl) as H1.
  pose proof (bare_completion_forwards_and_closes failing 0 0 "run-1" 200 raw
                Transport.emptyWorld eq_refl eq_refl eq_refl eq_refl) as H2.
  exact (conj (conj eq_refl (conj eq_refl (conj eq_refl eq_refl)))
           (conj (proj1 (proj2 (proj2 (proj1 (proj2 H1) eq_refl))) eq_refl)
              (proj1 (proj2 (proj2 H2) "render failed" eq_refl)))).
Defined.

(** C2 as stated fails: [run-1] enters the terminal set when its stream
    reports the end of the run; the next start for [run-1] makes a
    second [EventSource] and registers it. *)
Lemma start_after_terminal_counterexample :
  let session := Some (Transport.mkSession "tok") in
  let ended := "{" +:+ JSString.quoted "type" +:+ ":" +:+ JSString.quoted "status"
               +:+ "," +:+ JSString.quoted "status_type" +:+ ":"
               +:+ JSString.quoted "thread_run_end" +:+ "}" in
  let w1 := Transport.start 0 "run-1" session 100 Transport.emptyWorld in
  let w2 := Transport.onmessage Transport.returning 0 0 "run-1" 200 ended w1 in
  let w3 := Transport.start 1 "run-1" session 300 w2 in
  "run-1" ∈ Transport.nonRunningAgentRuns w2
  /\ Transport.activeStreams w2 !! "run-1" = None
  /\ Transport.created w2 = 1%nat
  /\ Transport.created w3 = 2%nat
  /\ Transport.activeStreams w3 !! "run-1" = Some 1%nat
  /\ last (Transport.trace w3) = Some (Transport.NewEventSource 1 "run-1" "tok" 300).
Proof.
  intros session ended w1 w2 w3.
  split; [subst w2 w1; simpl; set_solver|].
  split; [apply lookup_delete_eq|].
  split; [reflexivity|]. split; [reflexivity|].
  split; [|reflexivity].
  subst w3. unfold Transport.start, Transport.setupStream. simpl.
  apply lookup_insert_eq.
Qed.

(** A concrete run of the amended C2: a start for a run already stopped. *)
Lemma start_opens_for_terminal_run_witness :
  let session := Some (Transport.mkSession "tok") in
  let w := Transport.addNonRunning "run-1" Transport.emptyWorld in
  ("run-1" ∈ Transport.nonRunningAgentRuns w
   /\ Transport.accessToken session = Some "tok")
  /\ Transport.created (Transport.start 0 "run-1" session 100 w) = 1%nat.
Proof.
  intros session w.
  assert (Hin : "run-1" ∈ Transport.nonRunningAgentRuns w).
  { apply elem_of_union_r, elem_of_singleton, eq_refl. }
  exact (conj (conj Hin eq_refl)
           (proj1 (start_opens_for_terminal_run 0 "run-1" session "tok" 100 w
                     Hin eq_refl))).
Defined.

(** C6 as stated fails: after the first stop has registered [run-1] as
    terminal, a second stop sends a second stop request. *)
Lemma stopAgent_twice_counterexample :
  let session := Some (Transport.mkSession "tok") in
  let c1 := Transport.stopAgent "run-1" session (Transport.Response true "OK")
              Transport.emptyWorld in
  let c2 := Transport.stopAgent "run-1" session (Transport.Response true "OK") (fst c1) in
  "run-1" ∈ Transport.nonRunningAgentRuns (fst c1)
  /\ snd c1 = Transport.Resolved
  /\ snd c2 = Transport.Resolved
  /\ Transport.trace (fst c1) = [Transport.PostStop "run-1" "tok"]
  /\ Transport.trace (fst c2)
     = [Transport.PostStop "run-1" "tok"; Transport.PostStop "run-1" "tok"].
Proof.
  intros session c1 c2.
  split; [apply elem_of_union_r, elem_of_singleton, eq_refl|].
  repeat split.
Qed.

(** A concrete run of the amended C6. *)
Lemma stopAgent_twice_sends_twice_witness :
  let session := Some (Transport.mkSession "tok") in
  let ok := Transport.Response true "OK" in
  Transport.accessToken session = Some "tok"
  /\ "run-1" ∈ Transport.nonRunningAgentRuns
                 (fst (Transport.stopAgent "run-1" session ok Transport.emptyWorld)).
Proof.
  intros session ok.
  exact (conj eq_refl
           (proj1 (stopAgent_twice_sends_twice "run-1" session "tok" ok ok
                     Transport.emptyWorld eq_refl))).
Defined.

(** ** Replay: the text shown during a reveal *)

Section RevealFacts.

Import Replay.

(** While the closure variable stays within the content, [n] firings of
    the reveal interval leave the prefix of that length in
    [streamingText] and touch nothing else the page reads. *)
Lemma reveal_within (message : SharedMessage) (n charIndex : nat) (st : ReplayState) :
  (charIndex + n <= String.length (content message))%nat ->
  let r := reveal message n charIndex st in
  fst r = (charIndex + n)%nat
  /\ streamingText (snd r) =
       (if (n =? 0)%nat then streamingText st
        else JSString.substring0 (charIndex + n) (content message))
  /\ isPlaying (snd r) = isPlaying st
  /\ currentMessageIndex (snd r) = currentMessageIndex st
  /\ isStreamingComplete (snd r) = isStreamingComplete st.
Proof.
  revert charIndex st. induction n as [|n IH]; intros charIndex st Hle; simpl.
  { by rewrite Nat.add_0_r. }
  unfold streamMessage.
  destruct (charIndex <? String.length (content message))%nat eqn:E.
  2: { apply Nat.ltb_ge in E. lia. }
  match goal with
  | |- context [reveal message n (S charIndex) ?s] =>
      destruct (IH (S charIndex) s ltac:(lia)) as (H1 & H2 & H3 & H4 & H5)
  end.
  simpl in H2, H3, H4, H5.
  split; [rewrite H1; lia|].
  split; [|done].
  rewrite H2. destruct n; simpl; f_equal; lia.
Qed.


End RevealFacts.



(** ** Objects as property lists *)

Section PropertyFacts.

Import JS.

Lemma lookupProp_setProp_same (k : string) (v : JSValue) (l : list (string * JSValue)) :
  lookupProp k (setProp k v l) = Some v.
Proof.
  induction l as [|[k' v'] l IH]; simpl.
  - by rewrite String.eqb_refl.
  - destruct (String.eqb k' k) eqn:E; simpl.
    + by rewrite String.eqb_refl.
    + by rewrite E.
Qed.

Lemma lookupProp_setProp_other (k k0 : string) (v : JSValue) (l : list (string * JSValue)) :
  k <> k0 -> lookupProp k0 (setProp k v l) = lookupProp k0 l.
Proof.
  intros Hne. induction l as [|[k' v'] l IH]; simpl.
  - apply String.eqb_neq in Hne. by rewrite Hne.
  - destruct (String.eqb_spec k' k) as [->|Hk]; simpl.
    + apply String.eqb_neq in Hne. by rewrite Hne.
    + by rewrite IH.
Qed.

Lemma lookupProp_absent (k : string) (l : list (string * JSValue)) :
  k ∉ map fst l -> lookupProp k l = None.
Proof.
  induction l as [|[k' v'] l IH]; simpl; [done|].
  intros Hnin. destruct (String.eqb_spec k' k) as [->|Hk].
  - exfalso. apply Hnin. left.
  - apply IH. intros Hin. apply Hnin. by right.
Qed.

(** In a spread, a property of the source wins over the target. *)
Lemma lookupProp_spreadProps (k : string) (target source : list (string * JSValue)) :
  NoDup (map fst source) ->
  lookupProp k (spreadProps target source)
  = match lookupProp k source with
    | Some v => Some v
    | None => lookupProp k target
    end.
Proof.
  unfold spreadProps. revert target.
  induction source as [|[k1 v1] source IH]; intros target Hnd; simpl; [done|].
  apply NoDup_cons in Hnd as [Hk1 Hnd].
  rewrite IH by done.
  destruct (String.eqb_spec k1 k) as [->|Hk].
  - rewrite (lookupProp_absent k source Hk1). apply lookupProp_setProp_same.
  - by rewrite lookupProp_setProp_other.
Qed.

Lemma get_setProp_same (k : string) (v : JSValue) (l : list (string * JSValue)) :
  get (JObj (setProp k v l)) k = v.
Proof. unfold get. by rewrite lookupProp_setProp_same. Qed.

Lemma get_setProp_other (k k0 : string) (v : JSValue) (l : list (string * JSValue)) :
  k <> k0 -> get (JObj (setProp k v l)) k0 = get (JObj l) k0.
Proof. intros Hne. unfold get. by rewrite lookupProp_setProp_other. Qed.

Lemma inStrings_truthy (l : list string) (v : JSValue) :
  "" ∉ l -> inStrings l v = true -> truthy v = true.
Proof.
  intros Hl H. unfold inStrings in H. apply existsb_exists in H as (x & Hx & Hv).
  destruct v; try discriminate. simpl in *.
  apply String.eqb_eq in Hv as ->.
  destruct (String.eqb_spec x "") as [->|]; [|done].
  exfalso. apply Hl. by apply list_elem_of_In.
Qed.

End PropertyFacts.

(** ** Tool model *)

Section ToolModelClaims.

Import JS ToolModel.

Variable pf : Platform.
Variable nowISO : string.

Lemma js_or_undefined (v : JSValue) : js_or JUndefined v = v.
Proof. reflexivity. Qed.

Lemma js_or_falsy (a b : JSValue) : truthy a = false -> js_or a b = b.
Proof. unfold js_or. by intros ->. Qed.

Lemma js_or_truthy (a b : JSValue) : truthy a = true -> js_or a b = a.
Proof. unfold js_or. by intros ->. Qed.

(** Which object the fields are read from. *)
Lemma contentOf_cases (msg : JSValue) :
  (forall t, get msg "_content" = JStr t -> contentOf pf msg = JObj [("text", JStr t)])
  /\ (isString (get msg "_content") = false -> truthy (get msg "_content") = true ->
      contentOf pf msg = get msg "_content")
  /\ (forall c,
        isString (get msg "_content") = false -> truthy (get msg "_content") = false ->
        truthy (get msg "content") = true ->
        JSON_parse pf (get msg "content") = Ok c -> truthy c = true ->
        contentOf pf msg = c)
  /\ (isString (get msg "_content") = false -> truthy (get msg "_content") = false ->
      truthy (get msg "content") = false
      \/ (exists e, JSON_parse pf (get msg "content") = Throw e)
      \/ (exists c, JSON_parse pf (get msg "content") = Ok c /\ truthy c = false) ->
      contentOf pf msg = JObj []).
Proof.
  unfold contentOf, parseMaybeJSON. repeat split.
  - by intros t ->.
  - intros -> Ht. by rewrite (js_or_truthy _ _ Ht), (js_or_truthy _ _ Ht).
  - intros c -> Hf Hc Hp Htc. rewrite Hc, Hp. cbn [negb].
    by rewrite (js_or_falsy _ _ Hf), (js_or_truthy _ _ Htc).
  - intros -> Hf Hcase. rewrite (js_or_falsy _ _ Hf).
    destruct Hcase as [Hc|[[e He]|(c & Hp & Htc)]].
    + by rewrite Hc.
    + rewrite He. by destruct (negb (truthy (get msg "content"))).
    + rewrite Hp. destruct (negb (truthy (get msg "content"))); [done|].
      by rewrite (js_or_falsy _ _ Htc).
Qed.

(** C7, amended.  For every message object [getToolModel] returns a
    model, with the message's [id] and [type] and a [created_at] that
    is never [undefined].  The other fields are read from one object:
    from [{ text }] when [_content] is a string, from [_content] when it
    is any other truthy value (the pre-parsed object), else from what
    [JSON.parse] makes of a truthy [content] when that is truthy (the
    JSON string), and from the empty object otherwise (plain text, no
    content).  Each of [tag], [attrs], [result], [error] is the field of
    that object if truthy and else the message's own [tool],
    [arguments], [output], [error]; each of [logs], [path],
    [workspace], [mode] is the field of that object if truthy and else
    the field of its [result].  A field no source provides is
    [undefined], [tag] included: it has no default. *)
Theorem getToolModel_resolves (props : list (string * JSValue)) :
  let msg := JObj props in
  exists tm,
    getToolModel pf nowISO msg = Ok tm
    /\ id tm = get msg "id"
    /\ type tm = get msg "type"
    /\ created_at tm = js_or (get msg "timestamp") (JStr nowISO)
    /\ created_at tm <> JUndefined
    /\ (forall t, get msg "_content" = JStr t -> readsMessageOnly msg tm)
    /\ (isString (get msg "_content") = false -> truthy (get msg "_content") = true ->
        readsFrom (get msg "_content") msg tm)
    /\ (forall c,
          isString (get msg "_content") = false -> truthy (get msg "_content") = false ->
          truthy (get msg "content") = true ->
          JSON_parse pf (get msg "content") = Ok c -> truthy c = true ->
          readsFrom c msg tm
          /\ (truthy (get c "tag") = true -> tag tm = get c "tag"))
    /\ (isString (get msg "_content") = false -> truthy (get msg "_content") = false ->
        truthy (get msg "content") = false
        \/ (exists e, JSON_parse pf (get msg "content") = Throw e)
        \/ (exists c, JSON_parse pf (get msg "content") = Ok c /\ truthy c = false) ->
        readsMessageOnly msg tm
        /\ (lookupProp "tool" props = None -> tag tm = JUndefined)
        /\ (lookupProp "arguments" props = None -> attrs tm = JUndefined)
        /\ (lookupProp "output" props = None -> result tm = JUndefined)
        /\ (lookupProp "error" props = None -> error tm = JUndefined)).
Proof.
  intros msg.
  destruct (contentOf_cases msg) as (Hstr & Hobj & Hjson & Hnone).
  unfold getToolModel. cbn [getProp msg]. fold msg.
  eexists. split; [reflexivity|]. cbn [id type created_at tag attrs result error logs
                                       path workspace mode].
  split; [reflexivity|]. split; [reflexivity|]. split; [reflexivity|].
  split.
  { unfold js_or. destruct (truthy (get msg "timestamp")) eqn:E; [|discriminate].
    intros H. rewrite H in E. discriminate E. }
  split.
  { intros t Ht. rewrite (Hstr t Ht). by repeat split. }
  split.
  { intros Hs Ht. rewrite (Hobj Hs Ht). by repeat split. }
  split.
  { intros c Hs Hf Hc Hp Htc. rewrite (Hjson c Hs Hf Hc Hp Htc).
    split; [by repeat split|]. intros Htag. cbn [tag]. by apply js_or_truthy. }
  intros Hs Hf Hcase. rewrite (Hnone Hs Hf Hcase).
  split; [by repeat split|].
  repeat split; intros Hnone'; cbn [tag attrs result error]; unfold msg, get;
    by rewrite Hnone'.
Qed.

End ToolModelClaims.

(** C7 as stated fails: for a tool message with plain-text content and
    no [tool] of its own, [tag] is [undefined], not the text
    [unknown]. *)
Lemma tool_tag_counterexample :
  let msg := JObj [("id", JStr "m1"); ("type", JStr "tool_start");
                   ("content", JStr "starting the tool")] in
  exists tm,
    ToolModel.getToolModel RefJSON.platform "2025-01-01T00:00:00.000Z" msg = JS.Ok tm
    /\ ToolModel.tag tm = JUndefined
    /\ ToolModel.tag tm <> JStr "unknown".
Proof.
  intros msg. eexists. split; [reflexivity|]. simpl. split; [reflexivity|discriminate].
Qed.

(** Concrete runs of the amended C7: a tag in JSON-string content, and
    a tag in a pre-parsed [_content] that wins over the message's own
    [tool]. *)
Lemma getToolModel_resolves_witness :
  let now := "2025-01-01T00:00:00.000Z" in
  let text := "{" +:+ JSString.quoted "tag" +:+ ":" +:+ JSString.quoted "file-write"
              +:+ "}" in
  let props1 := [("id", JStr "m1"); ("type", JStr "tool_start"); ("content", JStr text)] in
  let props2 := [("id", JStr "m2"); ("type", JStr "tool_result");
                 ("tool", JStr "legacy");
                 ("_content", JObj [("tag", JStr "web-search");
                                    ("result", JObj [("logs", JStr "done")])])] in
  (exists tm, ToolModel.getToolModel RefJSON.platform now (JObj props1) = JS.Ok tm
              /\ ToolModel.tag tm = JStr "file-write")
  /\ (exists tm, ToolModel.getToolModel RefJSON.platform now (JObj props2) = JS.Ok tm
                 /\ ToolModel.tag tm = JStr "web-search"
                 /\ ToolModel.logs tm = JStr "done").
Proof.
  intros now text props1 props2. split.
  - destruct (getToolModel_resolves RefJSON.platform now props1)
      as (tm & E & _ & _ & _ & _ & _ & _ & Hjson & _).
    exists tm. split; [exact E|].
    exact (proj2 (Hjson (JObj [("tag", JStr "file-write")])
                    eq_refl eq_refl eq_refl eq_refl eq_refl) eq_refl).
  - destruct (getToolModel_resolves RefJSON.platform now props2)
      as (tm & E & _ & _ & _ & _ & _ & Hobj & _).
    exists tm. split; [exact E|].
    destruct (Hobj eq_refl eq_refl) as (Htag & _ & _ & _ & Hlogs & _).
    split; [exact Htag|exact Hlogs].
Defined.

Section NormalizerClaims.

Import JS Normalizer.

Variable pf : Platform.

Lemma orGenerateId_ok (v : JSValue) (n : nat) :
  exists id n', orGenerateId pf v n = (Ok id, n').
Proof.
  unfold orGenerateId. destruct (truthy v); unfold ret, bind, generateId; eauto.
Qed.

Lemma normalizeMessage_total (message : JSValue) (n : nat) :
  exists v n', normalizeMessage pf message n = (Ok v, n').
Proof.
  unfold normalizeMessage, tryCatch.
  destruct (normalizeBody pf message n) as [[v|e] n']; [eauto|].
  unfold bind, generateId, ret. eauto.
Qed.

Lemma get_content_lookup (props : list (string * JSValue)) (s : string) :
  get (JObj props) "content" = JStr s -> lookupProp "content" props = Some (JStr s).
Proof.
  unfold get. destruct (lookupProp "content" props); simpl; [congruence|discriminate].
Qed.

Lemma passthrough_content (props : list (string * JSValue)) (s : string) (n : nat) :
  NoDup (map fst props) ->
  get (JObj props) "content" = JStr s ->
  inStrings canonicalTypes (get (JObj props) "type") = true ->
  exists v n', normalizeMessage pf (JObj props) n = (Ok v, n') /\ get v "content" = JStr s.
Proof.
  intros Hnd Hc Hty.
  assert (Ht : truthy (get (JObj props) "type") = true).
  { eapply inStrings_truthy; [|exact Hty].
    intros H. repeat (apply elem_of_cons in H as [H|H]; [discriminate|]). inversion H. }
  unfold normalizeMessage, tryCatch, normalizeBody.
  cbn [truthy negb]. rewrite Ht, Hty. cbn [andb].
  unfold bind.
  destruct (orGenerateId_ok (js_or (get (JObj props) "id") (get (JObj props) "message_id")) n)
    as (id & n' & ->).
  unfold ret. eexists _, _. split; [reflexivity|].
  unfold get, ownProps. rewrite lookupProp_spreadProps by done.
  by rewrite (get_content_lookup _ _ Hc).
Qed.

Lemma inStrings_false_each (l : list string) (v : JSValue) (x : string) :
  inStrings l v = false -> x ∈ l -> isStr v x = false.
Proof.
  intros H Hx. unfold inStrings in H.
  destruct (isStr v x) eqn:E; [|done].
  assert (existsb (isStr v) l = true); [|congruence].
  apply existsb_exists. exists x. split; [by apply list_elem_of_In|done].
Qed.

Lemma role_content (props : list (string * JSValue)) (s : string) (e : Exn) (n : nat) :
  get (JObj props) "content" = JStr s ->
  parseText pf s = Throw e ->
  inStrings canonicalTypes (get (JObj props) "type") = false ->
  isStr (get (JObj props) "type") "tool" || isStr (get (JObj props) "role") "tool" = false ->
  isStr (get (JObj props) "role") "user" || isStr (get (JObj props) "role") "assistant" = true ->
  (truthy (get (JObj props) "metadata") = false
   \/ isString (get (JObj props) "metadata") = false
   \/ exists md, JSON_parse pf (get (JObj props) "metadata") = Ok md) ->
  exists v n', normalizeMessage pf (JObj props) n = (Ok v, n') /\ get v "content" = JStr s.
Proof.
  intros Hc Hparse Hcanon Htool Hrole Hmd.
  assert (Hstatus : isStr (get (JObj props) "type") "status" = false).
  { eapply inStrings_false_each; [exact Hcanon|]. unfold canonicalTypes. set_solver. }
  assert (Huser : isStr (get (JObj props) "type") "user" = false).
  { eapply inStrings_false_each; [exact Hcanon|]. unfold canonicalTypes. set_solver. }
  assert (Hassistant : isStr (get (JObj props) "type") "assistant" = false).
  { eapply inStrings_false_each; [exact Hcanon|]. unfold canonicalTypes. set_solver. }
  assert (Hmeta : exists md,
    (if truthy (get (JObj props) "metadata")
     then if isString (get (JObj props) "metadata")
          then lift (JSON_parse pf (get (JObj props) "metadata"))
          else ret (get (JObj props) "metadata")
     else ret (JObj [])) = ret md).
  { destruct (truthy (get (JObj props) "metadata")) eqn:E1; [|eauto].
    destruct (isString (get (JObj props) "metadata")) eqn:E2; [|eauto].
    destruct Hmd as [H|[H|[md H]]]; [congruence|congruence|].
    exists md. by rewrite H. }
  destruct Hmeta as [md Hmeta].
  destruct (orGenerateId_ok (js_or (get (JObj props) "id") (get (JObj props) "message_id")) n)
    as (id & n' & Hid).
  exists (JObj (setProp "metadata" md
            (setProp "timestamp"
               (js_or (get (JObj props) "timestamp") (get (JObj props) "created_at"))
               (setProp "content" (JStr s)
                  (setProp "type"
                     (JStr (if isStr (get (JObj props) "role") "user"
                            then "user" else "assistant"))
                     (setProp "_content" JUndefined
                        [("id", id); ("type", JStr "unknown"); ("raw", JObj props)])))))), n'.
  split.
  - unfold normalizeMessage, tryCatch, normalizeBody.
    change (truthy (JObj props)) with true. cbn [negb].
    rewrite Hcanon, andb_false_r, Hmeta.
    unfold bind at 1. rewrite Hid.
    rewrite Hc. cbn [isString].
    unfold JSON_parse. cbn [toString]. rewrite Hparse.
    unfold dispatch. rewrite Hstatus, Htool, Huser, Hassistant. cbn [orb].
    destruct (isStr (get (JObj props) "role") "user") eqn:Eu.
    + reflexivity.
    + cbn [orb] in Hrole. rewrite Hrole. reflexivity.
  - rewrite get_setProp_other by discriminate.
    rewrite get_setProp_other by discriminate.
    apply get_setProp_same.
Qed.
End NormalizerClaims.




(** * Further properties of the embedded code *)

(** ** Message store *)

Section StoreMore.

Import Store.

Lemma spread_again (old : option AgentMessage) (m : AgentMessage) :
  spread (Some (spread old m)) m = spread old m.
Proof.
  destruct m as [i f]. destruct old as [[i' f']|]; simpl; f_equal.
  - rewrite (assoc (∪)). by rewrite (idemp (∪) f).
  - by rewrite (idemp (∪) f).
Qed.

(** Upserting the same message a second time changes nothing: a
    repeated delivery of an event is applied once. *)
Theorem updateMessage_idempotent (m : AgentMessage) (st : AgentRunState) :
  updateMessage m (updateMessage m st) = updateMessage m st.
Proof.
  rewrite (updateMessage_known m (updateMessage m st)) by apply updateMessage_registers.
  destruct (decide (message_id m ∈ order st)) as [Hin|Hnin].
  - rewrite updateMessage_known by done. simpl.
    rewrite lookup_insert_eq, spread_again. by rewrite insert_insert_eq.
  - rewrite updateMessage_new by done. simpl.
    rewrite lookup_insert_eq, insert_insert_eq.
    replace (spread (Some m) m) with m; [done|].
    destruct m as [i f]. simpl. f_equal. by rewrite (idemp (∪) f).
Qed.

Lemma updateMessage_other (m : AgentMessage) (st : AgentRunState) (id : string) :
  id <> message_id m -> byId (updateMessage m st) !! id = byId st !! id.
Proof.
  intros Hid. destruct (decide (message_id m ∈ order st)) as [Hin|Hnin].
  - rewrite updateMessage_known by done. simpl. by rewrite lookup_insert_ne.
  - rewrite updateMessage_new by done. simpl. by rewrite lookup_insert_ne.
Qed.

(** An upsert touches one entry: every other stored message, the
    relative order of the ids already known, and the streaming flag and
    error are as before. *)
Theorem updateMessage_frame (m : AgentMessage) (st : AgentRunState) :
  (forall id, id <> message_id m -> byId (updateMessage m st) !! id = byId st !! id)
  /\ order st `prefix_of` order (updateMessage m st)
  /\ isStreaming (updateMessage m st) = isStreaming st
  /\ error (updateMessage m st) = error st.
Proof.
  destruct (decide (message_id m ∈ order st)) as [Hin|Hnin].
  - rewrite updateMessage_known by done. simpl.
    split; [intros id Hid; by rewrite lookup_insert_ne|]. done.
  - rewrite updateMessage_new by done. simpl.
    split; [intros id Hid; by rewrite lookup_insert_ne|].
    split; [by apply prefix_app_r|done].
Qed.

Lemma keyed_updateMessage (m : AgentMessage) (st : AgentRunState) :
  (forall id msg, byId st !! id = Some msg -> message_id msg = id) ->
  forall id msg, byId (updateMessage m st) !! id = Some msg -> message_id msg = id.
Proof.
  intros Hk id msg.
  destruct (decide (id = message_id m)) as [->|Hne].
  - destruct (updateMessage_stored m st) as (stored & Hs & Hid & _).
    rewrite Hs. by intros [= <-].
  - rewrite updateMessage_other by done. apply Hk.
Qed.

Lemma keyed_fold (ops : list StoreOp) (st : AgentRunState) :
  (forall id msg, byId st !! id = Some msg -> message_id msg = id) ->
  forall id msg, byId (fold_left applyOp ops st) !! id = Some msg -> message_id msg = id.
Proof.
  revert st. induction ops as [|op ops IH]; intros st Hk; simpl; [done|].
  apply IH. destruct op; simpl; [by apply keyed_updateMessage|].
  intros id msg H. simpl in H. by rewrite lookup_empty in H.
Qed.

Lemma messages_ids (st : AgentRunState) :
  consistent st ->
  (forall id msg, byId st !! id = Some msg -> message_id msg = id) ->
  map message_id (messages st) = order st.
Proof.
  intros [_ Hdom] Hk. unfold messages.
  assert (Hall : forall id, id ∈ order st -> is_Some (byId st !! id)).
  { intros id Hid. apply elem_of_dom. rewrite Hdom. by apply elem_of_list_to_set. }
  clear Hdom. induction (order st) as [|id l IH]; simpl; [done|].
  destruct (Hall id ltac:(left)) as [msg Hmsg]. rewrite Hmsg. simpl.
  rewrite (Hk _ _ Hmsg). f_equal. apply IH. intros id' Hid'. apply Hall. by right.
Qed.

(** After any sequence of upserts and clears, the list handed to the
    renderer has exactly one message for each id of the order, in the
    order of first arrival: no id twice, no dangling entry skipped. *)
Theorem messages_in_arrival_order (ops : list StoreOp) :
  let st := runOps ops in
  map message_id (messages st) = order st
  /\ NoDup (map message_id (messages st))
  /\ length (messages st) = size (byId st).
Proof.
  intros st.
  assert (Hc : consistent st) by apply consistent_fold, consistent_initial.
  assert (Hids : map message_id (messages st) = order st).
  { apply messages_ids; [done|]. apply keyed_fold.
    intros id msg H. simpl in H. by rewrite lookup_empty in H. }
  split; [done|]. split; [rewrite Hids; apply Hc|].
  rewrite <- (consistent_size st Hc), <- Hids. by rewrite length_map.
Qed.

Lemma order_fold_updates (ms : list AgentMessage) (st : AgentRunState) (id : string) :
  id ∈ order (fold_left applyOp (map OpUpdate ms) st)
  <-> id ∈ order st \/ id ∈ map message_id ms.
Proof.
  revert st. induction ms as [|m ms IH]; intros st; simpl.
  - split; [by left|]. intros [H|H]; [done|inversion H].
  - rewrite IH, elem_of_cons.
    destruct (decide (message_id m ∈ order st)) as [Hin|Hnin].
    + rewrite updateMessage_known by done. simpl.
      split; [tauto|]. intros [H|[->|H]]; tauto.
    + rewrite updateMessage_new by done. simpl. rewrite elem_of_app.
      rewrite list_elem_of_singleton. tauto.
Qed.

(** With no clear in between, the order holds exactly the ids that were
    upserted. *)
Theorem order_holds_upserted_ids (ms : list AgentMessage) (id : string) :
  id ∈ order (runOps (map OpUpdate ms)) <-> id ∈ map message_id ms.
Proof.
  unfold runOps. rewrite order_fold_updates. simpl.
  split; [intros [H|H]; [inversion H|done] | by right].
Qed.

End StoreMore.

(** ** Stream transport: the cleanup handle and the event handler *)

Section TransportMore.

Import Transport.

Lemma closeExisting_unregistered (agentRunId : string) (w : World) :
  activeStreams w !! agentRunId = None -> closeExisting agentRunId w = w.
Proof. unfold closeExisting. by intros ->. Qed.

Lemma closeExisting_unregisters (agentRunId : string) (w : World) :
  activeStreams (closeExisting agentRunId w) !! agentRunId = None.
Proof.
  unfold closeExisting. destruct (activeStreams w !! agentRunId) eqn:E; [|done].
  simpl. apply lookup_delete_eq.
Qed.

(** The cleanup handle can be called any number of times: a second
    call closes nothing, calls nothing and leaves the world as the
    first call left it. *)
Theorem cleanup_idempotent (cb : nat) (agentRunId : string) (w : World) :
  cleanup cb agentRunId (cleanup cb agentRunId w) = cleanup cb agentRunId w.
Proof.
  unfold cleanup.
  set (w1 := closeExisting agentRunId w).
  assert (Hnone : activeStreams
            (setWatchdogs (watchdogs w1 ∖ {[cb]}) w1) !! agentRunId = None).
  { simpl. apply closeExisting_unregisters. }
  rewrite (closeExisting_unregistered _ _ Hnone).
  unfold setWatchdogs. simpl. f_equal. set_solver.
Qed.

(** The cleanup handle looks the stream up by run id, not by call: the
    handle an earlier start returned closes the stream a later start
    for the same run has registered, while the later call's watchdog
    stays live. *)
Theorem stale_cleanup_closes_newer_stream (cbOld cbNew : nat) (agentRunId : string)
    (session : option Session) (token : string) (now : Z) (w : World) :
  accessToken session = Some token ->
  cbOld <> cbNew ->
  let w1 := start cbNew agentRunId session now w in
  let w2 := cleanup cbOld agentRunId w1 in
  activeStreams w1 !! agentRunId = Some (created w)
  /\ created w ∈ closed w2
  /\ activeStreams w2 !! agentRunId = None
  /\ cbNew ∈ watchdogs w2.
Proof.
  intros Htok Hne w1 w2.
  assert (Hreg : activeStreams w1 !! agentRunId = Some (created w)).
  { subst w1. unfold start, setupStream, streamAgent. rewrite Htok. simpl.
    rewrite created_closeExisting. apply lookup_insert_eq. }
  split; [done|].
  subst w2. unfold cleanup. simpl.
  split; [by apply closed_closeExisting|].
  split; [apply closeExisting_unregisters|].
  unfold closeExisting. rewrite Hreg. simpl.
  subst w1. unfold start, setupStream. rewrite Htok. simpl. set_solver.
Qed.

Lemma closeExisting_closed (agentRunId : string) (w : World) (h : nat) :
  h ∈ closed (closeExisting agentRunId w)
  <-> h ∈ closed w \/ activeStreams w !! agentRunId = Some h.
Proof.
  unfold closeExisting. destruct (activeStreams w !! agentRunId) as [h0|] eqn:E; simpl.
  - rewrite elem_of_union, elem_of_singleton.
    split; [intros [H| ->]; [by left|by right]|].
    intros [H|[= ->]]; [by left|by right].
  - split; [by left|]. by intros [H|H].
Qed.

Lemma closeExisting_active (agentRunId : string) (w : World) :
  activeStreams (closeExisting agentRunId w) = delete agentRunId (activeStreams w).
Proof.
  unfold closeExisting. destruct (activeStreams w !! agentRunId) eqn:E; [done|].
  symmetry. by apply delete_id.
Qed.

(** Two starts for one run whose session continuations run after both
    calls: the second [EventSource] replaces the first in the registry
    without closing it, so two streams of the run are open and the
    first is registered nowhere. *)
Theorem overlapping_starts_leave_two_open (cb1 cb2 : nat) (agentRunId : string)
    (s1 s2 : option Session) (t1 t2 : string) (now1 now2 : Z) (w : World) :
  accessToken s1 = Some t1 ->
  accessToken s2 = Some t2 ->
  (forall h, h ∈ closed w -> (h < created w)%nat) ->
  (forall r h, activeStreams w !! r = Some h -> (h < created w)%nat) ->
  let w' := setupStream cb2 agentRunId s2 now2
              (setupStream cb1 agentRunId s1 now1
                 (streamAgent agentRunId (streamAgent agentRunId w))) in
  created w' = S (S (created w))
  /\ activeStreams w' !! agentRunId = Some (S (created w))
  /\ (created w ∉ closed w')
  /\ (S (created w) ∉ closed w')
  /\ (forall r, activeStreams w' !! r <> Some (created w)).
Proof.
  intros H1 H2 Hclosed Hreg w'. subst w'.
  unfold setupStream. rewrite H1, H2. simpl.
  unfold streamAgent.
  rewrite (closeExisting_unregistered agentRunId (closeExisting agentRunId w))
    by apply closeExisting_unregisters.
  rewrite created_closeExisting.
  split; [done|].
  split; [apply lookup_insert_eq|].
  assert (Hfresh : forall k, (created w <= k)%nat -> k ∉ closed (closeExisting agentRunId w)).
  { intros k Hk Hin. apply closeExisting_closed in Hin as [Hin|Hin].
    - apply Hclosed in Hin. lia.
    - apply Hreg in Hin. lia. }
  split; [apply Hfresh; lia|].
  split; [apply Hfresh; lia|].
  intros r Hr.
  destruct (decide (r = agentRunId)) as [->|Hne].
  - rewrite lookup_insert_eq in Hr. injection Hr. lia.
  - rewrite lookup_insert_ne in Hr by done.
    rewrite lookup_insert_ne in Hr by done.
    rewrite closeExisting_active in Hr.
    rewrite lookup_delete_ne in Hr by done.
    apply Hreg in Hr. lia.
Qed.


End TransportMore.

(** ** Stream transport: liveness checks *)

Section LivenessFacts.

Import Transport Liveness.


Lemma getAgentStatus_known (agentRunId : string) (session : option Session)
    (answer : StatusFetch) (w : World) :
  agentRunId ∈ nonRunningAgentRuns w ->
  getAgentStatus agentRunId session answer w
  = (w, [], StatusError (notRunningMessage agentRunId)).
Proof.
  intros Hin. unfold getAgentStatus. by rewrite bool_decide_eq_true_2.
Qed.

Lemma stopAgent_registers (agentRunId : string) (session : option Session)
    (response : FetchResult) (w : World) :
  agentRunId ∈ nonRunningAgentRuns (fst (stopAgent agentRunId session response w)).
Proof.
  unfold stopAgent, stopAgent_request, stopAgent_begin.
  destruct (accessToken session); simpl; rewrite nonRunning_closeExisting; set_solver.
Qed.

(** After a stop, however it ended, a status query for the run is
    answered on the spot: no request is sent, the world does not change
    and the query is rejected as not running. *)
Theorem status_after_stop_is_local (agentRunId : string) (s1 s2 : option Session)
    (response : FetchResult) (answer : StatusFetch) (w : World) :
  let w1 := fst (stopAgent agentRunId s1 response w) in
  getAgentStatus agentRunId s2 answer w1
  = (w1, [], StatusError (notRunningMessage agentRunId)).
Proof. intros w1. apply getAgentStatus_known, stopAgent_registers. Qed.

(** A status answer that settles the matter, a run reported in a state
    other than running or an HTTP 404, puts the run into the terminal
    set, and from then on status queries for it send no request. *)
Theorem conclusive_status_is_remembered (agentRunId : string) (session : option Session)
    (token : string) (r : StatusResponse) (later : StatusFetch) (w : World) :
  accessToken session = Some token ->
  (ok r = true /\ exists data s, body r = JS.Ok data /\ JS.getProp data "status" = JS.Ok s
                                 /\ JS.isStr s "running" = false)
  \/ status r = 404%nat ->
  let w1 := fst (fst (getAgentStatus agentRunId session (StatusAnswer r) w)) in
  agentRunId ∈ nonRunningAgentRuns w1
  /\ getAgentStatus agentRunId session later w1
     = (w1, [], StatusError (notRunningMessage agentRunId)).
Proof.
  intros Htok Hcase w1.
  assert (Hin : agentRunId ∈ nonRunningAgentRuns w1).
  { subst w1. unfold getAgentStatus.
    destruct (bool_decide (agentRunId ∈ nonRunningAgentRuns w)) eqn:E.
    { simpl. by apply bool_decide_eq_true in E. }
    rewrite Htok.
    destruct Hcase as [(Hok & data & s & Hb & Hs & Hrun)|H404].
    - rewrite Hok, Hb, Hs, Hrun. simpl. set_solver.
    - assert (Hnok : ok r = false).
      { unfold ok. rewrite H404. reflexivity. }
      rewrite Hnok, H404. simpl. set_solver. }
  split; [done|]. by apply getAgentStatus_known.
Qed.


(** After a transport error the watchdog of the call no longer runs,
    whatever the status query says. *)
Theorem onerror_clears_watchdog (cb h : nat) (agentRunId : string)
    (session : option Session) (answer : StatusFetch) (w : World) :
  cb ∉ watchdogs (fst (onerror cb h agentRunId session answer w)).
Proof.
  unfold onerror.
  set (w0 := setWatchdogs (watchdogs w ∖ {[cb]}) w).
  assert (H0 : cb ∉ watchdogs w0) by (simpl; set_solver).
  assert (H1 : watchdogs (fst (fst (getAgentStatus agentRunId session answer w0)))
               = watchdogs w0).
  { unfold getAgentStatus.
    repeat match goal with
           | |- context [match ?x with _ => _ end] => destruct x; simpl; try done
           | |- context [if ?x then _ else _] => destruct x; simpl; try done
           end. }
  destruct (getAgentStatus agentRunId session answer w0) as [[w1 reqs] o].
  simpl in *. rewrite <- H1 in H0.
  destruct o as [data|msg]; simpl.
  - by destruct (JS.isStr (JS.get data "status") "running").
  - by destruct (isNotFoundErr msg).
Qed.


Lemma getProp_get (v : JSValue) (k : string) (x : JSValue) :
  JS.getProp v k = JS.Ok x -> JS.get v k = x.
Proof. destruct v; simpl; intros H; by inversion H. Qed.

Lemma getAgentStatus_error_world (agentRunId : string) (session : option Session)
    (answer : StatusFetch) (w : World) (m : string) :
  snd (getAgentStatus agentRunId session answer w) = StatusError m ->
  let w1 := fst (fst (getAgentStatus agentRunId session answer w)) in
  trace w1 = trace w /\ closed w1 = closed w /\ activeStreams w1 = activeStreams w
  /\ watchdogs w1 = watchdogs w /\ nonRunningAgentRuns w ⊆ nonRunningAgentRuns w1.
Proof.
  unfold getAgentStatus.
  repeat match goal with
         | |- context [match ?x with _ => _ end] => destruct x; simpl; try done
         | |- context [if ?x then _ else _] => destruct x; simpl; try done
         end; intros _; repeat split; set_solver.
Qed.

Lemma getAgentStatus_not_running (agentRunId : string) (session : option Session)
    (token : string) (r : StatusResponse) (data s : JSValue) (w : World) :
  agentRunId ∉ nonRunningAgentRuns w ->
  accessToken session = Some token ->
  ok r = true -> body r = JS.Ok data -> JS.getProp data "status" = JS.Ok s ->
  JS.isStr s "running" = false ->
  getAgentStatus agentRunId session (StatusAnswer r) w
  = (addNonRunning agentRunId w, [GetStatus agentRunId token], StatusData data).
Proof.
  intros Hnin Htok Hok Hb Hs Hrun. unfold getAgentStatus.
  rewrite bool_decide_eq_false_2 by done. by rewrite Htok, Hok, Hb, Hs, Hrun.
Qed.

Lemma getAgentStatus_created (agentRunId : string) (session : option Session)
    (answer : StatusFetch) (w : World) :
  created (fst (fst (getAgentStatus agentRunId session answer w))) = created w.
Proof.
  unfold getAgentStatus.
  repeat match goal with
         | |- context [match ?x with _ => _ end] => destruct x; simpl; try done
         | |- context [if ?x then _ else _] => destruct x; simpl; try done
         end.
Qed.

Lemma ok_not_404 (r : StatusResponse) : ok r = true -> status r <> 404%nat.
Proof.
  unfold ok. intros H Hs. rewrite Hs in H. discriminate H.
Qed.

Lemma getAgentStatus_error_terminal (agentRunId : string) (session : option Session)
    (answer : StatusFetch) (w : World) (m : string) :
  snd (getAgentStatus agentRunId session answer w) = StatusError m ->
  let w1 := fst (fst (getAgentStatus agentRunId session answer w)) in
  nonRunningAgentRuns w1 ⊆ nonRunningAgentRuns w ∪ {[agentRunId]}
  /\ (agentRunId ∈ nonRunningAgentRuns w1
      <-> agentRunId ∈ nonRunningAgentRuns w
          \/ exists token r,
               accessToken session = Some token /\ answer = StatusAnswer r
               /\ status r = 404%nat).
Proof.
  unfold getAgentStatus.
  destruct (bool_decide (agentRunId ∈ nonRunningAgentRuns w)) eqn:Hdec.
  { apply bool_decide_eq_true in Hdec. simpl. intros _.
    split; [set_solver|]. split; [by left|done]. }
  apply bool_decide_eq_false in Hdec.
  destruct (accessToken session) as [token|].
  2:{ simpl. intros _. split; [set_solver|].
      split; [by left|]. intros [H|(t & r & Ht & _)]; [done|discriminate Ht]. }
  destruct answer as [msg|r].
  { simpl. intros _. split; [set_solver|].
    split; [by left|]. intros [H|(t & r & _ & Ha & _)]; [done|discriminate Ha]. }
  destruct (ok r) eqn:Hok.
  - pose proof (ok_not_404 r Hok) as Hne.
    assert (Hsame : forall reqs e,
      let w1 := fst (fst (w, reqs, StatusError e) : World * list Request) in
      nonRunningAgentRuns w1 ⊆ nonRunningAgentRuns w ∪ {[agentRunId]}
      /\ (agentRunId ∈ nonRunningAgentRuns w1
          <-> agentRunId ∈ nonRunningAgentRuns w
              \/ exists token0 r0,
                   Some token = Some token0 /\ StatusAnswer r = StatusAnswer r0
                   /\ status r0 = 404%nat)).
    { intros reqs e. simpl. split; [set_solver|]. split; [by left|].
      intros [H|(t & r0 & _ & [= <-] & H404)]; done. }
    destruct (body r) as [data|e]; [|intros _; apply Hsame].
    destruct (JS.getProp data "status") as [st|e]; [|intros _; apply Hsame].
    simpl. discriminate.
  - simpl. intros _. destruct (status r =? 404)%nat eqn:E404; simpl.
    + apply Nat.eqb_eq in E404. split; [set_solver|].
      split; [intros _; right; by exists token, r|intros _; set_solver].
    + apply Nat.eqb_neq in E404. split; [set_solver|].
      split; [by left|]. intros [H|(t & r0 & _ & [= <-] & H404)]; done.
Qed.

(** A watchdog check whose status query fails, for whatever reason,
    ends nothing: no callback is called and the stream stays open and
    registered; the time stamp is renewed, so that the watchdog stays
    quiet for the next fifteen seconds.  The terminal set changes in
    one case only: a 404 answer adds the run to it. *)
Theorem watchdog_failed_query_keeps_stream (cb h : nat) (agentRunId : string)
    (now : Z) (session : option Session) (answer : StatusFetch) (w : World)
    (m : string) :
  15000 < now - default 0 (lastStreamMessage w) ->
  snd (getAgentStatus agentRunId session answer w) = StatusError m ->
  let w' := fst (watchdogTick cb h agentRunId now session answer w) in
  trace w' = trace w
  /\ closed w' = closed w
  /\ activeStreams w' = activeStreams w
  /\ watchdogs w' = watchdogs w
  /\ lastStreamMessage w' = Some now
  /\ created w' = created w
  /\ nonRunningAgentRuns w ⊆ nonRunningAgentRuns w'
  /\ nonRunningAgentRuns w' ⊆ nonRunningAgentRuns w ∪ {[agentRunId]}
  /\ (agentRunId ∈ nonRunningAgentRuns w'
      <-> agentRunId ∈ nonRunningAgentRuns w
          \/ exists token r,
               accessToken session = Some token /\ answer = StatusAnswer r
               /\ status r = 404%nat)
  /\ (forall now' session' answer',
        now' - now <= 15000 ->
        watchdogTick cb h agentRunId now' session' answer' w' = (w', [])).
Proof.
  intros Hlate Herr w'. subst w'. unfold watchdogTick.
  apply Z.ltb_lt in Hlate. rewrite Hlate.
  destruct (getAgentStatus_error_world _ _ _ _ _ Herr) as (Ht & Hc & Ha & Hw & Hn).
  destruct (getAgentStatus_error_terminal _ _ _ _ _ Herr) as (Hupper & Hiff).
  pose proof (getAgentStatus_created agentRunId session answer w) as Hcr.
  destruct (getAgentStatus agentRunId session answer w) as [[w1 reqs] o].
  simpl in *. subst o. simpl.
  repeat (split; [done|]).
  intros now' session' answer' Hsoon.
  destruct (15000 <? now' - now) eqn:E; [apply Z.ltb_lt in E; lia|done].
Qed.

(** The watchdog does not act on a not-found answer: an HTTP 404 marks
    the run terminal inside the status query, yet the stream stays open
    and registered and [onClose] is not called. *)
Theorem watchdog_ignores_not_found (cb h : nat) (agentRunId : string)
    (now : Z) (session : option Session) (token : string) (r : StatusResponse)
    (w : World) :
  15000 < now - default 0 (lastStreamMessage w) ->
  agentRunId ∉ nonRunningAgentRuns w ->
  accessToken session = Some token ->
  status r = 404%nat ->
  let res := watchdogTick cb h agentRunId now session (StatusAnswer r) w in
  snd res = [GetStatus agentRunId token]
  /\ agentRunId ∈ nonRunningAgentRuns (fst res)
  /\ trace (fst res) = trace w
  /\ closed (fst res) = closed w
  /\ activeStreams (fst res) = activeStreams w.
Proof.
  intros Hlate Hnin Htok H404 res. subst res. unfold watchdogTick, getAgentStatus.
  apply Z.ltb_lt in Hlate. rewrite Hlate.
  rewrite bool_decide_eq_false_2 by done. rewrite Htok.
  assert (Hnok : ok r = false) by (unfold ok; by rewrite H404).
  rewrite Hnok, H404. simpl. split; [done|]. split; [set_solver|]. done.
Qed.

Lemma watchdogTick_not_running (cb h : nat) (agentRunId : string)
    (now : Z) (session : option Session) (token : string) (r : StatusResponse)
    (data s : JSValue) (w : World) :
  15000 < now - default 0 (lastStreamMessage w) ->
  agentRunId ∉ nonRunningAgentRuns w ->
  accessToken session = Some token ->
  ok r = true -> body r = JS.Ok data -> JS.getProp data "status" = JS.Ok s ->
  JS.isStr s "running" = false ->
  watchdogTick cb h agentRunId now session (StatusAnswer r) w
  = (touch now (terminate cb h agentRunId (addNonRunning agentRunId w)),
     [GetStatus agentRunId token]).
Proof.
  intros Hlate Hnin Htok Hok Hb Hs Hrun. unfold watchdogTick.
  apply Z.ltb_lt in Hlate. rewrite Hlate.
  rewrite (getAgentStatus_not_running _ _ _ _ _ _ _ Hnin Htok Hok Hb Hs Hrun).
  by rewrite (getProp_get _ _ _ Hs), Hrun.
Qed.

(** A watchdog check that learns the run is no longer running ends the
    subscription: the run becomes terminal, the [EventSource] is closed
    and unregistered and [onClose] is called once. *)
Theorem watchdog_confirmed_end (cb h : nat) (agentRunId : string)
    (now : Z) (session : option Session) (token : string) (r : StatusResponse)
    (data s : JSValue) (w : World) :
  15000 < now - default 0 (lastStreamMessage w) ->
  agentRunId ∉ nonRunningAgentRuns w ->
  accessToken session = Some token ->
  ok r = true -> body r = JS.Ok data -> JS.getProp data "status" = JS.Ok s ->
  JS.isStr s "running" = false ->
  let res := watchdogTick cb h agentRunId now session (StatusAnswer r) w in
  snd res = [GetStatus agentRunId token]
  /\ trace (fst res) = (trace w ++ [EventSourceClose h; OnClose cb])%list
  /\ agentRunId ∈ nonRunningAgentRuns (fst res)
  /\ activeStreams (fst res) = delete agentRunId (activeStreams w)
  /\ closed (fst res) = closed w ∪ {[h]}.
Proof.
  intros Hlate Hnin Htok Hok Hb Hs Hrun res. subst res.
  rewrite (watchdogTick_not_running _ _ _ _ _ _ _ _ _ _ Hlate Hnin Htok Hok Hb Hs Hrun).
  simpl. split; [done|]. split; [by rewrite <- app_assoc|]. split; [set_solver|]. done.
Qed.

(** The event handler does not stop the watchdog.  After a completion
    status without a finality text has closed the subscription (its
    calls of [onMessage] and [onClose] returning), a watchdog check
    that finds the run no longer running closes again and calls
    [onClose] a second time for the same caller. *)
Theorem completion_then_watchdog_closes_twice (caller : Caller) (cb h : nat)
    (agentRunId : string) (t1 t2 : Z) (rawData : string) (session : option Session)
    (token : string) (r : StatusResponse) (data s : JSValue) (w : World) :
  JSString.includes rawData pingMarker = false ->
  isNotFound rawData = false ->
  isCompletion rawData = true ->
  isFinalCompletion rawData = false ->
  caller (trace w) (OnMessage cb rawData) = Returns ->
  caller (trace w ++ [OnMessage cb rawData; EventSourceClose h])%list (OnClose cb)
  = Returns ->
  agentRunId ∉ nonRunningAgentRuns w ->
  15000 < t2 - t1 ->
  accessToken session = Some token ->
  ok r = true -> body r = JS.Ok data -> JS.getProp data "status" = JS.Ok s ->
  JS.isStr s "running" = false ->
  let w1 := onmessage caller cb h agentRunId t1 rawData w in
  let w2 := fst (watchdogTick cb h agentRunId t2 session (StatusAnswer r) w1) in
  watchdogs w1 = watchdogs w
  /\ trace w2
     = (trace w ++ [OnMessage cb rawData; EventSourceClose h; OnClose cb;
                    EventSourceClose h; OnClose cb])%list
  /\ closeCalls cb (trace w2)
     = (closeCalls cb (trace w) ++ [OnClose cb; OnClose cb])%list.
Proof.
  intros Hping Hnf Hc Hfin Hmsg Hclose Hnin Hlate Htok Hok Hb Hs Hrun w1 w2.
  assert (Hw1 : w1 = finish cb h agentRunId (emit (OnMessage cb rawData) (touch t1 w))).
  { subst w1. rewrite (onmessage_completion _ _ _ _ _ _ _ Hping Hnf Hc Hfin).
    rewrite catching_forward_close. cbn [trace touch]. by rewrite Hmsg, Hclose. }
  assert (Hnin1 : agentRunId ∉ nonRunningAgentRuns w1) by by rewrite Hw1.
  assert (Hlate1 : 15000 < t2 - default 0 (lastStreamMessage w1)) by by rewrite Hw1.
  subst w2.
  rewrite (watchdogTick_not_running _ _ _ _ _ _ _ _ _ _ Hlate1 Hnin1 Htok Hok Hb Hs Hrun).
  rewrite Hw1. simpl.
  split; [done|].
  assert (Htrace :
    (((((trace w ++ [OnMessage cb rawData]) ++ [EventSourceClose h]) ++ [OnClose cb])
        ++ [EventSourceClose h]) ++ [OnClose cb])%list
     = (trace w ++ [OnMessage cb rawData; EventSourceClose h; OnClose cb;
                    EventSourceClose h; OnClose cb])%list).
  { by rewrite <- !app_assoc. }
  rewrite Htrace. split; [done|].
  unfold closeCalls. rewrite List.filter_app. simpl.
  by rewrite Nat.eqb_refl.
Qed.

End LivenessFacts.

(** ** Stream transport: what every reachable world satisfies *)

Section RegistryFacts.

Import Transport Liveness.

Ltac same_registry :=
  unfold sameRegistry; simpl; repeat split; try done;
  intros; rewrite ?in_app_iff in *; simpl in *; naive_solver.

Lemma sameRegistry_refl (w : World) : sameRegistry w w.
Proof. same_registry. Qed.

Lemma sameRegistry_trans (w1 w2 w3 : World) :
  sameRegistry w1 w2 -> sameRegistry w2 w3 -> sameRegistry w1 w3.
Proof.
  intros (Ha & Hc & Hd & Ht) (Ha' & Hc' & Hd' & Ht').
  repeat split; try congruence; intros H; [apply Ht, Ht', H | apply Ht', Ht, H].
Qed.

Lemma sameRegistry_sourceOf (w w' : World) (h : nat) (r : string) :
  sameRegistry w w' -> sourceOf h r w' <-> sourceOf h r w.
Proof.
  intros (_ & _ & _ & Ht). unfold sourceOf.
  split; intros (token & now & H); exists token, now; by apply Ht.
Qed.

Lemma registryOk_same (w w' : World) :
  registryOk w -> sameRegistry w w' -> registryOk w'.
Proof.
  intros (HA & HB & HC & HD) Hs.
  pose proof (sameRegistry_sourceOf w w') as Hso.
  destruct Hs as (Ha & Hc & Hd & Ht).
  assert (Hs : sameRegistry w w') by done.
  repeat split.
  - apply Hso; [done|]. rewrite Ha in H. by apply HA.
  - rewrite Hd. rewrite Ha in H. by apply HA in H as [_ H].
  - intros h r token now H. rewrite Hc. apply Ht in H. by eapply HB.
  - intros h r r' H1 H2. apply (Hso h r Hs) in H1. apply (Hso h r' Hs) in H2.
    by eapply HC.
  - intros h H. rewrite Hc. rewrite Hd in H. by apply HD.
Qed.

Lemma same_emit (e : Effect) (w : World) :
  (forall h r token now, e <> NewEventSource h r token now) -> sameRegistry w (emit e w).
Proof.
  intros He. unfold sameRegistry. simpl. repeat split; try done.
  - intros H. apply in_app_iff in H as [H|[H|[]]]; [done|]. by apply He in H.
  - intros H. apply in_app_iff. by left.
Qed.

Lemma same_addNonRunning (r : string) (w : World) : sameRegistry w (addNonRunning r w).
Proof. same_registry. Qed.

Lemma same_touch (now : Z) (w : World) : sameRegistry w (touch now w).
Proof. same_registry. Qed.

Lemma same_setWatchdogs (ws : gset nat) (w : World) : sameRegistry w (setWatchdogs ws w).
Proof. same_registry. Qed.

Lemma registryOk_close_unregister (h : nat) (r : string) (w : World) :
  registryOk w -> sourceOf h r w -> registryOk (deleteActive r (closeSource h w)).
Proof.
  intros (HA & HB & HC & HD) Hsrc.
  assert (Hso : forall h' r', sourceOf h' r' (deleteActive r (closeSource h w))
                              <-> sourceOf h' r' w).
  { intros h' r'. unfold sourceOf. simpl.
    split; intros (token & now & H); exists token, now.
    - apply in_app_iff in H as [H|[H|[]]]; [done|discriminate].
    - apply in_app_iff. by left. }
  repeat split.
  - apply Hso. simpl in H.
    apply lookup_delete_Some in H as [_ H]. by apply HA.
  - simpl in *. apply lookup_delete_Some in H as [Hne H].
    intros Hin. apply elem_of_union in Hin as [Hin|Hin].
    + by apply HA in H as [_ H].
    + apply elem_of_singleton in Hin as ->.
      apply HA in H as [H _]. apply Hne. by eapply HC.
  - intros h' r' token now H. simpl in *.
    apply in_app_iff in H as [H|[H|[]]]; [by eapply HB|discriminate].
  - intros h' r1 r2 H1 H2. apply Hso in H1. apply Hso in H2. by eapply HC.
  - intros h' H. simpl in *. apply elem_of_union in H as [H|H]; [by apply HD|].
    apply elem_of_singleton in H as ->.
    destruct Hsrc as (token & now & Hsrc). by eapply HB.
Qed.

Lemma registryOk_closeExisting (r : string) (w : World) :
  registryOk w -> registryOk (closeExisting r w).
Proof.
  intros Hok. unfold closeExisting.
  destruct (activeStreams w !! r) as [h|] eqn:E; [|done].
  apply registryOk_close_unregister; [done|].
  destruct Hok as (HA & _). by apply HA in E as [E _].
Qed.

Lemma registryOk_openSource (r token : string) (now : Z) (w : World) :
  registryOk w -> registryOk (openSource r token now w).
Proof.
  intros (HA & HB & HC & HD).
  assert (Hso : forall h' r', sourceOf h' r' (openSource r token now w)
                  <-> sourceOf h' r' w \/ (h' = created w /\ r' = r)).
  { intros h' r'. unfold sourceOf. simpl. split.
    - intros (t & n & H). apply in_app_iff in H as [H|[H|[]]].
      + left. by exists t, n.
      + right. by inversion H.
    - intros [(t & n & H)|[-> ->]].
      + exists t, n. apply in_app_iff. by left.
      + exists token, now. apply in_app_iff. right. by left. }
  assert (Hlt : forall h' r', sourceOf h' r' w -> (h' < created w)%nat).
  { intros h' r' (t & n & H). by eapply HB. }
  repeat split.
  - apply Hso. simpl in H.
    destruct (decide (r0 = r)) as [->|Hne].
    + rewrite lookup_insert_eq in H. injection H as <-. by right.
    + rewrite lookup_insert_ne in H by done. left. by apply HA.
  - simpl in *. destruct (decide (r0 = r)) as [->|Hne].
    + rewrite lookup_insert_eq in H. injection H as <-.
      intros Hin. apply HD in Hin. lia.
    + rewrite lookup_insert_ne in H by done. by apply HA in H as [_ H].
  - intros h' r' t n H. simpl in *.
    apply in_app_iff in H as [H|[H|[]]].
    + apply HB in H. lia.
    + inversion H. lia.
  - intros h' r1 r2 H1 H2. apply Hso in H1. apply Hso in H2.
    destruct H1 as [H1|[-> ->]], H2 as [H2|[E2 ->]]; try done.
    + by eapply HC.
    + subst h'. apply Hlt in H1. lia.
    + apply Hlt in H2. lia.
  - intros h' H. simpl in *. apply HD in H. lia.
Qed.

Lemma registryOk_finish (cb h : nat) (r : string) (w : World) :
  registryOk w -> sourceOf h r w -> registryOk (finish cb h r w).
Proof.
  intros Hok Hsrc. unfold finish.
  eapply registryOk_same; [by apply registryOk_close_unregister|].
  by apply same_emit.
Qed.

Lemma registryOk_terminate (cb h : nat) (r : string) (w : World) :
  registryOk w -> sourceOf h r w -> registryOk (terminate cb h r w).
Proof.
  intros Hok Hsrc. unfold terminate. apply registryOk_finish.
  - eapply registryOk_same; [done|apply same_addNonRunning].
  - by apply (sameRegistry_sourceOf w); [apply same_addNonRunning|].
Qed.

Lemma same_getAgentStatus (r : string) (session : option Session)
    (answer : StatusFetch) (w : World) :
  sameRegistry w (fst (fst (getAgentStatus r session answer w))).
Proof.
  unfold getAgentStatus.
  repeat match goal with
         | |- context [match ?x with _ => _ end] => destruct x; simpl
         | |- context [if ?x then _ else _] => destruct x; simpl
         end;
    first [apply sameRegistry_refl | apply same_addNonRunning].
Qed.

Lemma sourceOf_ext (h : nat) (r : string) (w w' : World) :
  sourceOf h r w -> (forall e, In e (trace w) -> In e (trace w')) -> sourceOf h r w'.
Proof. intros (t & n & H) Hsub. exists t, n. by apply Hsub. Qed.

Ltac source_kept :=
  eapply sourceOf_ext; [eassumption|];
  simpl; intros; rewrite ?in_app_iff; tauto.

Lemma registryOk_forward (caller : Caller) (cb : nat) (e : Effect) (w : World) :
  (forall h r token now, e <> NewEventSource h r token now) ->
  registryOk w -> registryOk (catching caller cb (call caller e w)).
Proof.
  intros He Hok. rewrite catching_forward.
  assert (H1 : registryOk (emit e w)).
  { eapply registryOk_same; [exact Hok|]. by apply same_emit. }
  destruct (caller (trace w) e) as [|error]; [exact H1|].
  eapply registryOk_same; [exact H1|]. by apply same_emit.
Qed.

Lemma registryOk_forward_close (caller : Caller) (cb h : nat) (r : string) (e : Effect)
    (w : World) :
  (forall h r token now, e <> NewEventSource h r token now) ->
  registryOk w -> sourceOf h r w ->
  registryOk (catching caller cb (andThen (call caller e w) (closing caller cb h r))).
Proof.
  intros He Hok Hsrc. rewrite catching_forward_close.
  assert (H1 : registryOk (emit e w)).
  { eapply registryOk_same; [exact Hok|]. by apply same_emit. }
  assert (H2 : registryOk (finish cb h r (emit e w))).
  { apply registryOk_finish; [exact H1|source_kept]. }
  destruct (caller (trace w) e) as [|error].
  - destruct (caller (trace w ++ [e; EventSourceClose h])%list (OnClose cb)) as [|error];
      [exact H2|].
    eapply registryOk_same; [exact H2|]. by apply same_emit.
  - eapply registryOk_same; [exact H1|]. by apply same_emit.
Qed.

Lemma registryOk_onmessage (caller : Caller) (cb h : nat) (r : string) (now : Z)
    (rawData : string) (w : World) :
  registryOk w -> sourceOf h r w -> registryOk (onmessage caller cb h r now rawData w).
Proof.
  intros Hok Hsrc. unfold onmessage, onmessageTry.
  assert (Hok0 : registryOk (touch now w))
    by (eapply registryOk_same; [done|apply same_touch]).
  destruct (JSString.includes rawData pingMarker); [done|].
  destruct (String.eqb rawData "" || String.eqb (JSString.trim rawData) ""); [done|].
  assert (Hadd : registryOk (addNonRunning r (touch now w)))
    by (eapply registryOk_same; [done|apply same_addNonRunning]).
  destruct (isNotFound rawData).
  { apply registryOk_forward_close; [done|exact Hadd|source_kept]. }
  destruct (isCompletion rawData).
  { destruct (isFinalCompletion rawData);
      (apply registryOk_forward_close; [done| |source_kept]); done. }
  destruct (isThreadRunEnd rawData).
  { apply registryOk_forward_close; [done|exact Hadd|source_kept]. }
  by apply registryOk_forward.
Qed.

Lemma registryOk_step (w w' : World) : Step w w' -> registryOk w -> registryOk w'.
Proof.
  intros Hstep Hok. destruct Hstep.
  - by apply registryOk_closeExisting.
  - unfold setupStream. destruct (accessToken session).
    + eapply registryOk_same; [by apply registryOk_openSource|apply same_setWatchdogs].
    + eapply registryOk_same; [done|].
      eapply sameRegistry_trans; by apply same_emit.
  - unfold cleanup.
    eapply registryOk_same; [by apply registryOk_closeExisting|apply same_setWatchdogs].
  - unfold stopAgent, stopAgent_request, stopAgent_begin.
    assert (H1 : registryOk (closeExisting agentRunId (addNonRunning agentRunId w))).
    { apply registryOk_closeExisting.
      eapply registryOk_same; [done|apply same_addNonRunning]. }
    destruct (accessToken session); simpl; [|done].
    eapply registryOk_same; [done|]. by apply same_emit.
  - eapply registryOk_same; [done|apply same_getAgentStatus].
  - eapply registryOk_same; [done|apply same_touch].
  - by apply registryOk_onmessage.
  - unfold onerror.
    set (w0 := setWatchdogs (watchdogs w ∖ {[cb]}) w).
    assert (Hs0 : sameRegistry w w0) by apply same_setWatchdogs.
    pose proof (same_getAgentStatus agentRunId session answer w0) as Hs1.
    destruct (getAgentStatus agentRunId session answer w0) as [[w1 reqs] o].
    simpl in *.
    assert (Hs : sameRegistry w w1) by by eapply sameRegistry_trans.
    assert (Hok1 : registryOk w1) by by eapply registryOk_same.
    assert (Hsrc1 : sourceOf h agentRunId w1) by by apply (sameRegistry_sourceOf w).
    destruct o as [data|msg]; simpl.
    + destruct (JS.isStr (JS.get data "status") "running"); [done|].
      by apply registryOk_terminate.
    + eapply registryOk_same; [|by apply same_emit].
      destruct (isNotFoundErr msg); [by apply registryOk_terminate|done].
  - unfold watchdogTick.
    destruct (15000 <? now - default 0 (lastStreamMessage w)); [|done].
    pose proof (same_getAgentStatus agentRunId session answer w) as Hs.
    destruct (getAgentStatus agentRunId session answer w) as [[w1 reqs] o].
    simpl in *.
    assert (Hok1 : registryOk w1) by by eapply registryOk_same.
    assert (Hsrc1 : sourceOf h agentRunId w1) by by apply (sameRegistry_sourceOf w).
    eapply registryOk_same; [|apply same_touch].
    destruct o as [data|msg]; [|done].
    destruct (JS.isStr (JS.get data "status") "running"); [done|].
    by apply registryOk_terminate.
Qed.

Lemma registryOk_empty : registryOk emptyWorld.
Proof.
  unfold registryOk. simpl.
  split; [intros r h H; by rewrite lookup_empty in H|].
  split; [intros h r t n []|].
  split; [intros h r r' (t & n & [])|].
  intros h H. set_solver.
Qed.

(** In every world the module can reach, each stream in the registry is
    an [EventSource] that was made for the run it is registered under
    and has not been closed: the registry never hands out a dead stream
    or a stream of another run. *)
Theorem registered_streams_are_open (w : World) (r : string) (h : nat) :
  reachable w ->
  activeStreams w !! r = Some h ->
  sourceOf h r w /\ (h ∉ closed w) /\ (h < created w)%nat.
Proof.
  intros Hreach Hreg.
  assert (Hok : registryOk w).
  { unfold reachable in Hreach.
    eapply (rtc_ind_r (fun w0 => registryOk w0) emptyWorld);
      [apply registryOk_empty| |exact Hreach].
    intros y z _ Hstep IH. by eapply registryOk_step. }
  destruct Hok as (HA & HB & _).
  destruct (HA _ _ Hreg) as [Hsrc Hopen].
  split; [done|]. split; [done|].
  destruct Hsrc as (t & n & Hsrc). by eapply HB.
Qed.

Lemma getAgentStatus_terminal_grows (r : string) (session : option Session)
    (answer : StatusFetch) (w : World) :
  nonRunningAgentRuns w ⊆ nonRunningAgentRuns (fst (fst (getAgentStatus r session answer w))).
Proof.
  unfold getAgentStatus.
  repeat match goal with
         | |- context [match ?x with _ => _ end] => destruct x; simpl
         | |- context [if ?x then _ else _] => destruct x; simpl
         end; set_solver.
Qed.

Lemma terminate_terminal_grows (cb h : nat) (r : string) (w : World) :
  nonRunningAgentRuns w ⊆ nonRunningAgentRuns (terminate cb h r w).
Proof. simpl. set_solver. Qed.

Lemma step_terminal_grows (w w' : World) :
  Step w w' -> nonRunningAgentRuns w ⊆ nonRunningAgentRuns w'.
Proof.
  intros Hstep. destruct Hstep.
  - unfold streamAgent. by rewrite nonRunning_closeExisting.
  - unfold setupStream. by destruct (accessToken session).
  - unfold cleanup. simpl. by rewrite nonRunning_closeExisting.
  - unfold stopAgent, stopAgent_request, stopAgent_begin.
    destruct (accessToken session); simpl; rewrite nonRunning_closeExisting;
      simpl; set_solver.
  - apply getAgentStatus_terminal_grows.
  - done.
  - unfold onmessage, onmessageTry.
    repeat match goal with
           | |- context [if ?x then _ else _] => destruct x; simpl
           end;
      rewrite ?catching_forward_close, ?catching_forward;
      repeat match goal with
             | |- context [match ?x with _ => _ end] => destruct x; simpl
             end; set_solver.
  - unfold onerror.
    pose proof (getAgentStatus_terminal_grows agentRunId session answer
                  (setWatchdogs (watchdogs w ∖ {[cb]}) w)) as Hg.
    destruct (getAgentStatus agentRunId session answer
                (setWatchdogs (watchdogs w ∖ {[cb]}) w)) as [[w1 reqs] o].
    simpl in Hg. destruct o as [data|msg]; simpl.
    + destruct (JS.isStr (JS.get data "status") "running"); simpl; set_solver.
    + destruct (isNotFoundErr msg); simpl; set_solver.
  - unfold watchdogTick.
    destruct (15000 <? now - default 0 (lastStreamMessage w)); [|done].
    pose proof (getAgentStatus_terminal_grows agentRunId session answer w) as Hg.
    destruct (getAgentStatus agentRunId session answer w) as [[w1 reqs] o].
    simpl in Hg. destruct o as [data|msg]; simpl; [|done].
    destruct (JS.isStr (JS.get data "status") "running"); simpl; set_solver.
Qed.

(** The terminal set only grows: a run that is in it stays in it
    through every later call, continuation and event. *)
Theorem terminal_set_never_shrinks (w w' : World) (r : string) :
  rtc Step w w' -> r ∈ nonRunningAgentRuns w -> r ∈ nonRunningAgentRuns w'.
Proof.
  intros Hsteps. induction Hsteps as [|w1 w2 w3 Hstep _ IH]; [done|].
  intros Hin. apply IH. by apply (step_terminal_grows _ _ Hstep).
Qed.

End RegistryFacts.

(** ** Replay: a whole reveal, and what follows it *)

Section PlaybackFacts.

Import Replay.

Lemma substring0_all (s : string) : JSString.substring0 (String.length s) s = s.
Proof.
  unfold JSString.substring0. induction s as [|c s IH]; simpl; [done|]. by rewrite IH.
Qed.

(** What [startPlayback] returns when it starts a reveal. *)
Lemma startPlayback_started (t : SharedThread) (timer : nat) (st st1 : ReplayState)
    (message : SharedMessage) :
  startPlayback (Some t) timer st = (st1, Some message) ->
  isPlaying st = false
  /\ 0 <= currentMessageIndex st < Z.of_nat (length (messages t))
  /\ messages t !! Z.to_nat (currentMessageIndex st) = Some message
  /\ st1 = {| isPlaying := true;
              currentMessageIndex := currentMessageIndex st;
              streamingText := "";
              isStreamingComplete := false;
              streamingIntervalRef := Some timer;
              liveIntervals := liveIntervals st ∪ {[timer]} |}.
Proof.
  unfold startPlayback. intros H.
  destruct (isPlaying st); [by inversion H|].
  destruct (currentMessageIndex st <? Z.of_nat (length (messages t))) eqn:Hlt;
    [|by inversion H].
  apply Z.ltb_lt in Hlt. injection H as Hst Hmsg. unfold messageAt in Hmsg.
  destruct (currentMessageIndex st <? 0) eqn:E; [discriminate|].
  apply Z.ltb_ge in E.
  split; [reflexivity|]. split; [lia|]. split; [exact Hmsg|by symmetry].
Qed.

(** Within the content, the firings of the interval leave the timers
    alone. *)
Lemma reveal_within_timers (message : SharedMessage) (n charIndex : nat)
    (st : ReplayState) :
  (charIndex + n <= String.length (content message))%nat ->
  let r := reveal message n charIndex st in
  liveIntervals (snd r) = liveIntervals st
  /\ streamingIntervalRef (snd r) = streamingIntervalRef st.
Proof.
  revert charIndex st. induction n as [|n IH]; intros charIndex st Hle; simpl; [done|].
  unfold streamMessage.
  destruct (charIndex <? String.length (content message))%nat eqn:E.
  2: { apply Nat.ltb_ge in E. lia. }
  match goal with
  | |- context [reveal message n (S charIndex) ?s] =>
      destruct (IH (S charIndex) s ltac:(lia)) as (H1 & H2)
  end.
  by rewrite H1, H2.
Qed.

Lemma reveal_last (message : SharedMessage) (n charIndex : nat) (st : ReplayState) :
  reveal message (S n) charIndex st
  = streamMessage message (fst (reveal message n charIndex st))
      (snd (reveal message n charIndex st)).
Proof.
  revert charIndex st. induction n as [|k IH]; intros ci st.
  - simpl. by destruct (streamMessage message ci st).
  - change (reveal message (S (S k)) ci st)
      with (let '(ci', st') := streamMessage message ci st in
            reveal message (S k) ci' st').
    change (reveal message (S k) ci st)
      with (let '(ci', st') := streamMessage message ci st in
            reveal message k ci' st').
    destruct (streamMessage message ci st) as [ci' st']. apply IH.
Qed.

Lemma reveal_to_the_end (message : SharedMessage) (st1 : ReplayState) (timer : nat) :
  streamingText st1 = "" ->
  streamingIntervalRef st1 = Some timer ->
  let st2 := snd (reveal message (S (String.length (content message))) 0 st1) in
  isStreamingComplete st2 = true
  /\ streamingText st2 = content message
  /\ isPlaying st2 = isPlaying st1
  /\ currentMessageIndex st2 = currentMessageIndex st1
  /\ streamingIntervalRef st2 = Some timer
  /\ liveIntervals st2 = liveIntervals st1 ∖ {[timer]}.
Proof.
  intros Hempty Href st2. subst st2.
  set (n := String.length (content message)).
  rewrite reveal_last.
  destruct (reveal_within message n 0 st1 ltac:(simpl; subst n; lia))
    as (Hfst & Htext & Hplay & Hidx & _).
  destruct (reveal_within_timers message n 0 st1 ltac:(simpl; subst n; lia))
    as (Hlive & Hr).
  unfold streamMessage. rewrite Hfst. simpl.
  fold n. rewrite Nat.ltb_irrefl. simpl.
  rewrite Htext, Hplay, Hidx, Hr, Href, Hlive. simpl.
  split; [done|]. split; [|done].
  destruct (n =? 0)%nat eqn:E.
  - apply Nat.eqb_eq in E. subst n. rewrite Hempty.
    destruct (content message); [done|discriminate].
  - subst n. apply substring0_all.
Qed.

(** A reveal runs to its end: after one firing of the interval per
    character and one more, the whole content is in the streaming text,
    the reveal is marked complete, the interval is cleared, and the
    page shows the cleaned text of the message. *)
Theorem reveal_completes (t : SharedThread) (timer : nat) (st st1 : ReplayState)
    (message : SharedMessage) :
  startPlayback (Some t) timer st = (st1, Some message) ->
  let st2 := snd (reveal message (S (String.length (content message))) 0 st1) in
  isStreamingComplete st2 = true
  /\ streamingText st2 = content message
  /\ isPlaying st2 = true
  /\ currentMessageIndex st2 = currentMessageIndex st
  /\ (timer ∉ liveIntervals st2)
  /\ displayContent message (Z.to_nat (currentMessageIndex st)) st2
     = clean (parseAttachments (content message)).
Proof.
  intros Hstart st2.
  destruct (startPlayback_started _ _ _ _ _ Hstart) as (_ & _ & _ & Hst1).
  destruct (reveal_to_the_end message st1 timer) as (Hc & Ht & Hp & Hi & _ & Hl);
    [by rewrite Hst1|by rewrite Hst1|].
  fold st2 in Hc, Ht, Hp, Hi, Hl.
  rewrite Hst1 in Hp, Hi. simpl in Hp, Hi.
  split; [done|]. split; [done|]. split; [done|]. split; [done|].
  split; [rewrite Hl; set_solver|].
  unfold displayContent, shouldShowStreaming. rewrite Hc. simpl.
  by rewrite andb_false_r.
Qed.

(** Playback does not go on by itself.  When the settle timeout that
    follows a finished reveal has advanced the index, the page is still
    playing, no reveal interval is live for it, [startPlayback] does
    nothing, and the message now current is shown with the empty
    streaming text. *)
Theorem playback_stalls_after_advance (t : SharedThread) (timer timer' : nat)
    (st st1 : ReplayState) (message next : SharedMessage) :
  startPlayback (Some t) timer st = (st1, Some message) ->
  let st2 := snd (reveal message (S (String.length (content message))) 0 st1) in
  let st3 := advance st2 in
  let index := Z.to_nat (currentMessageIndex st3) in
  isPlaying st3 = true
  /\ currentMessageIndex st3 = currentMessageIndex st + 1
  /\ (timer ∉ liveIntervals st3)
  /\ startPlayback (Some t) timer' st3 = (st3, None)
  /\ displayContent next index st3 = "".
Proof.
  intros Hstart st2 st3 index.
  destruct (startPlayback_started _ _ _ _ _ Hstart) as (_ & Hidx & _ & Hst1).
  destruct (reveal_to_the_end message st1 timer) as (Hc & Ht & Hp & Hi & _ & Hl);
    [by rewrite Hst1|by rewrite Hst1|].
  fold st2 in Hc, Ht, Hp, Hi, Hl.
  rewrite Hst1 in Hp, Hi. simpl in Hp, Hi.
  assert (Hplay3 : isPlaying st3 = true) by done.
  split; [done|].
  split; [subst st3; simpl; by rewrite Hi|].
  split; [subst st3; simpl; rewrite Hl; set_solver|].
  split; [unfold startPlayback; by rewrite Hplay3|].
  unfold displayContent, shouldShowStreaming. subst index.
  rewrite Hplay3. subst st3. simpl. rewrite Hi.
  rewrite Z2Nat.id by lia. by rewrite Z.eqb_refl.
Qed.

(** Pause and resume: pressing play after a pause starts the reveal of
    the current message again from its beginning, with a new interval;
    the interval of the interrupted reveal is cleared. *)
Theorem resume_restarts_current_message (t : SharedThread) (old timer : nat)
    (st : ReplayState) :
  0 <= currentMessageIndex st < Z.of_nat (length (messages t)) ->
  streamingIntervalRef st = Some old ->
  old <> timer ->
  let r := startPlayback (Some t) timer (pausePlayback st) in
  snd r = messages t !! Z.to_nat (currentMessageIndex st)
  /\ is_Some (snd r)
  /\ isPlaying (fst r) = true
  /\ currentMessageIndex (fst r) = currentMessageIndex st
  /\ streamingText (fst r) = ""
  /\ isStreamingComplete (fst r) = false
  /\ (old ∉ liveIntervals (fst r))
  /\ timer ∈ liveIntervals (fst r).
Proof.
  intros Hidx Href Hne r. subst r. unfold startPlayback. simpl.
  destruct (currentMessageIndex st <? Z.of_nat (length (messages t))) eqn:E.
  2: { apply Z.ltb_ge in E. lia. }
  simpl. unfold messageAt.
  destruct (currentMessageIndex st <? 0) eqn:E0; [apply Z.ltb_lt in E0; lia|].
  split; [done|].
  split; [apply lookup_lt_is_Some; lia|].
  repeat (split; [done|]).
  rewrite Href. simpl. split; set_solver.
Qed.

(** Seeking does not cancel a settle timeout that is already pending:
    when it fires after the seek, the index moves one past the clamped
    target, which for a target at or beyond the last message is the
    length of the history, an index with no message. *)
Theorem seek_does_not_cancel_advance (t : SharedThread) (index : Z) (st : ReplayState) :
  messages t <> [] ->
  let last := Z.of_nat (length (messages t)) - 1 in
  let st' := advance (skipToMessage (Some t) index st) in
  currentMessageIndex st' = Z.max 0 (Z.min index last) + 1
  /\ (last <= index ->
      currentMessageIndex st' = Z.of_nat (length (messages t))
      /\ messageAt t (currentMessageIndex st') = None).
Proof.
  intros Hne last st'.
  assert (Hlen : 0 <= last).
  { subst last. destruct (messages t); [done|]. simpl length. lia. }
  subst st'. simpl. fold last. split; [done|].
  intros Hidx.
  assert (E : Z.max 0 (Z.min index last) + 1 = Z.of_nat (length (messages t)))
    by (subst last; lia).
  split; [done|].
  rewrite E. unfold messageAt.
  destruct (Z.of_nat (length (messages t)) <? 0); [done|].
  apply lookup_ge_None. lia.
Qed.

End PlaybackFacts.

(** ** Replay: attachment markers *)

Section AttachmentFacts.

Import Replay.

Lemma includes_tail (c : ascii) (s sub : string) :
  JSString.includes (String c s) sub = false ->
  String.prefix sub (String c s) = false /\ JSString.includes s sub = false.
Proof.
  cbn [JSString.includes]. by destruct (String.prefix sub (String c s)).
Qed.

Lemma no_opener_no_match (s : string) :
  JSString.includes s opener = false ->
  matchAllFrom 0 s = [] /\ removeAllFrom 0 s = s.
Proof.
  induction s as [|c s IH]; [done|].
  intros H. apply includes_tail in H as [Hp Hs].
  destruct (IH Hs) as [IH1 IH2].
  cbn [matchAllFrom removeAllFrom]. unfold matchAt, JSString.startsWith.
  rewrite Hp. by rewrite IH1, IH2.
Qed.

(** A text in which the opener of a marker does not occur has no
    attachments, and its displayed form is the text itself, trimmed. *)
Theorem parseAttachments_without_marker (text : string) :
  JSString.includes text opener = false ->
  parseAttachments text = {| clean := JSString.trim text; paths := [] |}.
Proof.
  intros H. destruct (no_opener_no_match text H) as [H1 H2].
  unfold parseAttachments, matchAll. by rewrite H1, H2.
Qed.

Lemma prefix_split (p s : string) :
  String.prefix p s = true -> s = p +:+ JSString.drop (String.length p) s.
Proof.
  revert s. induction p as [|a p IH]; intros s; [done|].
  destruct s as [|b s]; [discriminate|]. simpl.
  destruct (ascii_dec a b) as [->|]; [|discriminate].
  intros H. change (String b p +:+ JSString.drop (String.length p) s)
    with (String b (p +:+ JSString.drop (String.length p) s)).
  f_equal. by apply IH.
Qed.

Lemma append_assoc (a b c : string) : (a +:+ b) +:+ c = a +:+ (b +:+ c).
Proof.
  induction a as [|x a IH]; [done|].
  change ((String x a +:+ b) +:+ c) with (String x ((a +:+ b) +:+ c)).
  by rewrite IH.
Qed.

(** The characters a capture can hold. *)
Lemma lazyToBracket_capture (s cap : string) :
  lazyToBracket s = Some cap ->
  (exists rest, s = cap +:+ "]" +:+ rest)
  /\ (forall c, In c (list_ascii_of_string cap) ->
        c <> "]"%char /\ JSString.isLineTerminator c = false)
  /\ (forall rest, lazyToBracket (cap +:+ "]" +:+ rest) = Some cap).
Proof.
  revert cap. induction s as [|c s IH]; intros cap; [discriminate|].
  cbn [lazyToBracket].
  destruct (Ascii.eqb c "]") eqn:Eb.
  { intros [= <-]. apply Ascii.eqb_eq in Eb as ->.
    split; [by exists s|]. split; [intros c []|done]. }
  destruct (JSString.isLineTerminator c) eqn:El; [discriminate|].
  destruct (lazyToBracket s) as [cap'|] eqn:E; [|discriminate].
  intros [= <-]. destruct (IH cap' eq_refl) as ((rest & ->) & Hchars & Hround).
  split; [by exists rest|].
  split.
  - intros c' [<-|Hin]; [|by apply Hchars].
    split; [|done]. intros ->. discriminate.
  - intros rest'. simpl. rewrite Eb, El. by rewrite Hround.
Qed.

Lemma matchAt_shape (s cap : string) :
  matchAt s = Some cap ->
  (exists rest, s = matchedText cap +:+ rest)
  /\ (forall c, In c (list_ascii_of_string cap) ->
        c <> "]"%char /\ JSString.isLineTerminator c = false)
  /\ execFirst (matchedText cap) = Some cap.
Proof.
  unfold matchAt, JSString.startsWith.
  destruct (String.prefix opener s) eqn:Hp; [|discriminate].
  intros Hl. apply prefix_split in Hp.
  destruct (lazyToBracket_capture _ _ Hl) as ((rest & Hrest) & Hchars & Hround).
  split.
  - exists rest. rewrite Hp, Hrest. unfold matchedText.
    by rewrite !append_assoc.
  - split; [done|].
    pose proof (Hround "") as Hr.
    change (cap +:+ "]" +:+ "") with (cap +:+ "]") in Hr.
    assert (Hm : matchAt (matchedText cap) = lazyToBracket (cap +:+ "]")).
    { unfold matchAt, JSString.startsWith, matchedText, opener. simpl.
      change ("" +:+ cap +:+ "]") with (cap +:+ "]"). by destruct (cap +:+ "]"). }
    assert (He : execFirst (matchedText cap)
                 = match matchAt (matchedText cap) with
                   | Some c => Some c
                   | None => execFirst ("Uploaded File: " +:+ cap +:+ "]")
                   end) by reflexivity.
    by rewrite He, Hm, Hr.
Qed.

Lemma includes_prefix (s sub rest : string) :
  s = sub +:+ rest -> JSString.includes s sub = true.
Proof.
  intros ->. assert (H : String.prefix sub (sub +:+ rest) = true).
  { induction sub as [|a sub IH]; simpl; [by destruct rest|].
    destruct (ascii_dec a a); [done|congruence]. }
  destruct sub; simpl in *; [by destruct rest|]. by rewrite H.
Qed.

Lemma matchAllFrom_sound (skip : nat) (s m : string) :
  m ∈ matchAllFrom skip s ->
  exists cap, m = matchedText cap
    /\ JSString.includes s m = true
    /\ (forall c, In c (list_ascii_of_string cap) ->
          c <> "]"%char /\ JSString.isLineTerminator c = false)
    /\ execFirst m = Some cap.
Proof.
  revert skip. induction s as [|c s IH]; intros skip; [intros H; inversion H|].
  assert (Hstep : forall k, m ∈ matchAllFrom k s ->
    exists cap, m = matchedText cap
      /\ JSString.includes (String c s) m = true
      /\ (forall c, In c (list_ascii_of_string cap) ->
            c <> "]"%char /\ JSString.isLineTerminator c = false)
      /\ execFirst m = Some cap).
  { intros k Hk. destruct (IH k Hk) as (cap & -> & Hinc & Hrest).
    exists cap. split; [done|]. split; [|done].
    cbn [JSString.includes]. rewrite Hinc. by destruct (String.prefix _ _). }
  cbn [matchAllFrom]. destruct skip as [|k]; [|apply Hstep].
  destruct (matchAt (String c s)) as [cap|] eqn:E; [|apply Hstep].
  intros H. apply elem_of_cons in H as [->|H]; [|by eapply Hstep].
  destruct (matchAt_shape _ _ E) as ((rest & Hs) & Hchars & Hexec).
  exists cap. split; [done|]. split; [by eapply includes_prefix|]. done.
Qed.

(** Every attachment path comes from a marker that stands in the text;
    it is not empty and holds no closing bracket and no line end. *)
Theorem attachment_paths_come_from_markers (text p : string) :
  p ∈ paths (parseAttachments text) ->
  p <> ""
  /\ JSString.includes text (matchedText p) = true
  /\ (forall c, In c (list_ascii_of_string p) ->
        c <> "]"%char /\ JSString.isLineTerminator c = false).
Proof.
  unfold parseAttachments. simpl. intros H.
  apply list_elem_of_omap in H as (m & Hm & Hp).
  destruct (matchAllFrom_sound 0 text m Hm) as (cap & -> & Hinc & Hchars & Hexec).
  rewrite Hexec in Hp.
  destruct (String.eqb cap "") eqn:E; [discriminate|].
  apply String.eqb_neq in E. injection Hp as <-. done.
Qed.

End AttachmentFacts.

(** ** The normalizer, branch by branch *)

Section NormalizerMore.

Import JS Normalizer CompLogic.

Variable pf : Platform.

Lemma returns_ret {A : Type} (P : A -> Prop) (a : A) : P a -> returns P (ret a).
Proof. intros H n a' n' E. unfold ret in E. by injection E as <- _. Qed.

Lemma returns_throw {A : Type} (P : A -> Prop) (e : Exn) : returns P (throw e).
Proof. intros n a' n' E. discriminate E. Qed.

Lemma returns_bind_with {A B : Type} (Q : A -> Prop) (P : B -> Prop)
    (m : Comp A) (f : A -> Comp B) :
  returns Q m -> (forall a, Q a -> returns P (f a)) -> returns P (bind m f).
Proof.
  intros Hm Hf n b n' E. unfold bind in E.
  destruct (m n) as [[a|e] n1] eqn:Em; [|discriminate].
  exact (Hf a (Hm _ _ _ Em) _ _ _ E).
Qed.

Lemma returns_bind {A B : Type} (P : B -> Prop) (m : Comp A) (f : A -> Comp B) :
  (forall a, returns P (f a)) -> returns P (bind m f).
Proof.
  intros Hf. apply (returns_bind_with (fun _ => True)); [done|auto].
Qed.

Lemma returns_tryCatch {A : Type} (P : A -> Prop) (body : Comp A) (handler : Exn -> Comp A) :
  returns P body -> (forall e, returns P (handler e)) -> returns P (tryCatch body handler).
Proof.
  intros Hb Hh n a n' E. unfold tryCatch in E.
  destruct (body n) as [[a0|e] n1] eqn:Eb.
  - injection E as <- _. exact (Hb _ _ _ Eb).
  - exact (Hh _ _ _ _ E).
Qed.

Ltac returns_step :=
  match goal with
  | |- returns _ (ret _) => apply returns_ret
  | |- returns _ (throw _) => apply returns_throw
  | |- returns _ (tryCatch _ _) => apply returns_tryCatch; [|intros ?]
  | |- returns _ (bind _ _) => apply returns_bind; intros ?
  | |- returns _ (if ?b then _ else _) => destruct b
  | |- returns _ (match ?x with _ => _ end) => destruct x
  end.

Ltac tool_leaf :=
  first
    [ done
    | by left
    | right; split; [reflexivity|]; first [by left | by right] ].

Lemma parseToolMessage_returns (message content : JSValue) :
  returns toolOrNull (parseToolMessage pf message content).
Proof.
  unfold parseToolMessage.
  apply returns_tryCatch; [|intros e; apply returns_ret; by left].
  apply (returns_bind_with
           (fun w => match w with Some r => toolOrNull r | None => True end)).
  - destruct content; try (by apply returns_ret).
    destruct (JSString.includes s "<tool_result>"); [|by apply returns_ret].
    destruct (toolResultMatches s) as [|m0 ms]; [by apply returns_ret|].
    apply (returns_bind_with toolOrNull); [|intros r Hr; by apply returns_ret].
    repeat returns_step; tool_leaf.
  - intros [r|] Hr; [by apply returns_ret|].
    repeat returns_step; tool_leaf.
Qed.

Lemma detectMessageType_returns (content : JSValue) :
  returns toolOrNull (detectMessageType pf content).
Proof.
  unfold detectMessageType.
  destruct (negb (truthy content)); [apply returns_ret; by left|].
  destruct (if isString content then content else JSON_stringify pf content);
    try apply returns_throw.
  apply (returns_bind_with
           (fun w => match w with Some r => toolOrNull r | None => True end)).
  - repeat returns_step; tool_leaf.
  - intros [r|] Hr; [by apply returns_ret|].
    repeat returns_step; tool_leaf.
Qed.

Lemma toolOrNull_kind (v : JSValue) :
  toolOrNull v -> truthy v = true -> hasKind v.
Proof.
  intros [->|[_ [H|H]]] Ht; [discriminate| |]; unfold hasKind; by rewrite H.
Qed.

Ltac kind_leaf :=
  unfold hasKind;
  repeat match goal with
         | |- context [if ?b then _ else _] => destruct b
         end;
  rewrite ?get_setProp_other by discriminate;
  rewrite ?get_setProp_same; reflexivity.

Lemma dispatch_returns (message content : JSValue) (normalized : list (string * JSValue)) :
  returns (fun b => match b with
                    | Return v => hasKind v
                    | Continue nz => hasKind (JObj nz)
                    end)
    (dispatch pf message content normalized).
Proof.
  unfold dispatch.
  destruct (isStr (get message "type") "status").
  { repeat returns_step; kind_leaf. }
  destruct (isStr (get message "type") "tool" || isStr (get message "role") "tool").
  { apply (returns_bind_with toolOrNull); [apply parseToolMessage_returns|].
    intros tm Htm. destruct (truthy tm) eqn:Et.
    - apply returns_ret. by apply toolOrNull_kind.
    - repeat returns_step. kind_leaf. }
  destruct (isStr (get message "type") "user" || isStr (get message "role") "user").
  { apply returns_ret. kind_leaf. }
  destruct (isStr (get message "type") "assistant" || isStr (get message "role") "assistant").
  { apply returns_ret. kind_leaf. }
  destruct (isStr (get message "type") "tool_start").
  { apply returns_ret. kind_leaf. }
  destruct (isStr (get message "type") "tool_result").
  { apply returns_ret. kind_leaf. }
  destruct (isStr (get message "type") "tool_error").
  { apply returns_ret. kind_leaf. }
  apply (returns_bind_with toolOrNull); [apply detectMessageType_returns|].
  intros d Hd. destruct (truthy d) eqn:Et.
  - apply returns_ret. by apply toolOrNull_kind.
  - apply returns_ret. kind_leaf.
Qed.

Lemma canonical_truthy (v : JSValue) :
  inStrings canonicalTypes v = true -> truthy v = true.
Proof.
  apply inStrings_truthy.
  intros H. repeat (apply elem_of_cons in H as [H|H]; [discriminate|]). inversion H.
Qed.

Lemma canonical_kind (v : JSValue) :
  inStrings canonicalTypes v = true -> inStrings kinds v = true.
Proof.
  unfold inStrings, canonicalTypes, kinds. cbn [existsb].
  intros H.
  repeat (destruct (isStr v _); [by rewrite ?orb_true_r|]); discriminate H.
Qed.

Lemma normalizeBody_returns (message : JSValue) :
  (forall props, message = JObj props -> NoDup (map fst props)) ->
  returns hasKind (normalizeBody pf message).
Proof.
  intros Hwf. unfold normalizeBody.
  destruct (negb (truthy message)).
  { repeat returns_step. reflexivity. }
  destruct (truthy (get message "type") && inStrings canonicalTypes (get message "type"))
    eqn:Ecanon.
  { apply andb_true_iff in Ecanon as [_ Hty].
    destruct message as [| | | | | |props]; try discriminate Hty.
    repeat returns_step. unfold hasKind, get, ownProps.
    rewrite lookupProp_spreadProps by (by apply Hwf).
    unfold get in Hty. destruct (lookupProp "type" props); [|discriminate Hty].
    by apply canonical_kind. }
  apply returns_bind. intros id. apply returns_bind. intros parsedContent.
  eapply returns_bind_with; [apply dispatch_returns|].
  intros [v|nz] Hb; [by apply returns_ret|].
  repeat returns_step;
    unfold hasKind; rewrite !get_setProp_other by discriminate; exact Hb.
Qed.

(** Whatever the event, the message [normalizeMessage] returns carries
    one of the eight kinds as its [type]. *)
Theorem normalized_type_is_a_kind (message : JSValue) (n : nat) :
  (forall props, message = JObj props -> NoDup (map fst props)) ->
  exists v n',
    normalizeMessage pf message n = (Ok v, n')
    /\ inStrings kinds (get v "type") = true.
Proof.
  intros Hwf.
  destruct (normalizeMessage_total pf message n) as (v & n' & E).
  exists v, n'. split; [exact E|].
  revert E. apply (returns_tryCatch hasKind); [by apply normalizeBody_returns|].
  intros e. repeat returns_step. reflexivity.
Qed.

Lemma get_spreadProps (k : string) (target source : list (string * JSValue)) :
  NoDup (map fst source) ->
  get (JObj (spreadProps target source)) k
  = match lookupProp k source with
    | Some v => v
    | None => get (JObj target) k
    end.
Proof.
  intros Hnd. unfold get. rewrite lookupProp_spreadProps by done.
  by destruct (lookupProp k source).
Qed.

Lemma passthrough_result (props : list (string * JSValue)) (n : nat) :
  inStrings canonicalTypes (get (JObj props) "type") = true ->
  exists id n',
    orGenerateId pf (js_or (get (JObj props) "id") (get (JObj props) "message_id")) n
    = (Ok id, n')
    /\ normalizeMessage pf (JObj props) n
       = (Ok (JObj (spreadProps [("id", id)] props)), n').
Proof.
  intros Hty.
  unfold normalizeMessage, tryCatch, normalizeBody.
  cbn [truthy negb]. rewrite (canonical_truthy _ Hty), Hty. cbn [andb].
  unfold bind.
  destruct (orGenerateId_ok pf (js_or (get (JObj props) "id") (get (JObj props) "message_id")) n)
    as (id & n' & ->).
  by exists id, n'.
Qed.

(** An event with a canonical type passes through: every property but
    [id] is read back as the event has it; an [id] property of the
    event is kept whatever its value, an empty one too; an event with no
    [id] property gets its [message_id] if truthy and else a fresh
    identifier. *)
Theorem canonical_event_passes_through (props : list (string * JSValue)) (n : nat) :
  NoDup (map fst props) ->
  inStrings canonicalTypes (get (JObj props) "type") = true ->
  exists v n',
    normalizeMessage pf (JObj props) n = (Ok v, n')
    /\ (forall k, k <> "id" -> get v k = get (JObj props) k)
    /\ (forall x, lookupProp "id" props = Some x -> get v "id" = x)
    /\ (lookupProp "id" props = None ->
        get v "id"
        = if truthy (get (JObj props) "message_id")
          then get (JObj props) "message_id"
          else JStr ("msg_" +:+ freshId pf n)).
Proof.
  intros Hnd Hty.
  destruct (passthrough_result props n Hty) as (id & n' & Hid & ->).
  eexists _, _. split; [reflexivity|].
  split; [|split].
  - intros k Hk. rewrite get_spreadProps by done. unfold get.
    destruct (lookupProp k props); [done|].
    rewrite lookupProp_absent; [done|].
    intros H. apply list_elem_of_singleton in H. done.
  - intros x Hx. rewrite get_spreadProps by done. by rewrite Hx.
  - intros Hnone. rewrite get_spreadProps by done. rewrite Hnone.
    change (get (JObj [("id", id)]) "id") with id.
    revert Hid. unfold get at 1. rewrite Hnone.
    change (js_or (default JUndefined None) (get (JObj props) "message_id"))
      with (get (JObj props) "message_id").
    unfold orGenerateId.
    destruct (truthy (get (JObj props) "message_id")).
    + unfold ret. by intros [= <- _].
    + unfold bind, generateId, ret. by intros [= <- _].
Qed.


(** *** Where the text of an event goes *)

Lemma parseToolMessage_plain (message : JSValue) (s : string) (e : Exn) (n : nat) :
  parseText pf s = Throw e -> wrapped s = false ->
  parseToolMessage pf message (JStr s) n = (Ok JNull, n).
Proof.
  intros Hp Hw. unfold wrapped in Hw.
  unfold parseToolMessage, tryCatch, bind.
  destruct (JSString.includes s "<tool_result>").
  - destruct (toolResultMatches s); [|discriminate Hw].
    unfold ret at 1.
    destruct (JSString.startsWith s "{" || JSString.includes s "role:"); [|done].
    unfold lift, JSON_parse. cbn [toString]. by rewrite Hp.
  - unfold ret at 1.
    destruct (JSString.startsWith s "{" || JSString.includes s "role:"); [|done].
    unfold lift, JSON_parse. cbn [toString]. by rewrite Hp.
Qed.

Lemma detectMessageType_plain (s : string) (e : Exn) (n : nat) :
  parseText pf s = Throw e -> s <> "" ->
  detectMessageType pf (JStr s) n = (Ok JNull, n).
Proof.
  intros Hp Hs. unfold detectMessageType.
  assert (Ht : truthy (JStr s) = true).
  { simpl. apply negb_true_iff. by apply String.eqb_neq. }
  rewrite Ht. cbn [negb isString].
  unfold bind, tryCatch, lift, JSON_parse. cbn [toString]. rewrite Hp.
  destruct (JSString.includes s "tool_call" || JSString.includes s "function_name");
    unfold ret at 1;
    destruct (JSString.includes s "tool_result" || JSString.includes s "success"
              || JSString.includes s "output"); done.
Qed.

Lemma extractToolName_reads (message content : JSValue) (n : nat) :
  metadataReads pf message ->
  exists tool, extractToolName pf message content n = (Ok tool, n).
Proof.
  intros Hmd. unfold extractToolName, bind.
  assert (Hfrom : exists o,
    (if truthy (get message "metadata")
     then
       bind (if isString (get message "metadata")
             then lift (JSON_parse pf (get message "metadata"))
             else ret (get message "metadata"))
         (fun metadata =>
            bind (lift (getProp metadata "tool_name"))
              (fun tool_name =>
                 if truthy (js_or tool_name (get metadata "function_name"))
                 then ret (Some (js_or tool_name (get metadata "function_name")))
                 else ret None))
     else ret None) n = (Ok o, n)).
  { destruct (truthy (get message "metadata")) eqn:Et; [|by exists None].
    assert (Hread : forall md, md <> JNull -> md <> JUndefined ->
      exists o,
        bind (lift (getProp md "tool_name"))
          (fun tool_name =>
             if truthy (js_or tool_name (get md "function_name"))
             then ret (Some (js_or tool_name (get md "function_name")))
             else ret None) n = (Ok o, n)).
    { intros md Hn Hu. unfold bind, lift.
      assert (Hg : getProp md "tool_name" = Ok (get md "tool_name"))
        by by destruct md.
      rewrite Hg.
      destruct (truthy (js_or (get md "tool_name") (get md "function_name")));
        unfold ret; eauto. }
    destruct (isString (get message "metadata")) eqn:Es.
    - destruct Hmd as [H|[H|(md & Hp & Hn & Hu)]]; [congruence|congruence|].
      unfold bind at 1, lift at 1. rewrite Hp. by apply Hread.
    - unfold bind at 1, ret at 1. apply Hread.
      + intros H. by rewrite H in Et.
      + intros H. by rewrite H in Et. }
  destruct Hfrom as [o Ho]. unfold bind in Ho. rewrite Ho.
  destruct o as [name|]; [by exists name|].
  destruct content; try (by eexists).
  destruct (xmlMatch s); [by eexists|].
  destruct (funcMatch s); by eexists.
Qed.

Lemma metadataReads_parses (message : JSValue) :
  metadataReads pf message -> metadataParses pf message.
Proof.
  intros [H|[H|(md & H & _)]]; [by left|by right; left|right; right; by exists md].
Qed.

Lemma metadata_step (message : JSValue) :
  metadataParses pf message ->
  exists md,
    (if truthy (get message "metadata")
     then if isString (get message "metadata")
          then lift (JSON_parse pf (get message "metadata"))
          else ret (get message "metadata")
     else ret (JObj [])) = ret md.
Proof.
  intros Hmd.
  destruct (truthy (get message "metadata")) eqn:E1; [|eauto].
  destruct (isString (get message "metadata")) eqn:E2; [|eauto].
  destruct Hmd as [H|[H|[md H]]]; [congruence|congruence|].
  exists md. by rewrite H.
Qed.

Lemma dispatch_noncanonical (message content : JSValue)
    (normalized : list (string * JSValue)) :
  inStrings canonicalTypes (get message "type") = false ->
  dispatch pf message content normalized
  = if toolOrigin message then
      bind (parseToolMessage pf message content)
        (fun toolMessage =>
           if truthy toolMessage then ret (Return toolMessage)
           else
             bind (extractToolName pf message content)
               (fun tool =>
                  ret (Continue
                         (setProp "success" (JBool (notFalse (get message "success")))
                            (setProp "output" (js_or content (get message "output"))
                               (setProp "tool" tool
                                  (setProp "type" (JStr "tool_result") normalized)))))))
    else if isStr (get message "role") "user" then
      ret (Continue (setProp "content" (textOf pf content)
                       (setProp "type" (JStr "user") normalized)))
    else if isStr (get message "role") "assistant" then
      ret (Continue (setProp "content" (textOf pf content)
                       (setProp "type" (JStr "assistant") normalized)))
    else
      bind (detectMessageType pf (js_or content message))
        (fun detectedType =>
           if truthy detectedType then ret (Return detectedType)
           else
             ret (Continue (setProp "content" (JSON_stringify pf message)
                              (setProp "type" (JStr "unknown") normalized)))).
Proof.
  intros Hcanon.
  assert (Hty : forall x, x ∈ canonicalTypes -> isStr (get message "type") x = false).
  { intros x Hx. by eapply inStrings_false_each. }
  unfold dispatch, toolOrigin.
  rewrite (Hty "status"), (Hty "user"), (Hty "assistant"), (Hty "tool_start"),
    (Hty "tool_result"), (Hty "tool_error") by (unfold canonicalTypes; set_solver).
  cbn [orb]. reflexivity.
Qed.

(** The body of [normalizeMessage] on an event that is not canonical
    and whose text does not parse: up to the dispatch. *)
Lemma text_event_body (props : list (string * JSValue)) (s : string) (e : Exn) (n : nat) :
  get (JObj props) "content" = JStr s ->
  parseText pf s = Throw e ->
  inStrings canonicalTypes (get (JObj props) "type") = false ->
  exists id n1,
    normalizeBody pf (JObj props) n
    = bind (dispatch pf (JObj props) (JStr s)
              (setProp "_content" JUndefined
                 [("id", id); ("type", JStr "unknown"); ("raw", JObj props)]))
        (fun branch =>
           match branch with
           | Return v => ret v
           | Continue normalized =>
               bind (if truthy (get (JObj props) "metadata")
                     then if isString (get (JObj props) "metadata")
                          then lift (JSON_parse pf (get (JObj props) "metadata"))
                          else ret (get (JObj props) "metadata")
                     else ret (JObj []))
                 (fun metadata =>
                    ret (JObj (setProp "metadata" metadata
                                 (setProp "timestamp"
                                    (js_or (get (JObj props) "timestamp")
                                       (get (JObj props) "created_at"))
                                    normalized))))
           end) n1.
Proof.
  intros Hc Hparse Hcanon.
  destruct (orGenerateId_ok pf
              (js_or (get (JObj props) "id") (get (JObj props) "message_id")) n)
    as (id & n1 & Hid).
  exists id, n1. unfold normalizeBody.
  change (truthy (JObj props)) with true. cbn [negb].
  rewrite Hcanon, andb_false_r.
  unfold bind at 1. rewrite Hid.
  rewrite Hc. cbn [isString].
  unfold JSON_parse. cbn [toString]. rewrite Hparse.
  reflexivity.
Qed.

Lemma dispatch_keeps_raw (message : JSValue) (s : string) (e : Exn)
    (normalized : list (string * JSValue)) :
  parseText pf s = Throw e ->
  inStrings canonicalTypes (get message "type") = false ->
  toolOrigin message && wrapped s = false ->
  s <> "" ->
  get (JObj normalized) "raw" = message ->
  returns (fun b => match b with
                    | Return _ => False
                    | Continue nz => get (JObj nz) "raw" = message
                    end)
    (dispatch pf message (JStr s) normalized).
Proof.
  intros Hparse Hcanon Hw Hs Hraw.
  rewrite (dispatch_noncanonical _ _ _ Hcanon).
  assert (Ht : truthy (JStr s) = true).
  { simpl. apply negb_true_iff. by apply String.eqb_neq. }
  destruct (toolOrigin message).
  - cbn [andb] in Hw. intros n b n' E. unfold bind at 1 in E.
    rewrite (parseToolMessage_plain _ _ _ _ Hparse Hw) in E. cbn [truthy] in E.
    unfold bind in E.
    destruct (extractToolName pf message (JStr s) n) as [[tool|err] n2];
      [|discriminate E].
    unfold ret in E. injection E as <- _.
    by rewrite !get_setProp_other by discriminate.
  - destruct (isStr (get message "role") "user").
    { apply returns_ret. by rewrite !get_setProp_other by discriminate. }
    destruct (isStr (get message "role") "assistant").
    { apply returns_ret. by rewrite !get_setProp_other by discriminate. }
    rewrite (js_or_truthy _ _ Ht).
    intros n b n' E. unfold bind in E.
    rewrite (detectMessageType_plain _ _ _ Hparse Hs) in E. cbn [truthy] in E.
    unfold ret in E. injection E as <- _.
    by rewrite !get_setProp_other by discriminate.
Qed.

Lemma text_event_keeps_raw (props : list (string * JSValue)) (s : string) (e : Exn)
    (n : nat) (v : JSValue) (n' : nat) :
  get (JObj props) "content" = JStr s ->
  parseText pf s = Throw e ->
  inStrings canonicalTypes (get (JObj props) "type") = false ->
  toolOrigin (JObj props) && wrapped s = false ->
  s <> "" ->
  normalizeMessage pf (JObj props) n = (Ok v, n') ->
  get v "raw" = JObj props.
Proof.
  intros Hc Hparse Hcanon Hw Hs.
  unfold normalizeMessage.
  apply (returns_tryCatch (fun v => get v "raw" = JObj props)).
  - intros n0 v0 n0' E.
    destruct (text_event_body props s e n0 Hc Hparse Hcanon) as (id & n1 & Hbody).
    rewrite Hbody in E.
    match type of E with
    | bind ?m ?f _ = _ =>
        assert (Hret : returns (fun v => get v "raw" = JObj props) (bind m f))
    end.
    { apply (returns_bind_with
               (fun b => match b with
                         | Return _ => False
                         | Continue nz => get (JObj nz) "raw" = JObj props
                         end)).
      - eapply dispatch_keeps_raw; try eassumption.
        by rewrite get_setProp_other by discriminate.
      - intros [v1|nz] Hb; [done|].
        apply returns_bind. intros md. apply returns_ret.
        by rewrite !get_setProp_other by discriminate. }
    exact (Hret _ _ _ E).
  - intros err. apply returns_bind. intros id. by apply returns_ret.
Qed.

Lemma tool_text (props : list (string * JSValue)) (s : string) (e : Exn) (n : nat) :
  get (JObj props) "content" = JStr s ->
  parseText pf s = Throw e ->
  inStrings canonicalTypes (get (JObj props) "type") = false ->
  toolOrigin (JObj props) = true ->
  wrapped s = false ->
  s <> "" ->
  metadataReads pf (JObj props) ->
  exists v n',
    normalizeMessage pf (JObj props) n = (Ok v, n')
    /\ get v "type" = JStr "tool_result"
    /\ get v "output" = JStr s.
Proof.
  intros Hc Hparse Hcanon Htool Hw Hs Hmd.
  destruct (text_event_body props s e n Hc Hparse Hcanon) as (id & n1 & Hbody).
  destruct (extractToolName_reads (JObj props) (JStr s) n1 Hmd) as [tool Hname].
  destruct (metadata_step _ (metadataReads_parses _ Hmd)) as [md Hmeta].
  assert (Ht : truthy (JStr s) = true).
  { simpl. apply negb_true_iff. by apply String.eqb_neq. }
  eexists _, _. split.
  - unfold normalizeMessage, tryCatch. rewrite Hbody, Hmeta.
    rewrite (dispatch_noncanonical _ _ _ Hcanon), Htool.
    unfold bind. rewrite (parseToolMessage_plain _ _ _ _ Hparse Hw). cbn [truthy].
    rewrite Hname. reflexivity.
  - split.
    + by rewrite !get_setProp_other, get_setProp_same by discriminate.
    + rewrite !get_setProp_other, get_setProp_same by discriminate.
      by apply js_or_truthy.
Qed.

Lemma fallback_text (props : list (string * JSValue)) (s : string) (e : Exn) (n : nat) :
  get (JObj props) "content" = JStr s ->
  parseText pf s = Throw e ->
  inStrings canonicalTypes (get (JObj props) "type") = false ->
  toolOrigin (JObj props) = false ->
  isStr (get (JObj props) "role") "user" || isStr (get (JObj props) "role") "assistant"
  = false ->
  s <> "" ->
  metadataParses pf (JObj props) ->
  exists v n',
    normalizeMessage pf (JObj props) n = (Ok v, n')
    /\ get v "type" = JStr "unknown"
    /\ get v "content" = JSON_stringify pf (JObj props).
Proof.
  intros Hc Hparse Hcanon Htool Hrole Hs Hmd.
  apply orb_false_iff in Hrole as [Hu Ha].
  destruct (text_event_body props s e n Hc Hparse Hcanon) as (id & n1 & Hbody).
  destruct (metadata_step _ Hmd) as [md Hmeta].
  assert (Ht : truthy (JStr s) = true).
  { simpl. apply negb_true_iff. by apply String.eqb_neq. }
  eexists _, _. split.
  - unfold normalizeMessage, tryCatch. rewrite Hbody, Hmeta.
    rewrite (dispatch_noncanonical _ _ _ Hcanon), Htool, Hu, Ha.
    rewrite (js_or_truthy _ _ Ht).
    unfold bind. rewrite (detectMessageType_plain _ _ _ Hparse Hs). cbn [truthy].
    reflexivity.
  - split.
    + by rewrite !get_setProp_other, get_setProp_same by discriminate.
    + by rewrite !get_setProp_other, get_setProp_same by discriminate.
Qed.

(** A tool event whose text holds one result wrapper: the text read
    back is the second match of the expression, of which there is
    none. *)
Lemma wrapped_text (props : list (string * JSValue)) (s m0 : string) (e e' : Exn)
    (n : nat) :
  get (JObj props) "content" = JStr s ->
  parseText pf s = Throw e ->
  inStrings canonicalTypes (get (JObj props) "type") = false ->
  toolOrigin (JObj props) = true ->
  JSString.includes s "<tool_result>" = true ->
  toolResultMatches s = [m0] ->
  parseText pf "undefined" = Throw e' ->
  metadataReads pf (JObj props) ->
  exists id tool n',
    normalizeMessage pf (JObj props) n
    = (Ok (JObj [("id", id); ("type", JStr "tool_result"); ("tool", tool);
                 ("output", JUndefined); ("success", JBool true);
                 ("timestamp", get (JObj props) "timestamp")]), n').
Proof.
  intros Hc Hparse Hcanon Htool Hinc Hm Hund Hmd.
  destruct (text_event_body props s e n Hc Hparse Hcanon) as (id0 & n1 & Hbody).
  destruct (orGenerateId_ok pf (get (JObj props) "id") n1) as (id & n2 & Hid).
  destruct (extractToolName_reads (JObj props) (JStr s) n2 Hmd) as [tool Hname].
  exists id, tool, n2.
  unfold normalizeMessage, tryCatch. rewrite Hbody.
  rewrite (dispatch_noncanonical _ _ _ Hcanon), Htool.
  unfold bind at 1. unfold bind at 1.
  assert (Hptm : parseToolMessage pf (JObj props) (JStr s) n1
                 = (Ok (JObj [("id", id); ("type", JStr "tool_result"); ("tool", tool);
                              ("output", JUndefined); ("success", JBool true);
                              ("timestamp", get (JObj props) "timestamp")]), n2)).
  { unfold parseToolMessage. rewrite Hinc, Hm. cbn [lookup list_lookup].
    unfold tryCatch, bind, lift, JSON_parse. cbn [toString]. rewrite Hund.
    rewrite Hid, Hname. reflexivity. }
  rewrite Hptm. reflexivity.
Qed.

(** C4.  [normalizeMessage] never throws: for every input and every
    count of identifiers drawn so far it returns a message.  For an
    event object whose string content fails [JSON.parse], the message
    returned holds that string: as its [content] when the event has a
    canonical type or the role [user] or [assistant]; as its [output]
    when the event is of tool origin; under [raw], which is the whole
    event, whenever the type is not canonical, the unknown fallback
    (whose [content] is the JSON text of the event) included.  The one
    exception is a tool event whose text holds a result wrapper: with a
    single wrapper the message has [undefined] as [output] and neither
    [content] nor [raw]. *)
Theorem normalizeMessage_never_throws_keeps_text (message : JSValue) (n : nat) :
  (exists v n', normalizeMessage pf message n = (Ok v, n'))
  /\ (forall props s e,
        message = JObj props ->
        NoDup (map fst props) ->
        get message "content" = JStr s ->
        parseText pf s = Throw e ->
        exists v n',
          normalizeMessage pf message n = (Ok v, n')
          /\ (inStrings canonicalTypes (get message "type") = true ->
              get v "content" = JStr s)
          /\ (inStrings canonicalTypes (get message "type") = false ->
              toolOrigin message && wrapped s = false ->
              s <> "" ->
              get v "raw" = message)
          /\ (inStrings canonicalTypes (get message "type") = false ->
              toolOrigin message = true -> wrapped s = false -> s <> "" ->
              metadataReads pf message ->
              get v "type" = JStr "tool_result" /\ get v "output" = JStr s)
          /\ (inStrings canonicalTypes (get message "type") = false ->
              toolOrigin message = false ->
              isStr (get message "role") "user"
              || isStr (get message "role") "assistant" = true ->
              metadataParses pf message ->
              get v "content" = JStr s)
          /\ (inStrings canonicalTypes (get message "type") = false ->
              toolOrigin message = false ->
              isStr (get message "role") "user"
              || isStr (get message "role") "assistant" = false ->
              s <> "" ->
              metadataParses pf message ->
              get v "type" = JStr "unknown"
              /\ get v "content" = JSON_stringify pf message)
          /\ (inStrings canonicalTypes (get message "type") = false ->
              toolOrigin message = true ->
              JSString.includes s "<tool_result>" = true ->
              (exists m0, toolResultMatches s = [m0]) ->
              (exists e', parseText pf "undefined" = Throw e') ->
              metadataReads pf message ->
              exists id tool,
                v = JObj [("id", id); ("type", JStr "tool_result"); ("tool", tool);
                          ("output", JUndefined); ("success", JBool true);
                          ("timestamp", get message "timestamp")])).
Proof.
  split; [apply normalizeMessage_total|].
  intros props s e -> Hnd Hc Hparse.
  destruct (normalizeMessage_total pf (JObj props) n) as (v & n' & E).
  exists v, n'. split; [exact E|].
  split.
  { intros Hcanon.
    destruct (passthrough_content pf props s n Hnd Hc Hcanon) as (v1 & n1 & E1 & H1).
    rewrite E in E1. by injection E1 as <- _. }
  split.
  { intros Hcanon Hw Hs. by eapply text_event_keeps_raw. }
  split.
  { intros Hcanon Htool Hw Hs Hmd.
    destruct (tool_text props s e n Hc Hparse Hcanon Htool Hw Hs Hmd)
      as (v1 & n1 & E1 & H1).
    rewrite E in E1. by injection E1 as <- _. }
  split.
  { intros Hcanon Htool Hrole Hmd.
    destruct (role_content pf props s e n Hc Hparse Hcanon Htool Hrole Hmd)
      as (v1 & n1 & E1 & H1).
    rewrite E in E1. by injection E1 as <- _. }
  split.
  { intros Hcanon Htool Hrole Hs Hmd.
    destruct (fallback_text props s e n Hc Hparse Hcanon Htool Hrole Hs Hmd)
      as (v1 & n1 & E1 & H1).
    rewrite E in E1. by injection E1 as <- _. }
  intros Hcanon Htool Hinc [m0 Hm] [e' Hund] Hmd.
  destruct (wrapped_text props s m0 e e' n Hc Hparse Hcanon Htool Hinc Hm Hund Hmd)
    as (id & tool & n1 & E1).
  rewrite E in E1. injection E1 as -> _. by exists id, tool.
Qed.

End NormalizerMore.

(** C4 fails in the code on a tool event whose text is wrapped in a
    result tag.  The expression carries the [g] flag, so the array
    holds the whole matches and its second entry is the second match,
    not the captured text: with one wrapper the message comes back with
    [undefined] as [output] and the text in no property; with two
    wrappers the [output] is the second wrapper alone. *)
Lemma normalize_content_counterexample :
  let text := "<tool_result>x</tool_result>" in
  let wrapped := JObj [("role", JStr "tool"); ("content", JStr text)] in
  let twice := JObj [("role", JStr "tool");
                     ("content", JStr (text +:+ "<tool_result>y</tool_result>"))] in
  RefJSON.parse text = JS.Throw (JS.SyntaxError "Unexpected token in JSON")
  /\ Normalizer.toolResultMatches text = [text]
  /\ fst (Normalizer.normalizeMessage RefJSON.platform wrapped 0%nat)
     = JS.Ok (JObj [("id", JStr "msg_1700000000000_1"); ("type", JStr "tool_result");
                    ("tool", JStr "tool"); ("output", JUndefined);
                    ("success", JBool true); ("timestamp", JUndefined)])
  /\ (exists v,
        fst (Normalizer.normalizeMessage RefJSON.platform twice 0%nat) = JS.Ok v
        /\ JS.get v "output" = JStr "<tool_result>y</tool_result>"
        /\ JS.get v "content" = JUndefined
        /\ JS.get v "raw" = JUndefined).
Proof.
  intros text wrapped twice.
  split; [reflexivity|]. split; [reflexivity|].
  split; [vm_compute; reflexivity|].
  eexists. split; [vm_compute; reflexivity|]. repeat split.
Qed.

(** Concrete runs of C4: a tool event with plain text keeps it as
    [output] and, with the whole event, under [raw]; an event with no
    type and no role keeps it under [raw]; a user event keeps it as
    [content]; a tool event with one result wrapper loses it. *)
Lemma normalizeMessage_never_throws_keeps_text_witness :
  let tool := [("role", JStr "tool"); ("content", JStr "hello")] in
  let bare := [("content", JStr "hello")] in
  let user := [("role", JStr "user"); ("content", JStr "hello")] in
  let text := "<tool_result>x</tool_result>" in
  let wrapper := [("role", JStr "tool"); ("content", JStr text)] in
  (NoDup (map fst tool)
   /\ NoDup (map fst bare)
   /\ JS.get (JObj tool) "content" = JStr "hello"
   /\ JS.parseText RefJSON.platform "hello"
      = JS.Throw (JS.SyntaxError "Unexpected token in JSON")
   /\ JS.parseText RefJSON.platform text
      = JS.Throw (JS.SyntaxError "Unexpected token in JSON")
   /\ Normalizer.toolResultMatches text = [text])
  /\ (exists v n',
        Normalizer.normalizeMessage RefJSON.platform (JObj tool) 0%nat = (JS.Ok v, n')
        /\ JS.get v "output" = JStr "hello"
        /\ JS.get v "raw" = JObj tool)
  /\ (exists v n',
        Normalizer.normalizeMessage RefJSON.platform (JObj bare) 0%nat = (JS.Ok v, n')
        /\ JS.get v "type" = JStr "unknown"
        /\ JS.get v "raw" = JObj bare)
  /\ (exists v n',
        Normalizer.normalizeMessage RefJSON.platform (JObj user) 0%nat = (JS.Ok v, n')
        /\ JS.get v "content" = JStr "hello")
  /\ (exists v n',
        Normalizer.normalizeMessage RefJSON.platform (JObj wrapper) 0%nat = (JS.Ok v, n')
        /\ JS.get v "output" = JUndefined
        /\ JS.get v "raw" = JUndefined).
Proof.
  intros tool bare user text wrapper.
  assert (Hnd : forall k v,
            k <> "content" -> NoDup (map fst [(k, v); ("content", JStr "hello")])).
  { intros k v Hk. apply NoDup_cons. split; [|apply NoDup_singleton].
    intros H. apply list_elem_of_singleton in H. done. }
  assert (Hnd1 : NoDup (map fst tool)) by (by apply Hnd).
  assert (Hnd2 : NoDup (map fst bare)) by apply NoDup_singleton.
  assert (Hnd3 : NoDup (map fst user)) by (by apply Hnd).
  assert (Hnd4 : NoDup (map fst wrapper)).
  { apply NoDup_cons. split; [|apply NoDup_singleton].
    intros H. apply list_elem_of_singleton in H. discriminate H. }
  assert (Hne : "hello" <> "") by discriminate.
  split; [by repeat split|]. split; [|split; [|split]].
  - destruct (proj2 (normalizeMessage_never_throws_keeps_text RefJSON.platform
                       (JObj tool) 0%nat)
                tool "hello" _ eq_refl Hnd1 eq_refl eq_refl)
      as (v & n' & E & _ & Hraw & Htool & _).
    exists v, n'. split; [exact E|]. split.
    + exact (proj2 (Htool eq_refl eq_refl eq_refl Hne (or_introl eq_refl))).
    + exact (Hraw eq_refl eq_refl Hne).
  - destruct (proj2 (normalizeMessage_never_throws_keeps_text RefJSON.platform
                       (JObj bare) 0%nat)
                bare "hello" _ eq_refl Hnd2 eq_refl eq_refl)
      as (v & n' & E & _ & Hraw & _ & _ & Hfall & _).
    exists v, n'. split; [exact E|]. split.
    + exact (proj1 (Hfall eq_refl eq_refl eq_refl Hne (or_introl eq_refl))).
    + exact (Hraw eq_refl eq_refl Hne).
  - destruct (proj2 (normalizeMessage_never_throws_keeps_text RefJSON.platform
                       (JObj user) 0%nat)
                user "hello" _ eq_refl Hnd3 eq_refl eq_refl)
      as (v & n' & E & _ & _ & _ & Hrole & _).
    exists v, n'. split; [exact E|].
    exact (Hrole eq_refl eq_refl eq_refl (or_introl eq_refl)).
  - destruct (proj2 (normalizeMessage_never_throws_keeps_text RefJSON.platform
                       (JObj wrapper) 0%nat)
                wrapper text _ eq_refl Hnd4 eq_refl eq_refl)
      as (v & n' & E & _ & _ & _ & _ & _ & Hwrap).
    exists v, n'. split; [exact E|].
    destruct (Hwrap eq_refl eq_refl eq_refl (ex_intro _ text eq_refl)
                (ex_intro _ _ eq_refl) (or_introl eq_refl)) as (id & tool' & ->).
    by split.
Defined.


(** ** Lists of messages: normalization, grouping, rendering *)

Section RenderingFacts.

Import JS Normalizer Rendering.

Variable pf : Platform.

Lemma mapComp_normalize (items : list JSValue) (n : nat) :
  exists vs n',
    mapComp (normalizeMessage pf) items n = (Ok vs, n')
    /\ Forall2 (fun x v => exists m m', normalizeMessage pf x m = (Ok v, m')) items vs.
Proof.
  revert n. induction items as [|x items IH]; intros n.
  - exists [], n. by split.
  - cbn [mapComp]. unfold bind at 1.
    destruct (normalizeMessage_total pf x n) as (v & n1 & E). rewrite E.
    unfold bind at 1. destruct (IH n1) as (vs & n2 & Evs & Hall). rewrite Evs.
    exists (v :: vs), n2. split; [reflexivity|].
    constructor; [by exists n, n1|done].
Qed.

(** [normalizeMessages] never throws.  On an array it returns one
    message per element, in order, each the normalization of its
    element; on anything else it returns the empty list and draws no
    identifier. *)
Theorem normalizeMessages_maps (messages : JSValue) (n : nat) :
  exists vs n',
    normalizeMessages pf messages n = (Ok vs, n')
    /\ match messages with
       | JArr items =>
           Forall2 (fun x v => exists m m', normalizeMessage pf x m = (Ok v, m')) items vs
       | _ => vs = [] /\ n' = n
       end.
Proof.
  destruct messages; try (by exists [], n).
  apply mapComp_normalize.
Qed.

Lemma groupStep_invariant (ms : list JSValue) (groups : list (list JSValue))
    (cur : list JSValue) :
  Forall (fun g => g <> []) groups ->
  Forall headed groups ->
  headed cur ->
  let '(groups', cur') := fold_left groupStep ms (groups, cur) in
  (concat groups' ++ cur' = concat groups ++ cur ++ ms)%list
  /\ Forall (fun g => g <> []) groups'
  /\ Forall headed groups'
  /\ headed cur'.
Proof.
  revert groups cur. induction ms as [|m ms IH]; intros groups cur Hne Hh Hc.
  - simpl. by rewrite app_nil_r.
  - cbn [fold_left].
    assert (Happ : forall x, turn x = false -> headed (cur ++ [x])%list).
    { intros x Hx. unfold headed. destruct cur as [|c cur]; [by constructor|].
      simpl. apply Forall_app. split; [exact Hc|]. by constructor. }
    unfold groupStep at 2. fold (turn m).
    destruct (turn m) eqn:Et.
    + destruct cur as [|c cur].
      * simpl. specialize (IH groups [m] Hne Hh).
        destruct (fold_left groupStep ms (groups, [m])) as [g' c'].
        apply IH. by constructor.
      * cbn [length Nat.ltb Nat.leb].
        specialize (IH (groups ++ [c :: cur])%list [m]).
        destruct (fold_left groupStep ms ((groups ++ [c :: cur])%list, [m])) as [g' c'].
        destruct IH as (Hcat & IH).
        { apply Forall_app. split; [done|]. by constructor. }
        { apply Forall_app. split; [done|]. by constructor. }
        { by constructor. }
        split; [|exact IH].
        rewrite Hcat, concat_app. simpl. by rewrite app_nil_r, <- !app_assoc.
    + assert (E : (if typeIs m "tool_call" || typeIs m "tool_result" || typeIs m "status"
                   then (groups, (cur ++ [m])%list)
                   else (groups, (cur ++ [m])%list)) = (groups, (cur ++ [m])%list)).
      { by destruct (typeIs m "tool_call" || typeIs m "tool_result" || typeIs m "status"). }
      rewrite E.
      specialize (IH groups (cur ++ [m])%list Hne Hh (Happ m Et)).
      destruct (fold_left groupStep ms (groups, (cur ++ [m])%list)) as [g' c'].
      destruct IH as (Hcat & IH). split; [|exact IH].
      by rewrite Hcat, <- !app_assoc.
Qed.

(** [groupRelatedMessages] cuts the list into consecutive groups: the
    groups put end to end give the list back, no group is empty, and a
    user or assistant message is only ever the first of its group. *)
Theorem grouping_partitions (messages : list JSValue) :
  concat (groupRelatedMessages messages) = messages
  /\ Forall (fun g => g <> []) (groupRelatedMessages messages)
  /\ Forall headed (groupRelatedMessages messages).
Proof.
  unfold groupRelatedMessages.
  pose proof (groupStep_invariant messages [] []) as H.
  destruct (fold_left groupStep messages ([], [])) as [groups cur].
  destruct H as (Hcat & Hne & Hh & Hc); [by constructor|by constructor|by constructor|].
  simpl in Hcat. destruct cur as [|c cur].
  - simpl. by rewrite app_nil_r in Hcat.
  - cbn [length Nat.ltb Nat.leb]. split; [|split].
    + rewrite concat_app. simpl. by rewrite app_nil_r.
    + apply Forall_app. split; [done|]. by constructor.
    + apply Forall_app. split; [done|]. by constructor.
Qed.

Lemma isStr_other (v : JSValue) (a b : string) :
  isStr v a = true -> a <> b -> isStr v b = false.
Proof.
  destruct v; try discriminate. simpl. intros H%String.eqb_eq Hab. subst.
  by apply String.eqb_neq.
Qed.

(** For an event with a canonical type, [shouldRenderMessage] does not
    depend on the build mode: the event is hidden exactly when it is a
    status whose [status_type] is one of the three internal ones. *)
Theorem canonical_event_rendering (development : bool) (props : list (string * JSValue))
    (n : nat) :
  NoDup (map fst props) ->
  inStrings canonicalTypes (get (JObj props) "type") = true ->
  exists n',
    shouldRenderMessage pf development (JObj props) n
    = (Ok (negb (isStr (get (JObj props) "type") "status"
                 && inStrings internalStatuses
                      (js_or (get (JObj props) "status_type") (JStr "")))), n').
Proof.
  intros Hnd Hty.
  destruct (passthrough_result pf props n Hty) as (id & n' & _ & E).
  exists n'. unfold shouldRenderMessage, bind. rewrite E. unfold ret. f_equal. f_equal.
  unfold shouldRender, isToolMessage, isStatusMessage, typeIs.
  rewrite !get_spreadProps by done.
  change (get (JObj [("id", id)]) "status_type") with JUndefined.
  change (get (JObj [("id", id)]) "type") with JUndefined.
  revert Hty. unfold get, inStrings, canonicalTypes. cbn [existsb].
  destruct (lookupProp "type" props) as [t|]; [|discriminate].
  change (default JUndefined (Some t)) with t.
  destruct (isStr t "user") eqn:?; [rewrite (isStr_other t "user" "status" ltac:(assumption) ltac:(discriminate)); intros _; reflexivity|].
  destruct (isStr t "assistant") eqn:?; [rewrite (isStr_other t "assistant" "status" ltac:(assumption) ltac:(discriminate)); intros _; reflexivity|].
  destruct (isStr t "tool_call") eqn:?; [rewrite (isStr_other t "tool_call" "status" ltac:(assumption) ltac:(discriminate)); intros _; reflexivity|].
  destruct (isStr t "tool_result") eqn:?; [rewrite (isStr_other t "tool_result" "status" ltac:(assumption) ltac:(discriminate)); intros _; reflexivity|].
  destruct (isStr t "tool_start") eqn:?; [rewrite (isStr_other t "tool_start" "status" ltac:(assumption) ltac:(discriminate)); intros _; reflexivity|].
  destruct (isStr t "tool_error") eqn:?; [rewrite (isStr_other t "tool_error" "status" ltac:(assumption) ltac:(discriminate)); intros _; reflexivity|].
  cbn [orb]. rewrite orb_false_r. intros ->. cbn [andb].
  by destruct (lookupProp "status_type" props).
Qed.

End RenderingFacts.

(** * Concrete runs of the further properties *)

(** A stale handle closes the stream a later start opened for
    [run-1]. *)
Lemma stale_cleanup_closes_newer_stream_witness :
  let session := Some (Transport.mkSession "tok") in
  let w1 := Transport.start 1 "run-1" session 100 Transport.emptyWorld in
  (Transport.accessToken session = Some "tok" /\ 0%nat <> 1%nat)
  /\ Transport.activeStreams w1 !! "run-1" = Some 0%nat
  /\ 0%nat ∈ Transport.closed (Transport.cleanup 0 "run-1" w1).
Proof.
  intros session w1.
  assert (Hne : 0%nat <> 1%nat) by discriminate.
  pose proof (stale_cleanup_closes_newer_stream 0 1 "run-1" session "tok" 100
                Transport.emptyWorld eq_refl Hne) as H.
  exact (conj (conj eq_refl Hne) (conj (proj1 H) (proj1 (proj2 H)))).
Defined.

(** Two starts for [run-1] from the empty world. *)
Lemma overlapping_starts_leave_two_open_witness :
  let s := Some (Transport.mkSession "tok") in
  let w := Transport.emptyWorld in
  let w' := Transport.setupStream 1 "run-1" s 101
              (Transport.setupStream 0 "run-1" s 100
                 (Transport.streamAgent "run-1" (Transport.streamAgent "run-1" w))) in
  (Transport.accessToken s = Some "tok"
   /\ (forall h, h ∈ Transport.closed w -> (h < Transport.created w)%nat)
   /\ (forall r h, Transport.activeStreams w !! r = Some h -> (h < Transport.created w)%nat))
  /\ Transport.created w' = 2%nat
  /\ (0%nat ∉ Transport.closed w').
Proof.
  intros s w w'.
  assert (Hc : forall h, h ∈ Transport.closed w -> (h < Transport.created w)%nat).
  { intros h Hh. exfalso. revert Hh. apply not_elem_of_empty. }
  assert (Ha : forall r h, Transport.activeStreams w !! r = Some h ->
                           (h < Transport.created w)%nat).
  { intros r h Hh. exfalso. subst w. simpl in Hh. rewrite lookup_empty in Hh.
    discriminate Hh. }
  pose proof (overlapping_starts_leave_two_open 0 1 "run-1" s s "tok" "tok" 100 101 w
                eq_refl eq_refl Hc Ha) as H.
  exact (conj (conj eq_refl (conj Hc Ha))
           (conj (proj1 H) (proj1 (proj2 (proj2 H))))).
Defined.

(** A 404 answer for [run-1] is remembered. *)
Lemma conclusive_status_is_remembered_witness :
  let session := Some (Transport.mkSession "tok") in
  let r := Liveness.mkStatusResponse 404 "Not Found" (JS.Ok JNull) in
  let w1 := fst (fst (Liveness.getAgentStatus "run-1" session (Liveness.StatusAnswer r)
                        Transport.emptyWorld)) in
  (Transport.accessToken session = Some "tok" /\ Liveness.status r = 404%nat)
  /\ "run-1" ∈ Transport.nonRunningAgentRuns w1.
Proof.
  intros session r w1.
  exact (conj (conj eq_refl eq_refl)
           (proj1 (conclusive_status_is_remembered "run-1" session "tok" r
                     (Liveness.StatusNetworkError "offline") Transport.emptyWorld
                     eq_refl (or_intror eq_refl)))).
Defined.



(** A watchdog tick whose status check is answered by a 404: nothing
    is closed, and the run enters the terminal set. *)
Lemma watchdog_failed_query_keeps_stream_witness :
  let session := Some (Transport.mkSession "tok") in
  let r := Liveness.mkStatusResponse 404 "Not Found" (JS.Ok JNull) in
  let answer := Liveness.StatusAnswer r in
  let w := Transport.emptyWorld in
  let w' := fst (Liveness.watchdogTick 0 0 "run-1" 20000 session answer w) in
  (15000 < 20000 - default 0 (Transport.lastStreamMessage w)
   /\ snd (Liveness.getAgentStatus "run-1" session answer w)
      = Liveness.StatusError (Liveness.httpErrorMessage r))
  /\ Transport.trace w' = []
  /\ Transport.lastStreamMessage w' = Some 20000
  /\ "run-1" ∈ Transport.nonRunningAgentRuns w'.
Proof.
  intros session r answer w w'.
  pose proof (watchdog_failed_query_keeps_stream 0 0 "run-1" 20000 session answer w
                (Liveness.httpErrorMessage r) eq_refl eq_refl) as H.
  destruct H as (Htrace & _ & _ & _ & Hlast & _ & _ & _ & Hiff & _).
  refine (conj (conj eq_refl eq_refl) (conj Htrace (conj Hlast _))).
  apply Hiff. right. exists "tok", r. repeat split.
Defined.

(** A watchdog tick answered by a 404. *)
Lemma watchdog_ignores_not_found_witness :
  let session := Some (Transport.mkSession "tok") in
  let r := Liveness.mkStatusResponse 404 "Not Found" (JS.Ok JNull) in
  let w := Transport.emptyWorld in
  (15000 < 20000 - default 0 (Transport.lastStreamMessage w)
   /\ ("run-1" ∉ Transport.nonRunningAgentRuns w)
   /\ Transport.accessToken session = Some "tok"
   /\ Liveness.status r = 404%nat)
  /\ Transport.trace
       (fst (Liveness.watchdogTick 0 0 "run-1" 20000 session (Liveness.StatusAnswer r) w))
     = Transport.trace w.
Proof.
  intros session r w.
  assert (Hnin : "run-1" ∉ Transport.nonRunningAgentRuns w) by apply not_elem_of_empty.
  pose proof (watchdog_ignores_not_found 0 0 "run-1" 20000 session "tok" r w
                eq_refl Hnin eq_refl eq_refl) as H.
  exact (conj (conj eq_refl (conj Hnin (conj eq_refl eq_refl)))
           (proj1 (proj2 (proj2 H)))).
Defined.

(** A watchdog tick answered by a completed status. *)
Lemma watchdog_confirmed_end_witness :
  let session := Some (Transport.mkSession "tok") in
  let data := JObj [("status", JStr "completed")] in
  let r := Liveness.mkStatusResponse 200 "OK" (JS.Ok data) in
  let w := Transport.emptyWorld in
  (15000 < 20000 - default 0 (Transport.lastStreamMessage w)
   /\ ("run-1" ∉ Transport.nonRunningAgentRuns w)
   /\ Transport.accessToken session = Some "tok"
   /\ Liveness.ok r = true
   /\ Liveness.body r = JS.Ok data
   /\ JS.getProp data "status" = JS.Ok (JStr "completed")
   /\ JS.isStr (JStr "completed") "running" = false)
  /\ Transport.trace
       (fst (Liveness.watchdogTick 0 0 "run-1" 20000 session (Liveness.StatusAnswer r) w))
     = [Transport.EventSourceClose 0; Transport.OnClose 0].
Proof.
  intros session data r w.
  assert (Hnin : "run-1" ∉ Transport.nonRunningAgentRuns w) by apply not_elem_of_empty.
  pose proof (watchdog_confirmed_end 0 0 "run-1" 20000 session "tok" r data
                (JStr "completed") w eq_refl Hnin eq_refl eq_refl eq_refl eq_refl eq_refl)
    as H.
  exact (conj (conj eq_refl (conj Hnin (conj eq_refl (conj eq_refl
                (conj eq_refl (conj eq_refl eq_refl))))))
           (proj1 (proj2 H))).
Defined.

(** A bare completion event, then a watchdog tick answered by a
    completed status: [onClose] is called twice. *)
Lemma completion_then_watchdog_closes_twice_witness :
  let raw := "{" +:+ JSString.quoted "type" +:+ ":" +:+ JSString.quoted "status"
             +:+ "," +:+ JSString.quoted "status" +:+ ":"
             +:+ JSString.quoted "completed" +:+ "}" in
  let session := Some (Transport.mkSession "tok") in
  let data := JObj [("status", JStr "completed")] in
  let r := Liveness.mkStatusResponse 200 "OK" (JS.Ok data) in
  let w := Transport.emptyWorld in
  let w1 := Transport.onmessage Transport.returning 0 0 "run-1" 200 raw w in
  let w2 := fst (Liveness.watchdogTick 0 0 "run-1" 20000 session
                   (Liveness.StatusAnswer r) w1) in
  (JSString.includes raw Transport.pingMarker = false
   /\ Transport.isNotFound raw = false
   /\ Transport.isCompletion raw = true
   /\ Transport.isFinalCompletion raw = false
   /\ Transport.returning (Transport.trace w) (Transport.OnMessage 0 raw)
      = Transport.Returns
   /\ ("run-1" ∉ Transport.nonRunningAgentRuns w)
   /\ 15000 < 20000 - 200
   /\ Liveness.ok r = true)
  /\ Liveness.closeCalls 0 (Transport.trace w2)
     = [Transport.OnClose 0; Transport.OnClose 0].
Proof.
  intros raw session data r w w1 w2.
  assert (Hnin : "run-1" ∉ Transport.nonRunningAgentRuns w) by apply not_elem_of_empty.
  pose proof (completion_then_watchdog_closes_twice Transport.returning 0 0 "run-1"
                200 20000 raw session "tok" r data (JStr "completed") w
                eq_refl eq_refl eq_refl eq_refl eq_refl eq_refl Hnin eq_refl eq_refl
                eq_refl eq_refl eq_refl eq_refl) as H.
  exact (conj (conj eq_refl (conj eq_refl (conj eq_refl (conj eq_refl
                (conj eq_refl (conj Hnin (conj eq_refl eq_refl)))))))
           (proj2 (proj2 H))).
Defined.

(** The world after one start for [run-1] is reachable, and its
    registered stream is open. *)
Lemma registered_streams_are_open_witness :
  let w := Transport.start 0 "run-1" (Some (Transport.mkSession "tok")) 100
             Transport.emptyWorld in
  (Liveness.reachable w /\ Transport.activeStreams w !! "run-1" = Some 0%nat)
  /\ (0%nat ∉ Transport.closed w).
Proof.
  intros w.
  assert (Hr : Liveness.reachable w).
  { eapply rtc_l; [apply (Liveness.step_streamAgent "run-1")|].
    apply rtc_once.
    apply (Liveness.step_setupStream 0 "run-1" (Some (Transport.mkSession "tok")) 100). }
  assert (Hreg : Transport.activeStreams w !! "run-1" = Some 0%nat).
  { apply lookup_insert_eq. }
  exact (conj (conj Hr Hreg)
           (proj1 (proj2 (registered_streams_are_open w "run-1" 0 Hr Hreg)))).
Defined.

(** A run marked as over stays so across a start for it. *)
Lemma terminal_set_never_shrinks_witness :
  let w := Transport.addNonRunning "run-1" Transport.emptyWorld in
  let w' := Transport.setupStream 0 "run-1" (Some (Transport.mkSession "tok")) 100 w in
  (rtc Liveness.Step w w' /\ "run-1" ∈ Transport.nonRunningAgentRuns w)
  /\ "run-1" ∈ Transport.nonRunningAgentRuns w'.
Proof.
  intros w w'.
  assert (Hs : rtc Liveness.Step w w').
  { apply rtc_once. apply Liveness.step_setupStream. }
  assert (Hin : "run-1" ∈ Transport.nonRunningAgentRuns w).
  { subst w. simpl. apply elem_of_union_r, elem_of_singleton. reflexivity. }
  exact (conj (conj Hs Hin) (terminal_set_never_shrinks w w' "run-1" Hs Hin)).
Defined.

(** Playback of a thread of two messages, from the start. *)
Lemma reveal_completes_witness :
  let m1 := Replay.mkShared "m1" "user" "hello" "t1" in
  let m2 := Replay.mkShared "m2" "assistant" "world" "t2" in
  let t := Replay.mkThread [m1; m2] in
  let st := Replay.mkReplay false 0 "" false None ∅ in
  let st1 := fst (Replay.startPlayback (Some t) 7 st) in
  Replay.startPlayback (Some t) 7 st = (st1, Some m1)
  /\ Replay.streamingText (snd (Replay.reveal m1 6 0 st1)) = "hello".
Proof.
  intros m1 m2 t st st1.
  assert (Hs : Replay.startPlayback (Some t) 7 st = (st1, Some m1)) by reflexivity.
  exact (conj Hs (proj1 (proj2 (reveal_completes t 7 st st1 m1 Hs)))).
Defined.

(** The same thread, after the first message: the index moves to 1 and
    a further start finds nothing to do. *)
Lemma playback_stalls_after_advance_witness :
  let m1 := Replay.mkShared "m1" "user" "hello" "t1" in
  let m2 := Replay.mkShared "m2" "assistant" "world" "t2" in
  let t := Replay.mkThread [m1; m2] in
  let st := Replay.mkReplay false 0 "" false None ∅ in
  let st1 := fst (Replay.startPlayback (Some t) 7 st) in
  let st3 := Replay.advance (snd (Replay.reveal m1 6 0 st1)) in
  Replay.startPlayback (Some t) 7 st = (st1, Some m1)
  /\ Replay.currentMessageIndex st3 = 1
  /\ Replay.startPlayback (Some t) 8 st3 = (st3, None).
Proof.
  intros m1 m2 t st st1 st3.
  assert (Hs : Replay.startPlayback (Some t) 7 st = (st1, Some m1)) by reflexivity.
  pose proof (playback_stalls_after_advance t 7 8 st st1 m1 m2 Hs) as H.
  exact (conj Hs (conj (proj1 (proj2 H)) (proj1 (proj2 (proj2 (proj2 H)))))).
Defined.

(** Pause three characters into [hello], then play. *)
Lemma resume_restarts_current_message_witness :
  let m1 := Replay.mkShared "m1" "user" "hello" "t1" in
  let t := Replay.mkThread [m1] in
  let st := Replay.mkReplay true 0 "hel" false (Some 7%nat) {[7%nat]} in
  (0 <= Replay.currentMessageIndex st < Z.of_nat (length (Replay.messages t))
   /\ Replay.streamingIntervalRef st = Some 7%nat
   /\ 7%nat <> 8%nat)
  /\ snd (Replay.startPlayback (Some t) 8 (Replay.pausePlayback st)) = Some m1
  /\ Replay.streamingText (fst (Replay.startPlayback (Some t) 8 (Replay.pausePlayback st)))
     = "".
Proof.
  intros m1 t st.
  assert (Hi : 0 <= Replay.currentMessageIndex st < Z.of_nat (length (Replay.messages t))).
  { simpl. lia. }
  assert (Hne : 7%nat <> 8%nat) by discriminate.
  pose proof (resume_restarts_current_message t 7 8 st Hi eq_refl Hne) as H.
  exact (conj (conj Hi (conj eq_refl Hne))
           (conj (proj1 H) (proj1 (proj2 (proj2 (proj2 (proj2 H))))))).
Defined.

(** A seek to the only message, then the pending advance. *)
Lemma seek_does_not_cancel_advance_witness :
  let m1 := Replay.mkShared "m1" "user" "hello" "t1" in
  let t := Replay.mkThread [m1] in
  let st := Replay.mkReplay true 0 "hello" true (Some 7%nat) ∅ in
  Replay.messages t <> []
  /\ Replay.currentMessageIndex (Replay.advance (Replay.skipToMessage (Some t) 0 st)) = 1.
Proof.
  intros m1 t st.
  assert (Hne : Replay.messages t <> []) by discriminate.
  exact (conj Hne (proj1 (seek_does_not_cancel_advance t 0 st Hne))).
Defined.

(** A text with no marker is trimmed. *)
Lemma parseAttachments_without_marker_witness :
  JSString.includes "  hello " Replay.opener = false
  /\ Replay.parseAttachments "  hello "
     = {| Replay.clean := "hello"; Replay.paths := [] |}.
Proof.
  exact (conj eq_refl (parseAttachments_without_marker "  hello " eq_refl)).
Defined.

(** The path of a marker occurs in the text inside its marker. *)
Lemma attachment_paths_come_from_markers_witness :
  let text := "[Uploaded File: a.txt] see file" in
  "a.txt" ∈ Replay.paths (Replay.parseAttachments text)
  /\ JSString.includes text (Replay.matchedText "a.txt") = true.
Proof.
  intros text.
  assert (Hin : "a.txt" ∈ Replay.paths (Replay.parseAttachments text)).
  { change (Replay.paths (Replay.parseAttachments text)) with ["a.txt"].
    apply list_elem_of_here. }
  exact (conj Hin (proj1 (proj2 (attachment_paths_come_from_markers text "a.txt" Hin)))).
Defined.

(** A user event with plain text comes back with the kind [user]. *)
Lemma normalized_type_is_a_kind_witness :
  let props := [("role", JStr "user"); ("content", JStr "hello")] in
  (forall props', JObj props = JObj props' -> NoDup (map fst props'))
  /\ exists v n',
       Normalizer.normalizeMessage RefJSON.platform (JObj props) 0%nat = (JS.Ok v, n')
       /\ JS.inStrings CompLogic.kinds (JS.get v "type") = true.
Proof.
  intros props.
  assert (Hwf : forall props', JObj props = JObj props' -> NoDup (map fst props')).
  { intros props' [= <-]. apply NoDup_cons. split; [|apply NoDup_singleton].
    intros H. apply list_elem_of_singleton in H. discriminate H. }
  exact (conj Hwf (normalized_type_is_a_kind RefJSON.platform (JObj props) 0%nat Hwf)).
Defined.

(** A canonical user event keeps its content. *)
Lemma canonical_event_passes_through_witness :
  let props := [("type", JStr "user"); ("content", JStr "hi")] in
  (NoDup (map fst props)
   /\ JS.inStrings Normalizer.canonicalTypes (JS.get (JObj props) "type") = true)
  /\ exists v n',
       Normalizer.normalizeMessage RefJSON.platform (JObj props) 0%nat = (JS.Ok v, n')
       /\ JS.get v "content" = JStr "hi".
Proof.
  intros props.
  assert (Hnd : NoDup (map fst props)).
  { apply NoDup_cons. split; [|apply NoDup_singleton].
    intros H. apply list_elem_of_singleton in H. discriminate H. }
  destruct (canonical_event_passes_through RefJSON.platform props 0%nat Hnd eq_refl)
    as (v & n' & E & Hk & _).
  refine (conj (conj Hnd eq_refl) _).
  exists v, n'. split; [exact E|].
  assert (Hne : "content" <> "id") by discriminate.
  exact (Hk "content" Hne).
Defined.

(** The end-of-run status is hidden, in development too. *)
Lemma canonical_event_rendering_witness :
  let props := [("type", JStr "status"); ("status_type", JStr "thread_run_end")] in
  (NoDup (map fst props)
   /\ JS.inStrings Normalizer.canonicalTypes (JS.get (JObj props) "type") = true)
  /\ exists n',
       Rendering.shouldRenderMessage RefJSON.platform true (JObj props) 0%nat
       = (JS.Ok false, n').
Proof.
  intros props.
  assert (Hnd : NoDup (map fst props)).
  { apply NoDup_cons. split; [|apply NoDup_singleton].
    intros H. apply list_elem_of_singleton in H. discriminate H. }
  exact (conj (conj Hnd eq_refl)
           (canonical_event_rendering RefJSON.platform true props 0%nat Hnd eq_refl)).
Defined.
